(* ===== verification/_CoqProject ===== *)
-Q . S2P
Prelude.v
Demangle.v
Naga.v
Layout.v
StructBuilder.v
BindGroup.v
Emit.v
EntryPoints.v
ModBuilder.v
Bindings.v
ExampleApp.v
ExampleResources.v
LibTests.v
