(* ===== verification/Prelude.v ===== *)
(** * wgsl_bindgen: a verification development (root file)

    The program ([src/wgsl_bindgen/src/lib.rs] with its helpers in
    [src/wgsl_bindgen/src/quote_gen/utils.rs], and the example renderer
    [src/example/src/main.rs]) reads a parsed WGSL shader (a [naga::Module])
    and generates Rust bindings for it.  [create_rust_bindings] starts a
    module builder with the prelude in [_root], then, for every configured
    entry in order, analyses its bind groups (the only fallible step), files
    the struct and constant items, and adds the generated bind group module,
    vertex struct methods, compute module, entry point constants, vertex
    states, [create_pipeline_layout] and the shader module functions to the
    entry's module; the builder finally emits the module tree.

    ** Files, in dependency order

    - [Prelude] (this file): text as [list ascii] ([str], [lit]), Rust's
      [split("::")], [starts_with] and [contains]; [result] with [Ok]/[Err]
      and the [let!] bind; the [downward_closed] test of "the group set is
      [0..n]"; the hint databases [bindgen] and [bindgen_rw]; shared list
      lemmas.
    - [Demangle]: the composer's mangling convention ([name ++
      "X_naga_oil_mod_X" ++ base32(path) ++ "X"], with the RFC 4648 codec
      in [Module Base32]) and [bevy_util::demangle] (both outside [src/],
      from spec 4.5), then [utils.rs]: [demangle_and_qualify],
      [RustSourceItem], [RustSourceItem::from_mangled] and
      [create_shader_raw_string_literal], with [proc_macro2]'s lexing of
      the raw string it builds ([raw_string_body]: the first double quote
      followed by [#] ends it, a carriage return not followed by a line
      feed is rejected, and the rejection is the panic of the [unwrap]).
    - [Naga]: the IR records the code reads (types, global variables with
      [@group]/[@binding], entry points with stage, workgroup size and
      arguments).
    - [Layout]: the GPU memory layout of host-shareable types (the WGSL
      rules, outside [src/]; booleans with naga's width of one byte, a
      runtime-sized array counted as one element, as naga's [Layouter]
      does): [round_up], scalar, vector, matrix, array and struct layouts, the sequential placement [place] shared with
      Rust's [repr(C)], and [gpu_layout] through naga's type arena with
      fuel (the arena's length is enough: [type_layout_fuel]).
    - [StructBuilder]: [WgslTypeSerializeStrategy] (lib.rs 75-80) and,
      from spec 4.1 and 4.2 (structs.rs and types.rs are outside
      [src/]), the type mapper [host_type] with a validated custom map
      ([bool] built in, runtime-sized arrays as the flagged
      [HRuntimeArray]),
      the DirectReinterpret record [build_direct] (members at naga's
      offsets with explicit padding, under [repr(C, align(A))]), the
      RuntimeEncoded [encode_plan], and [struct_item] choosing between
      them.
    - [BindGroup]: [CreateModuleError] (lib.rs 84-94) and, in [Module
      BindGroup], the analyzer [get_bind_group_data] of [bindgroup.rs]
      (outside [src/], from spec 4.3): a [BTreeMap] as a key-sorted
      association list, the per-group binding lists kept sorted, the
      duplicate check during collection and the consecutiveness check after
      it; with a list-based reference specification ([used_pairs],
      [first_dup], [used_groups]).
    - [Emit]: the emitted Rust as data: one [Item] constructor per shape of
      [quote!] the code writes, a [TokenStream] being a list of items.
    - [EntryPoints]: lib.rs 299-504: [compute_module], [workgroup_size],
      [create_compute_pipeline], [entry_point_constants], [vertex_states],
      [vertex_input_structs] and [vertex_struct_methods], over the [wgsl.rs]
      helpers [get_vertex_input_structs] and [vertex_format] (from spec 4.4).
    - [ModBuilder]: the interface the orchestrator uses, as the classes
      [ModBuilder] (new, add, add_items, contents, generate) and
      [ModBuilderLaws]; [Module ModTree] implements them as the
      declaration merge engine of spec 4.5 ([RustModBuilder] is outside
      [src/]): first-seen order, exact duplicates dropped, a different
      body under one identity is [InconsistentDeclaration].
    - [Bindings]: lib.rs 96-297: [create_rust_bindings] as [process_entry]
      (the loop body) folded by [run_entries], [indexed_name_to_ident],
      [create_pipeline_layout], [shader_module] and its two variants.  It
      is a [Section] over any builder with [ModBuilderLaws] and over the
      collaborators outside [src/] (struct and constant generators, bind
      group module emitter, prelude assertions, [module_to_source],
      [diff_paths], [to_snake]); [create_rust_bindings_text] is the final
      [Ok(pretty_print(&output))], over a [pretty_print] whose [None] is
      the panic of [syn::parse_file(..).unwrap()].
    - [ExampleApp]: main.rs: [State] (its size and surface configuration),
      [resize], [render], the event loop closure [handle_event] and runs of
      it, with the calls on the surface, queue, window and event loop as a
      list of [Effect]s; [reachable] is the step relation's reachable set;
      [abstract_step]/[abstract_run] are the size machine the loop refines;
      [main] is [State::new] followed by winit 0.29's loop
      ([run_until_exit]: after [target.exit()] the rest of the current
      iteration is still delivered, up to its [AboutToWait], then
      [LoopExiting], and the loop returns).
    - [ExampleResources]: the setup chain of [State::new] (main.rs 33-88:
      surface, adapter, device, [caps.formats[0]], default configuration,
      each unwrapped, the platform's answers being inputs, and the
      [configure] call, which panics on a zero-area window) and what
      [State::new] (main.rs 68-182) hands to wgpu:
      the gradient texture's descriptor and bytes, the sampler, the [rts]
      buffer, the vertex buffer contents, the two generated bind groups and
      the render pipeline with the generated names it uses; the example's
      shader (not under [src/]) as a [Module] of the shape main.rs needs.
    - [LibTests]: the unit tests of lib.rs (524-1136) and utils.rs (76-88)
      as booleans over the model ([assert_tokens_eq] compares token streams
      structurally; [to_snake] of the [case] crate is modelled), all of
      them evaluating to [true] ([lib_tests_pass]).

    ** Conventions

    A Rust panic ([unwrap], [expect]) is [None]; a [Result] is [result].
    [u32] group, binding and location numbers and window sizes are [nat]:
    the code compares, sorts and prints them and never does arithmetic on
    them that could wrap.  Strings are [list ascii]; the generated code's
    names are computed exactly as the code formats them (e.g.
    [ENTRY_<NAME>], [BindGroup<k>] through stdpp's decimal [pretty]).
    Every function is structurally recursive except the walks through
    naga's type arena ([Layout.gpu_layout], [StructBuilder.host_type]),
    which take fuel: types only refer to earlier handles, so the arena's
    length is enough fuel, and [Layout.type_layout_fuel] proves that any
    larger fuel gives the same result.  Byte sizes and offsets are
    [nat]: they are [u64]/[usize] in the code and stay far below the
    width.

    ** Theorems

    - The orchestrator ([Bindings]): an error is the analysis error of the
      first failing entry, later entries are never looked at, no error is
      returned when every analysis succeeds, and on success every entry's
      module holds the generated sections in the code's order, with
      [create_pipeline_layout] naming [BindGroup0..BindGroup(n-1)]; the
      [_root] module starts with the prelude.  These are proved against
      [ModBuilderLaws] only, and the tests of lib.rs are replayed on
      [ModTree] by evaluation.
    - The bind group analyzer ([BindGroup]): the duplicate error names the
      first repeated pair's binding; [NonConsecutiveBindGroups] exactly
      when the groups in use are not [0..n]; a success has sorted groups
      [0..n] and sorted bindings; success exactly when both hold.
    - Demangling ([Demangle]): base32 decoding inverts encoding;
      [demangle] is a left inverse of mangling (spec 8);
      [demangle_and_qualify] and [from_mangled] on decorated and plain
      names, including the two tests of utils.rs; for a shader text
      without the raw string terminator, embedding it panics exactly when
      the text has a bare carriage return, and otherwise the literal lexes
      back to the shader text.
    - The generators ([EntryPoints]): the compute module is empty exactly
      without compute entry points and has one constant and one pipeline
      function per compute entry; one [ENTRY_<NAME>] constant per entry
      point, distinct exactly when the upper-cased names are; vertex state
      scaffolding exactly with vertex entry points, each entry function
      taking every vertex input buffer; the attribute table of each vertex
      input struct, one attribute per field in location order with the
      field's location, name and vertex format; [vertex_states], written with
      [filter_map] over shared step-mode and layout lists, is equal to a
      direct reference definition.
    - The merge engine ([ModBuilder]): the laws, idempotence of
      [add_items], the shape of its errors, the invariant that no module
      declares a name twice, and that a demangled item is filed in its
      origin module.
    - The example ([ExampleApp]): by induction on runs, the surface is
      always configured at the current size, the size stays positive, the
      handler only configures positive sizes and redraws are continuous.
      The loop refines the abstract size machine that only accepts
      resizes of its window to a positive size.  For the whole program
      ([main]): a window opened at a positive size is only ever configured
      at positive sizes, and after [target.exit()] the loop ends at the
      end of the current iteration (a frame can still be rendered before
      it: [main_render_after_exit]).
    - Composition ([ExampleResources]): for every shader with the entry
      points and two bind groups the example relies on, the generated code
      has the [ENTRY_FS_MAIN] constant, a [vs_main_entry] of the arity the
      example calls and a pipeline layout over its two bind groups.

    - The struct builder ([StructBuilder], [Layout]): the round trip of
      spec 8 (a DirectReinterpret record, laid out by [repr(C)], has every
      member at naga's offset and the struct's GPU size and alignment);
      the builder succeeds on every struct laid out by the WGSL rules whose
      members the mapper can map (GPU alignments being powers of two);
      the mapper's host types have the GPU size; the RuntimeEncoded writes
      stay inside the buffer without overlapping; unsupported members are
      rejected under both strategies; struct member placement is aligned
      and disjoint.
    - [State::new] panics on a window of zero width or height, whatever
      the platform answers.

    ** Not modelled

    [pretty_print] itself (lib.rs 162-166): it runs the token stream
    through [syn::parse_file] and [prettyplease], outside [src/], so it is
    a parameter and the properties are stated on the token stream;
    [bindgroup::bind_groups_module]: [bindgroup.rs] is not under [src/]
    and spec 4.3 describes only the analysis, not the module it emits, so
    the orchestrator takes it as a section variable (what [lib.rs] passes
    to it, the table and the module-wide [shader_stages], is modelled);
    [consts.rs] and the token form of the records [StructBuilder]
    describes ([structs_items] and [consts_items] are section variables
    too); the Rust tokens that follow a raw string closed early by a
    terminator inside the shader; the uniform address-space constraints
    of WGSL and the placement of a runtime-sized array as the last
    member, which naga's validation enforces; the naga front end and the
    composer; the options builder, CLI and file I/O of
    [wgsl_bindgen.rs]; wgpu's validation of the calls [State::new] makes
    after the surface configuration; GPU objects stay opaque (only the
    descriptors, data and names the code passes are kept). *)

From stdpp Require Export base list strings options sorting sets.
From Stdlib Require Export Ascii Lia ZifyNat.
From Stdlib Require String.

Declare Scope bindgen_scope.
Delimit Scope bindgen_scope with bg.
Open Scope bindgen_scope.

(** ** Text

    Rust's [String] and [&str] are modelled as lists of characters, so that
    splitting, searching and concatenation are list operations with the
    list library's lemmas.  [lit] turns a Rocq string literal into one. *)
Abbreviation str := (list ascii).

Definition lit (s : string) : str := String.list_ascii_of_string s.

(** The two characters of Rust's path separator ["::"]. *)
Definition colon : ascii := ":"%char.
Definition path_sep : str := [colon; colon].

(** [is_prefix p l]: [l] starts with [p] (Rust's [starts_with]). *)
Fixpoint is_prefix (p l : str) : bool :=
  match p, l with
  | [], _ => true
  | c :: p', d :: l' => if decide (c = d) then is_prefix p' l' else false
  | _ :: _, [] => false
  end.

(** Rust's [str::split("::")]: left-to-right, non-overlapping. *)
Fixpoint split_path (l : str) : list str :=
  match l with
  | [] => [[]]
  | c1 :: ((c2 :: rest) as tl) =>
      if decide (c1 = colon /\ c2 = colon) then [] :: split_path rest
      else match split_path tl with
           | seg :: segs => (c1 :: seg) :: segs
           | [] => [[c1]]
           end
  | [c] => [[c]]
  end.

(** Rust's [join("::")] on a vector of strings. *)
Fixpoint join_path (segs : list str) : str :=
  match segs with
  | [] => []
  | [s] => s
  | s :: rest => s ++ path_sep ++ join_path rest
  end.

(** [contains_sub p l]: [p] occurs in [l] (Rust's [contains], for a
    non-empty pattern). *)
Fixpoint contains_sub (p l : str) : bool :=
  match l with
  | [] => false
  | _ :: tl => is_prefix p l || contains_sub p tl
  end.

Definition contains_path_sep (l : str) : bool := contains_sub path_sep l.

(** ASCII character classes used by the identifier rules. *)
Definition is_upper (c : ascii) : bool :=
  let n := nat_of_ascii c in (65 <=? n) && (n <=? 90).
Definition is_lower (c : ascii) : bool :=
  let n := nat_of_ascii c in (97 <=? n) && (n <=? 122).
Definition is_digit (c : ascii) : bool :=
  let n := nat_of_ascii c in (48 <=? n) && (n <=? 57).
(** The regex class [\w]: letters, digits and underscore. *)
Definition is_word_char (c : ascii) : bool :=
  is_upper c || is_lower c || is_digit c || bool_decide (c = "_"%char).

(** Rust's [to_uppercase] on ASCII text. *)
Definition upper_char (c : ascii) : ascii :=
  if is_lower c then ascii_of_nat (nat_of_ascii c - 32) else c.
Definition to_uppercase (l : str) : str := map upper_char l.

(** ** Results

    Rust's [Result<T, E>]: [Ok] or [Err], with a bind that stops at the
    first error, as the [?] operator does. *)
Inductive result (A E : Type) : Type :=
| Ok (a : A)
| Err (e : E).
Arguments Ok {A E} a.
Arguments Err {A E} e.

Definition res_bind {A B E} (m : result A E) (k : A -> result B E) : result B E :=
  match m with
  | Ok a => k a
  | Err e => Err e
  end.

Notation "'let!' x := m 'in' k" := (res_bind m (fun x => k))
  (at level 10, x name, m at level 100, k at level 200) : bindgen_scope.

Definition res_map {A B E} (f : A -> B) (m : result A E) : result B E :=
  match m with
  | Ok a => Ok (f a)
  | Err e => Err e
  end.

(** Rust's iterator [collect::<Result<Vec<_>, _>>()]: the first error wins. *)
Fixpoint res_mapM {A B E} (f : A -> result B E) (l : list A) : result (list B) E :=
  match l with
  | [] => Ok []
  | x :: xs => let! y := f x in let! ys := res_mapM f xs in Ok (y :: ys)
  end.

(** ** Automation *)
Create HintDb bindgen discriminated.
Create Rewrite HintDb bindgen_rw.

Ltac invc H := inversion H; subst; clear H.

(** Case on every [result] scrutinee in the goal, keeping the equation. *)
Ltac destruct_res :=
  repeat match goal with
  | |- context [match ?m with Ok _ => _ | Err _ => _ end] =>
      let E := fresh "E" in destruct m eqn:E
  end.

(** ** Generic lemmas *)

Lemma res_bind_ok {A B E} (a : A) (k : A -> result B E) :
  res_bind (Ok a) k = k a.
Proof. reflexivity. Qed.

Lemma res_bind_err {A B E} (e : E) (k : A -> result B E) :
  res_bind (Err e) k = Err e.
Proof. reflexivity. Qed.

Lemma res_bind_eq_ok {A B E} (m : result A E) (k : A -> result B E) b :
  res_bind m k = Ok b -> exists a, m = Ok a /\ k a = Ok b.
Proof. destruct m; simpl; [eauto | discriminate]. Qed.

#[export] Hint Rewrite @res_bind_ok @res_bind_err : bindgen_rw.

Lemma res_mapM_Forall2 {A B E} (f : A -> result B E) l k :
  res_mapM f l = Ok k <-> Forall2 (fun x y => f x = Ok y) l k.
Proof.
  induction l as [|x l IH] in k |- *; cbn.
  - split; [intros [= <-]; constructor|intros ->%Forall2_nil_inv_l; done].
  - split.
    + destruct (f x) as [y|] eqn:Hy; cbn; [|done]. destruct (res_mapM f l) as [ys|] eqn:Hl; cbn; [|done].
      intros [= <-]. constructor; [done|]. by apply IH.
    + intros (y & ys & Hy & Hys & ->)%Forall2_cons_inv_l. rewrite Hy. cbn.
      apply IH in Hys. by rewrite Hys.
Qed.

Lemma res_mapM_total {A B E} (f : A -> result B E) l :
  (forall x, x ∈ l -> exists y, f x = Ok y) -> exists k, res_mapM f l = Ok k.
Proof.
  induction l as [|x l IH]; intros Hl; cbn; [by eexists|].
  destruct (Hl x) as [y ->]; [set_solver|]. cbn.
  destruct IH as [k ->]; [set_solver|]. by eexists.
Qed.

Lemma is_prefix_app (p l : str) : is_prefix p (p ++ l) = true.
Proof. induction p; simpl; [done|]. rewrite decide_True; auto. Qed.

Lemma is_prefix_spec (p l : str) :
  is_prefix p l = true <-> exists r, l = p ++ r.
Proof.
  revert l; induction p as [|c p IH]; intros l.
  - split; [eauto | done].
  - destruct l as [|d l]; simpl.
    + split; [done|]. intros [r Hr]; discriminate.
    + case_decide; subst.
      * rewrite IH. split; intros [r Hr]; [subst; eauto|]. exists r. by simplify_eq.
      * split; [done|]. intros [r Hr]. by simplify_eq.
Qed.

Lemma split_path_cons2 (c1 c2 : ascii) (rest : str) :
  split_path (c1 :: c2 :: rest) =
  if decide (c1 = colon /\ c2 = colon) then [] :: split_path rest
  else match split_path (c2 :: rest) with
       | seg :: segs => (c1 :: seg) :: segs
       | [] => [[c1]]
       end.
Proof. reflexivity. Qed.

Lemma is_prefix_elem (p l : str) (c : ascii) :
  c ∈ p -> is_prefix p l = true -> c ∈ l.
Proof. intros Hc [r ->]%is_prefix_spec. apply elem_of_app. by left. Qed.

Lemma elem_of_drop_sub {A} (x : A) (k : nat) (l : list A) : x ∈ drop k l -> x ∈ l.
Proof. intros H. rewrite <- (take_drop k l). apply elem_of_app. by right. Qed.

(** An occurrence in [a] is an occurrence in [a ++ b]. *)
Lemma is_prefix_app_r (p a b : str) : is_prefix p a = true -> is_prefix p (a ++ b) = true.
Proof. intros [r ->]%is_prefix_spec. apply is_prefix_spec. exists (r ++ b). by rewrite app_assoc. Qed.

Lemma contains_sub_app_l (p a b : str) :
  contains_sub p (a ++ b) = false -> contains_sub p a = false.
Proof.
  induction a as [|c a IH]; simpl; [done|].
  intros [H1 H2]%orb_false_iff. rewrite IH by done.
  destruct (is_prefix p (c :: a)) eqn:E; [|done].
  apply (is_prefix_app_r _ _ b) in E. simpl in E, H1. congruence.
Qed.

Lemma contains_path_sep_app (a b : str) : contains_path_sep (a ++ path_sep ++ b) = true.
Proof.
  unfold contains_path_sep. induction a as [|c a IH].
  - rewrite app_nil_l. change (path_sep ++ b) with (colon :: colon :: b).
    cbn [contains_sub]. change (colon :: colon :: b) with (path_sep ++ b) at 1.
    by rewrite is_prefix_app.
  - cbn [app contains_sub]. by rewrite IH, orb_true_r.
Qed.

(** A text that contains no colon is one segment of the path splitter. *)
Lemma split_path_no_colon (l : str) :
  Forall (fun c => c <> colon) l -> split_path l = [l].
Proof.
  induction l as [|c1 l IH]; intros Hl; [done|].
  apply Forall_cons in Hl as [Hc Hl].
  destruct l as [|c2 l]; [done|].
  rewrite split_path_cons2, decide_False by tauto. by rewrite IH.
Qed.

Lemma split_path_app_sep (a b : str) :
  Forall (fun c => c <> colon) a ->
  split_path (a ++ path_sep ++ b) = a :: split_path b.
Proof.
  unfold path_sep. induction a as [|c a IH]; intros Ha; cbn [app].
  - rewrite split_path_cons2, decide_True; done.
  - apply Forall_cons in Ha as [Hc Ha].
    destruct a as [|c2 a]; cbn [app].
    + rewrite split_path_cons2, decide_False by tauto.
      rewrite split_path_cons2, decide_True by done. done.
    + rewrite split_path_cons2, decide_False by tauto.
      cbn [app] in IH. rewrite IH by done. done.
Qed.

Lemma join_path_cons2 (s s' : str) (segs : list str) :
  join_path (s :: s' :: segs) = s ++ path_sep ++ join_path (s' :: segs).
Proof. reflexivity. Qed.

(** Splitting a joined path recovers its segments (split/join round trip). *)
Lemma split_join_path (segs : list str) :
  segs <> [] -> Forall (Forall (fun c => c <> colon)) segs ->
  split_path (join_path segs) = segs.
Proof.
  induction segs as [|s segs IH]; intros Hne Hs; [done|].
  apply Forall_cons in Hs as [Hs1 Hs2].
  destruct segs as [|s' segs].
  - by apply split_path_no_colon.
  - rewrite join_path_cons2, split_path_app_sep by done.
    f_equal. by apply IH.
Qed.

Lemma join_path_snoc (segs : list str) (b : str) :
  segs <> [] -> join_path (segs ++ [b]) = join_path segs ++ path_sep ++ b.
Proof.
  induction segs as [|s [|s' segs] IH]; intros Hne; [done|done|].
  cbn [app] in *. rewrite join_path_cons2, IH by done.
  rewrite join_path_cons2. by rewrite !app_assoc.
Qed.

Lemma word_char_not_colon (c : ascii) : is_word_char c = true -> c <> colon.
Proof. intros H ->. vm_compute in H. discriminate. Qed.

Lemma forallb_word_no_colon (l : str) :
  forallb is_word_char l = true -> Forall (fun c => c <> colon) l.
Proof.
  intros H. rewrite forallb_forall in H. apply List.Forall_forall.
  intros c Hc. by apply word_char_not_colon, H.
Qed.

#[export] Hint Resolve is_prefix_app forallb_word_no_colon : bindgen.

(** ** Initial segments of the naturals

    A set of indices "forms [0..n]" exactly when it is downward closed;
    a strictly increasing list of indices that is downward closed is
    [seq 0 n]. *)
Definition downward_closed (l : list nat) : Prop :=
  forall x, x ∈ l -> forall y, y < x -> y ∈ l.

#[export] Instance downward_closed_dec (l : list nat) : Decision (downward_closed l).
Proof.
  destruct (decide (Forall (fun x => Forall (fun y => y ∈ l) (seq 0 x)) l)) as [H|H];
    [left|right].
  - intros x Hx y Hy. eapply Forall_forall in H; [|exact Hx].
    eapply Forall_forall in H; [exact H|]. apply elem_of_seq; lia.
  - intros Hd. apply H, Forall_forall. intros x Hx. apply Forall_forall.
    intros y Hy%elem_of_seq. apply (Hd x); [done|lia].
Defined.

#[export] Instance lt_antisymm_eq : AntiSymm (=) lt.
Proof. intros x y H1 H2. lia. Qed.

Lemma ssorted_lt_nodup (l : list nat) : StronglySorted lt l -> NoDup l.
Proof.
  induction l as [|x l IH]; intros Hs; [constructor|].
  apply StronglySorted_cons in Hs as [Hf Hs]. constructor; [|by apply IH].
  intros Hx. eapply Forall_forall in Hf; [|exact Hx]. lia.
Qed.

Lemma ssorted_seq (j n : nat) : StronglySorted lt (seq j n).
Proof.
  revert j; induction n as [|n IH]; intros j; simpl; constructor; [done|].
  apply Forall_forall. intros x Hx%elem_of_seq. lia.
Qed.

Lemma seq_downward_closed (n : nat) : downward_closed (seq 0 n).
Proof. intros x Hx%elem_of_seq y Hy. apply elem_of_seq. lia. Qed.

Lemma downward_closed_seq (l : list nat) :
  StronglySorted lt l -> downward_closed l -> l = seq 0 (length l).
Proof.
  intros Hs Hd. pose proof (ssorted_lt_nodup l Hs) as Hnd.
  apply (StronglySorted_unique lt); [done|apply ssorted_seq|].
  apply NoDup_Permutation; [done|apply NoDup_seq|]. intros x. rewrite elem_of_seq.
  split.
  - intros Hx. cut (length (seq 0 (S x)) <= length l); [rewrite length_seq; lia|].
    apply submseteq_length, NoDup_submseteq; [apply NoDup_seq|].
    intros y Hy%elem_of_seq. destruct (decide (y = x)) as [->|]; [done|].
    apply (Hd x); [done|lia].
  - intros Hx. destruct (decide (x ∈ l)) as [|Hn]; [done|]. exfalso.
    cut (length l <= length (seq 0 x)); [rewrite length_seq; lia|].
    apply submseteq_length, NoDup_submseteq; [done|].
    intros y Hy. apply elem_of_seq. split; [lia|].
    destruct (decide (y < x)); [done|].
    destruct (decide (y = x)) as [->|]; [done|]. exfalso. apply Hn, (Hd y); [done|lia].
Qed.

(** Membership in [map] (the code's iterators map with [List.map]). *)
Lemma elem_of_map_iff {A B} (f : A -> B) (l : list A) (y : B) :
  y ∈ map f l <-> exists x, y = f x /\ x ∈ l.
Proof. apply list_elem_of_fmap. Qed.

Lemma elem_of_concat_iff {A} (x : A) (ls : list (list A)) :
  x ∈ concat ls <-> exists l, l ∈ ls /\ x ∈ l.
Proof.
  rewrite list_elem_of_In, in_concat. setoid_rewrite list_elem_of_In. naive_solver.
Qed.

Lemma elem_of_filter_bool {A} (f : A -> bool) (l : list A) (x : A) :
  x ∈ List.filter f l <-> x ∈ l /\ f x = true.
Proof. rewrite !list_elem_of_In. apply filter_In. Qed.

Lemma omap_cons {A B} (f : A -> option B) (x : A) (l : list A) :
  omap f (x :: l) = match f x with Some y => y :: omap f l | None => omap f l end.
Proof. reflexivity. Qed.

Lemma omap_nil_iff {A B} (f : A -> option B) (l : list A) :
  omap f l = [] <-> forall x, x ∈ l -> f x = None.
Proof.
  induction l as [|x l IH]; [split; [set_solver|done]|].
  rewrite omap_cons. destruct (f x) eqn:E.
  - split; [done|]. intros H. rewrite H in E; [done|set_solver].
  - rewrite IH. split; intros H y Hy; [|apply H; set_solver].
    apply elem_of_cons in Hy as [->|Hy]; [done|by apply H].
Qed.

Lemma Forall2_elem_of_r {A B} (P : A -> B -> Prop) (l : list A) (k : list B) (y : B) :
  Forall2 P l k -> y ∈ k -> exists x, x ∈ l /\ P x y.
Proof.
  induction 1 as [|x y' l k Hxy _ IH]; [set_solver|].
  intros [->|Hy]%elem_of_cons; [exists x; set_solver|].
  destruct (IH Hy) as (x' & ? & ?). exists x'. set_solver.
Qed.
