(* ===== verification/Demangle.v ===== *)
(** * Demangle: cross-module identifiers

    The shader composer (naga_oil) renames an item [name] imported from
    module [path] to [name ++ "X_naga_oil_mod_X" ++ base32(path) ++ "X"],
    base32 being RFC 4648 without padding.  This file models that
    convention, the demangler of [bevy_util] that reverses it, and the two
    functions of [src/wgsl_bindgen/src/quote_gen/utils.rs] built on it:
    [demangle_and_qualify] and [RustSourceItem::from_mangled], and the
    third function of that file, [create_shader_raw_string_literal], with
    the way Rust lexes the raw string it builds.

    The codec and the demangler live outside [src/] and are modelled from
    the specification ("demangling is a left-inverse of mangling"); a call
    that panics in Rust ([unwrap] on a failed decode) is [None] here. *)

From S2P Require Import Prelude.

Module Base32.

(** A byte as its eight bits, most significant first. *)
Definition char_bits (c : ascii) : list bool :=
  match c with
  | Ascii b0 b1 b2 b3 b4 b5 b6 b7 => [b7; b6; b5; b4; b3; b2; b1; b0]
  end.

Definition bits_of_text (s : str) : list bool := concat (map char_bits s).

(** Bits, most significant first, as a number, and back ([k] bits). *)
Fixpoint nat_of_bits_acc (acc : nat) (bs : list bool) : nat :=
  match bs with
  | [] => acc
  | b :: bs' => nat_of_bits_acc (2 * acc + (if b then 1 else 0)) bs'
  end.
Definition nat_of_bits (bs : list bool) : nat := nat_of_bits_acc 0 bs.

Fixpoint bits_of_nat (k n : nat) : list bool :=
  match k with
  | 0 => []
  | S k' => bits_of_nat k' (n / 2) ++ [Nat.odd n]
  end.

(** The RFC 4648 alphabet: [A-Z] for 0..25, [2-7] for 26..31. *)
Definition alphabet_char (v : nat) : ascii :=
  if v <? 26 then ascii_of_nat (65 + v) else ascii_of_nat (24 + v).

Definition alphabet_index (c : ascii) : option nat :=
  let n := nat_of_ascii c in
  if is_upper c then Some (n - 65)
  else if (50 <=? n) && (n <=? 55) then Some (n - 24)
  else None.

Definition sym_of_bits (g : list bool) : ascii := alphabet_char (nat_of_bits g).

Definition bits_of_sym (c : ascii) : option (list bool) :=
  bits_of_nat 5 <$> alphabet_index c.

(** Encoding: five bits per symbol, the last group padded with zeros. *)
Fixpoint encode_bits (bs : list bool) : str :=
  match bs with
  | b0 :: b1 :: b2 :: b3 :: b4 :: rest =>
      sym_of_bits [b0; b1; b2; b3; b4] :: encode_bits rest
  | [] => []
  | _ => [sym_of_bits (bs ++ replicate (5 - length bs) false)]
  end.

Definition encode (s : str) : str := encode_bits (bits_of_text s).

(** Decoding. *)
Fixpoint bits_of_syms (cs : str) : option (list bool) :=
  match cs with
  | [] => Some []
  | c :: cs' =>
      match bits_of_sym c, bits_of_syms cs' with
      | Some g, Some r => Some (g ++ r)
      | _, _ => None
      end
  end.

Fixpoint bytes_of_bits (bs : list bool) : str :=
  match bs with
  | b7 :: b6 :: b5 :: b4 :: b3 :: b2 :: b1 :: b0 :: rest =>
      Ascii b0 b1 b2 b3 b4 b5 b6 b7 :: bytes_of_bits rest
  | _ => []
  end.

(** The decoder refuses a length that no encoding has (1, 3 or 6
    symbols modulo 8), a symbol outside the alphabet, and non-zero
    padding bits (the canonical check of the decoder). *)
Definition decode (cs : str) : option str :=
  if decide (length cs mod 8 ∈ [1; 3; 6]) then None
  else match bits_of_syms cs with
       | None => None
       | Some bits =>
           if forallb negb (drop (8 * (length bits / 8)) bits)
           then Some (bytes_of_bits bits) else None
       end.

Definition is_payload_char (c : ascii) : bool := is_upper c || is_digit c.

(** Number of zero bits that pad [n] bits to a whole number of symbols. *)
Definition pad5 (n : nat) : nat := (5 - n mod 5) mod 5.

End Base32.

(** ** The composer's convention and its inverse *)

Definition DECORATION_PRE : str := lit "X_naga_oil_mod_X".
Definition DECORATION_POST : str := lit "X".

(** naga_oil's decorated name of item [name] of module [mod_path]. *)
Definition mangle (mod_path name : str) : str :=
  name ++ DECORATION_PRE ++ Base32.encode mod_path ++ DECORATION_POST.

(** [split_last sep l]: the split of [l] around the last occurrence of
    [sep] (a greedy regex capture before [sep] finds that one). *)
Fixpoint split_last (sep l : str) : option (str * str) :=
  match l with
  | [] => None
  | c :: l' =>
      match split_last sep l' with
      | Some (a, b) => Some (c :: a, b)
      | None => if is_prefix sep l then Some ([], drop (length sep) l) else None
      end
  end.

(** The demangler's pattern on an identifier: one or more word characters
    (the name), [X_naga_oil_mod_X], upper-case letters and digits (the
    payload), then [X].  [Some (name, payload)] when it matches. *)
Definition split_mangled (s : str) : option (str * str) :=
  match split_last DECORATION_POST s with
  | Some (body, []) =>
      match split_last DECORATION_PRE body with
      | Some (name, payload) =>
          if bool_decide (name <> []) && forallb is_word_char name
             && forallb Base32.is_payload_char payload
          then Some (name, payload) else None
      | None => None
      end
  | _ => None
  end.

(** [bevy_util::demangle]: [path::name] for a decorated name, the text
    itself otherwise; [None] where the payload does not decode (the Rust
    code unwraps the decoder's result). *)
Definition demangle (s : str) : option str :=
  match split_mangled s with
  | Some (name, payload) =>
      match Base32.decode payload with
      | Some path => Some (path ++ path_sep ++ name)
      | None => None
      end
  | None => Some s
  end.

(** [bevy_util::demangle_splitting_mod_path_and_item]: the module path
    (if any) and the item name of a demangled identifier. *)
Definition demangle_splitting_mod_path_and_item (s : str) : option (option str * str) :=
  match demangle s with
  | None => None
  | Some d =>
      match rev (split_path d) with
      | item :: [] => Some (None, item)
      | item :: rest => Some (Some (join_path (rev rest)), item)
      | [] => Some (None, d)
      end
  end.

Definition underscore : ascii := "_"%char.

(** [quote_gen::constants::MOD_REFERENCE_ROOT]. *)
Definition MOD_REFERENCE_ROOT : str := lit "_root".

(** [utils.rs: demangle_and_qualify]: a demangled name that has a module
    path is qualified from the root module. *)
Definition demangle_and_qualify (s : str) : option str :=
  match demangle s with
  | None => None
  | Some demangled =>
      if contains_path_sep demangled
      then Some (MOD_REFERENCE_ROOT ++ path_sep ++ demangled)
      else Some demangled
  end.

(** [utils.rs: RustSourceItem]: an emitted item with the module it belongs
    to ([None]: the entry's own module) and its name. *)
Record RustSourceItem (T : Type) := {
  rsi_mod_path : option str;
  rsi_name : str;
  rsi_item : T
}.
Arguments rsi_mod_path {T}.
Arguments rsi_name {T}.
Arguments rsi_item {T}.

(** [RustSourceItem::from_mangled]. *)
Definition from_mangled {T} (name : str) (item : T) : option (RustSourceItem T) :=
  match demangle_splitting_mod_path_and_item name with
  | Some (mod_path, n) =>
      Some {| rsi_mod_path := mod_path; rsi_name := n; rsi_item := item |}
  | None => None
  end.

(** [utils.rs: create_shader_raw_string_literal] (15-17): the source
    text that [format!] builds and hands to
    [syn::parse_str::<TokenStream>]: [r#], a double quote, a newline, the
    shader, and the terminator [raw_terminator] (a double quote and [#]). *)
Definition dquote : ascii := "034"%char.
Definition newline : ascii := "010"%char.
Definition cr : ascii := "013"%char.
Definition raw_terminator : str := [dquote; "#"%char].

Definition raw_literal_text (shader_content : str) : str :=
  ["r"%char; "#"%char; dquote; newline] ++ shader_content ++ raw_terminator.

(** The body of a raw string with one [#], as [proc_macro2]'s lexer
    ([fallback::raw_string], outside [src/]) scans it: the literal ends
    at the first double quote followed by [#]; a carriage return must be
    followed by a line feed, otherwise the text is rejected; [None] when
    the text is rejected or has no terminator.  Returns the literal's
    contents and the text after it. *)
Fixpoint raw_string_body (l : str) : option (str * str) :=
  match l with
  | [] => None
  | c :: rest =>
      if decide (c = dquote) then
        match rest with
        | h :: rest' => if decide (h = "#"%char) then Some ([], rest')
                        else prod_map (cons c) id <$> raw_string_body rest
        | [] => None
        end
      else if decide (c = cr) then
        match rest with
        | n :: rest' => if decide (n = newline)
                        then prod_map (fun v => c :: n :: v) id <$> raw_string_body rest'
                        else None
        | [] => None
        end
      else prod_map (cons c) id <$> raw_string_body rest
  end.

(** [r#] and a double quote: the opening of the raw string, then its body. *)
Definition lex_raw_string (l : str) : option (str * str) :=
  match l with
  | r :: h :: q :: rest =>
      if decide (r = "r"%char /\ h = "#"%char /\ q = dquote) then raw_string_body rest else None
  | _ => None
  end.

(** [syn::parse_str(..).unwrap()]: a panic ([None]) when the lexer
    rejects the text; otherwise the token stream, kept as its source
    text.  When the shader contains the terminator the text after the
    literal is lexed as further Rust tokens, which is not modelled: only
    the raw string's own rejection is. *)
Definition create_shader_raw_string_literal (shader_content : str) : option str :=
  let text := raw_literal_text shader_content in
  match lex_raw_string text with
  | Some _ => Some text
  | None => None
  end.

(** A carriage return not followed by a line feed. *)
Fixpoint has_bare_cr (s : str) : bool :=
  match s with
  | [] => false
  | c :: rest => (bool_decide (c = cr) && negb (is_prefix [newline] rest)) || has_bare_cr rest
  end.

(** ** The base32 codec *)

Section Base32Facts.
Import Base32.

Lemma encode_bits_ind (P : list bool -> Prop) :
  P [] ->
  (forall b0, P [b0]) -> (forall b0 b1, P [b0; b1]) ->
  (forall b0 b1 b2, P [b0; b1; b2]) -> (forall b0 b1 b2 b3, P [b0; b1; b2; b3]) ->
  (forall b0 b1 b2 b3 b4 rest, P rest -> P (b0 :: b1 :: b2 :: b3 :: b4 :: rest)) ->
  forall bs, P bs.
Proof.
  intros H0 H1 H2 H3 H4 H5 bs.
  induction bs as [bs IH] using (well_founded_ind (well_founded_ltof _ (@length bool))).
  destruct bs as [|b0 [|b1 [|b2 [|b3 [|b4 rest]]]]]; auto.
  apply H5, IH. unfold ltof. simpl. lia.
Qed.

Lemma bits_of_sym_of_bits b0 b1 b2 b3 b4 :
  bits_of_sym (sym_of_bits [b0; b1; b2; b3; b4]) = Some [b0; b1; b2; b3; b4].
Proof. destruct b0, b1, b2, b3, b4; reflexivity. Qed.

Lemma sym_of_bits_payload b0 b1 b2 b3 b4 :
  is_payload_char (sym_of_bits [b0; b1; b2; b3; b4]) = true.
Proof. destruct b0, b1, b2, b3, b4; reflexivity. Qed.

Lemma pad5_add5 n : pad5 (S (S (S (S (S n))))) = pad5 n.
Proof. unfold pad5. replace (S (S (S (S (S n))))) with (n + 1 * 5) by lia.
  by rewrite Nat.Div0.mod_add. Qed.

Local Ltac small_bits := repeat match goal with b : bool |- _ => destruct b end; reflexivity.

Lemma bits_of_syms_encode_bits (bs : list bool) :
  bits_of_syms (encode_bits bs) = Some (bs ++ replicate (pad5 (length bs)) false).
Proof.
  induction bs using encode_bits_ind; try small_bits.
  cbn [encode_bits bits_of_syms]. rewrite bits_of_sym_of_bits, IHbs.
  cbn [length]. by rewrite pad5_add5.
Qed.

Lemma length_encode_bits (bs : list bool) :
  length (encode_bits bs) = (length bs + 4) / 5.
Proof.
  induction bs using encode_bits_ind; try reflexivity.
  cbn [encode_bits length]. rewrite IHbs.
  replace (S (S (S (S (S (length bs))))) + 4) with (length bs + 4 + 1 * 5) by lia.
  rewrite Nat.div_add by lia. by rewrite Nat.add_1_r.
Qed.

Lemma encode_bits_payload (bs : list bool) :
  forallb is_payload_char (encode_bits bs) = true.
Proof.
  induction bs using encode_bits_ind; try small_bits.
  cbn [encode_bits forallb]. by rewrite sym_of_bits_payload, IHbs.
Qed.

Lemma length_bits_of_text (s : str) : length (bits_of_text s) = 8 * length s.
Proof.
  induction s as [|[] s IH]; [done|]. unfold bits_of_text in *. simpl.
  rewrite IH. lia.
Qed.

Lemma bytes_of_bits_short (tail : list bool) : length tail < 8 -> bytes_of_bits tail = [].
Proof.
  intros H. destruct tail as [|? [|? [|? [|? [|? [|? [|? [|? ?]]]]]]]]; simpl in *; try done; lia.
Qed.

Lemma bytes_of_bits_text (s : str) (tail : list bool) :
  length tail < 8 -> bytes_of_bits (bits_of_text s ++ tail) = s.
Proof.
  intros H. induction s as [|[] s IH]; [by apply bytes_of_bits_short|].
  unfold bits_of_text in *. cbn [map concat]. simpl. by rewrite IH.
Qed.

Lemma forallb_negb_replicate k : forallb negb (replicate k false) = true.
Proof. induction k; simpl; auto. Qed.

Lemma encoded_length_valid n : ((8 * n + 4) / 5) mod 8 ∉ [1; 3; 6].
Proof. rewrite !elem_of_cons, elem_of_nil. intros [?|[?|[?|[]]]]; lia. Qed.

Lemma decode_encode (s : str) : decode (encode s) = Some s.
Proof.
  unfold decode, encode.
  rewrite length_encode_bits, length_bits_of_text, bits_of_syms_encode_bits.
  rewrite length_app, length_bits_of_text, length_replicate.
  rewrite decide_False.
  2:{ apply encoded_length_valid. }
  assert (Hp : pad5 (8 * length s) < 5) by (unfold pad5; lia).
  set (p := pad5 (8 * length s)) in *.
  assert (Hd : (8 * length s + p) / 8 = length s) by (clearbody p; lia).
  rewrite Hd, <- length_bits_of_text, drop_app_length, forallb_negb_replicate.
  f_equal. apply bytes_of_bits_text. rewrite length_replicate. lia.
Qed.

End Base32Facts.

(** ** Splitting around the last occurrence of a separator *)

Lemma contains_sub_cons (p : str) (c : ascii) (l : str) :
  contains_sub p (c :: l) = is_prefix p (c :: l) || contains_sub p l.
Proof. reflexivity. Qed.

Lemma split_last_absent (sep l : str) :
  contains_sub sep l = false -> split_last sep l = None.
Proof.
  induction l as [|c l IH]; [done|].
  rewrite contains_sub_cons. intros [H1 H2]%orb_false_iff.
  cbn [split_last]. by rewrite IH, H1.
Qed.

(** [sep] occurring once in [sep ++ e], [b ++ sep ++ e] splits into [b], [e]. *)
Lemma split_last_at (sep b e : str) :
  sep <> [] -> contains_sub sep (drop 1 (sep ++ e)) = false ->
  split_last sep (b ++ sep ++ e) = Some (b, e).
Proof.
  intros Hne Hno. induction b as [|c b IH].
  - destruct sep as [|c0 sep']; [done|]. cbn [app split_last drop] in *.
    rewrite split_last_absent by done.
    change (c0 :: sep' ++ e) with ((c0 :: sep') ++ e).
    by rewrite is_prefix_app, drop_app_length.
  - cbn [app split_last]. by rewrite IH.
Qed.

(** ** Where the decoration can occur *)

Lemma pre_needs_underscore (l : str) :
  Forall (fun c => c <> underscore) l -> is_prefix DECORATION_PRE l = false.
Proof.
  intros Hl. destruct (is_prefix DECORATION_PRE l) eqn:E; [|done].
  apply (is_prefix_elem _ _ underscore) in E; [|by vm_compute; right; left].
  by apply (proj1 (Forall_forall _ l) Hl) in E.
Qed.

Lemma pre_absent (l : str) :
  Forall (fun c => c <> underscore) l -> contains_sub DECORATION_PRE l = false.
Proof.
  induction l as [|c l IH]; intros Hl; [done|].
  rewrite contains_sub_cons, pre_needs_underscore by done.
  apply Forall_cons in Hl as [_ Hl]. by apply IH.
Qed.

Lemma pre_skip_non_x (a b : str) :
  Forall (fun c => c <> "X"%char) a ->
  contains_sub DECORATION_PRE (a ++ b) = contains_sub DECORATION_PRE b.
Proof.
  induction a as [|c a IH]; intros Ha; [done|].
  apply Forall_cons in Ha as [Hc Ha].
  cbn [app]. rewrite contains_sub_cons, IH by done.
  unfold DECORATION_PRE. simpl. by rewrite decide_False.
Qed.

Lemma payload_no_underscore (l : str) :
  forallb Base32.is_payload_char l = true -> Forall (fun c => c <> underscore) l.
Proof.
  intros H. rewrite forallb_forall in H. apply List.Forall_forall.
  intros c Hc ->. specialize (H _ Hc). by vm_compute in H.
Qed.

(** After its first character, a decoration followed by a base32 payload
    holds no other decoration. *)
Lemma pre_unique (e : str) :
  forallb Base32.is_payload_char e = true ->
  contains_sub DECORATION_PRE (drop 1 (DECORATION_PRE ++ e)) = false.
Proof.
  intros He.
  change (drop 1 (DECORATION_PRE ++ e)) with (lit "_naga_oil_mod_" ++ ("X"%char :: e)).
  rewrite pre_skip_non_x by (vm_compute; repeat constructor; discriminate).
  apply pre_absent. constructor; [discriminate|]. by apply payload_no_underscore.
Qed.

Lemma split_mangled_mangle (mod_path name : str) :
  name <> [] -> forallb is_word_char name = true ->
  split_mangled (mangle mod_path name) = Some (name, Base32.encode mod_path).
Proof.
  intros Hne Hw. unfold split_mangled, mangle.
  set (enc := Base32.encode mod_path).
  replace (name ++ DECORATION_PRE ++ enc ++ DECORATION_POST)
    with ((name ++ DECORATION_PRE ++ enc) ++ DECORATION_POST ++ [])
    by (by rewrite app_nil_r, <- !app_assoc).
  rewrite split_last_at by done.
  rewrite split_last_at by (done || apply pre_unique, encode_bits_payload).
  unfold enc, Base32.encode.
  by rewrite bool_decide_true, Hw, encode_bits_payload.
Qed.

Lemma split_last_spec (sep l a b : str) :
  split_last sep l = Some (a, b) -> l = a ++ sep ++ b.
Proof.
  revert a b. induction l as [|c l IH]; intros a b; [done|]. cbn [split_last].
  destruct (split_last sep l) as [[a' b']|] eqn:E.
  - intros [= <- <-]. by rewrite (IH a' b').
  - destruct (is_prefix sep (c :: l)) eqn:Hp; [|done]. intros [= <- <-].
    apply is_prefix_spec in Hp as [r Hr]. rewrite Hr, drop_app_length. done.
Qed.

(** A name in which the decoration does not occur is not a decorated name. *)
Lemma split_mangled_plain (s : str) :
  contains_sub DECORATION_PRE s = false -> split_mangled s = None.
Proof.
  intros Hs. unfold split_mangled.
  destruct (split_last DECORATION_POST s) as [[body [|]]|] eqn:E; try done.
  apply split_last_spec in E. subst s.
  by rewrite split_last_absent by (by eapply contains_sub_app_l).
Qed.

Lemma word_segments_no_colon (segs : list str) :
  Forall (fun seg => forallb is_word_char seg = true) segs ->
  Forall (Forall (fun c => c <> colon)) segs.
Proof. intros H. eapply Forall_impl; [exact H|]. auto with bindgen. Qed.

(** ** Demangling inverts mangling *)

(** demangling a decorated name recovers [path::name] exactly: the
    demangler is a left inverse of the composer's mangling, for every
    module path and every non-empty identifier. *)
Theorem demangle_mangle (mod_path name : str) :
  name <> [] -> forallb is_word_char name = true ->
  demangle (mangle mod_path name) = Some (mod_path ++ path_sep ++ name).
Proof.
  intros Hne Hw. unfold demangle.
  by rewrite split_mangled_mangle, decode_encode.
Qed.

(** a name that carries no decoration demangles to itself. *)
Theorem demangle_plain (s : str) :
  contains_sub DECORATION_PRE s = false -> demangle s = Some s.
Proof. intros Hs. unfold demangle. by rewrite split_mangled_plain. Qed.

(** splitting a demangled name gives back the module path [P] and the
    item name [B] that were mangled, for a module path made of identifier
    segments joined by [::]. *)
Theorem demangle_splitting_mangle (segs : list str) (name : str) :
  segs <> [] -> Forall (fun seg => forallb is_word_char seg = true) segs ->
  name <> [] -> forallb is_word_char name = true ->
  demangle_splitting_mod_path_and_item (mangle (join_path segs) name)
  = Some (Some (join_path segs), name).
Proof.
  intros Hsegs Hw Hne Hn. unfold demangle_splitting_mod_path_and_item.
  rewrite demangle_mangle, <- join_path_snoc by done.
  rewrite split_join_path.
  2:{ by destruct segs. }
  2:{ apply Forall_app. split; [by apply word_segments_no_colon|].
      constructor; [|constructor]. auto with bindgen. }
  rewrite rev_unit. destruct (rev segs) as [|s0 r] eqn:E.
  - apply (f_equal (@rev str)) in E. rewrite rev_involutive in E. by subst.
  - by rewrite <- E, rev_involutive.
Qed.

(** C13: [demangle_and_qualify] turns a decorated name into the path of the
    item from the root module, [_root::path::name]. *)
Theorem demangle_and_qualify_mangle (mod_path name : str) :
  name <> [] -> forallb is_word_char name = true ->
  demangle_and_qualify (mangle mod_path name)
  = Some (MOD_REFERENCE_ROOT ++ path_sep ++ mod_path ++ path_sep ++ name).
Proof.
  intros Hne Hw. unfold demangle_and_qualify.
  by rewrite demangle_mangle, contains_path_sep_app.
Qed.

(** [demangle_and_qualify] leaves a plain name (no decoration, no
    [::]) as it is. *)
Theorem demangle_and_qualify_plain (s : str) :
  contains_sub DECORATION_PRE s = false -> contains_path_sep s = false ->
  demangle_and_qualify s = Some s.
Proof.
  intros Hs Hp. unfold demangle_and_qualify. by rewrite demangle_plain, Hp.
Qed.

(** C14: [RustSourceItem::from_mangled] files a decorated item under the
    module it came from, with its plain name. *)
Theorem from_mangled_mangle {T} (segs : list str) (name : str) (item : T) :
  segs <> [] -> Forall (fun seg => forallb is_word_char seg = true) segs ->
  name <> [] -> forallb is_word_char name = true ->
  from_mangled (mangle (join_path segs) name) item
  = Some {| rsi_mod_path := Some (join_path segs); rsi_name := name; rsi_item := item |}.
Proof.
  intros. unfold from_mangled. by rewrite demangle_splitting_mangle.
Qed.

(** ** Witnesses: the two tests of [utils.rs] *)

Lemma demangle_and_qualify_mangle_witness :
  mangle (lit "types") (lit "Uniforms") = lit "UniformsX_naga_oil_mod_XOR4XAZLTX" /\
  demangle_and_qualify (mangle (lit "types") (lit "Uniforms")) = Some (lit "_root::types::Uniforms").
Proof.
  split; [reflexivity|].
  rewrite (demangle_and_qualify_mangle (lit "types") (lit "Uniforms")); [reflexivity|discriminate|reflexivity].
Defined.

Lemma demangle_and_qualify_plain_witness :
  demangle_and_qualify (lit "MatricesF64") = Some (lit "MatricesF64").
Proof. apply demangle_and_qualify_plain; vm_compute; reflexivity. Defined.

Lemma demangle_mangle_witness :
  demangle (mangle (lit "types") (lit "Uniforms")) = Some (lit "types::Uniforms").
Proof. apply (demangle_mangle (lit "types") (lit "Uniforms")); [discriminate|reflexivity]. Defined.

Lemma demangle_plain_witness : demangle (lit "MatricesF64") = Some (lit "MatricesF64").
Proof. apply demangle_plain. vm_compute. reflexivity. Defined.

Lemma demangle_splitting_mangle_witness :
  demangle_splitting_mod_path_and_item (mangle (join_path [lit "bevy_pbr"; lit "mesh"]) (lit "Mesh"))
  = Some (Some (lit "bevy_pbr::mesh"), lit "Mesh").
Proof.
  apply (demangle_splitting_mangle [lit "bevy_pbr"; lit "mesh"] (lit "Mesh"));
    [discriminate | repeat constructor | discriminate | reflexivity].
Defined.

Lemma from_mangled_mangle_witness :
  from_mangled (mangle (join_path [lit "types"]) (lit "Uniforms")) tt
  = Some {| rsi_mod_path := Some (lit "types"); rsi_name := lit "Uniforms"; rsi_item := tt |}.
Proof.
  apply (from_mangled_mangle [lit "types"] (lit "Uniforms") tt);
    [discriminate | repeat constructor | discriminate | reflexivity].
Defined.

(** [RustSourceItem::from_mangled] files a plain item (no decoration,
    no [::]) at the entry's own module ([mod_path = None]) under its own
    name. *)
Theorem from_mangled_plain {T} (s : str) (item : T) :
  contains_sub DECORATION_PRE s = false -> Forall (fun c => c <> colon) s ->
  from_mangled s item = Some {| rsi_mod_path := None; rsi_name := s; rsi_item := item |}.
Proof.
  intros Hs Hc. unfold from_mangled, demangle_splitting_mod_path_and_item.
  by rewrite demangle_plain, split_path_no_colon.
Qed.

Lemma from_mangled_plain_witness :
  from_mangled (lit "MatricesF64") tt
  = Some {| rsi_mod_path := None; rsi_name := lit "MatricesF64"; rsi_item := tt |}.
Proof. apply from_mangled_plain; [vm_compute; reflexivity | repeat constructor; discriminate]. Defined.

(** ** The embedded shader literal *)

(** The body of the literal of a shader text without the terminator:
    rejected exactly when the text has a bare carriage return, otherwise
    the whole text up to the terminator. *)
Lemma raw_string_body_shader (s : str) :
  contains_sub raw_terminator s = false ->
  raw_string_body (s ++ raw_terminator) = if has_bare_cr s then None else Some (s, []).
Proof.
  induction s as [s IH] using (well_founded_ind (well_founded_ltof _ (@length ascii))).
  destruct s as [|c rest]; [reflexivity|]. intros Hs.
  cbn [contains_sub] in Hs. apply orb_false_iff in Hs as [Hp Hs].
  assert (IHr : raw_string_body (rest ++ raw_terminator) = if has_bare_cr rest then None else Some (rest, []))
    by (apply IH; [unfold ltof; cbn; lia|done]).
  cbn [app raw_string_body has_bare_cr].
  destruct (decide (c = dquote)) as [->|Hq].
  - rewrite bool_decide_false by done. cbn [andb orb].
    destruct rest as [|h rest]; [reflexivity|]. cbn [app] in IHr |- *.
    cbn [is_prefix raw_terminator] in Hp. rewrite decide_True in Hp by done.
    destruct (decide ("#"%char = h)) as [<-|]; [cbn in Hp; done|].
    rewrite decide_False by congruence. rewrite IHr. by destruct (has_bare_cr _).
  - destruct (decide (c = cr)) as [->|Hc].
    + rewrite bool_decide_true by done. cbn [andb].
      destruct rest as [|n rest]; [reflexivity|]. cbn [app is_prefix].
      destruct (decide (n = newline)) as [->|Hn].
      * rewrite decide_True by done. cbn [negb orb has_bare_cr].
        rewrite bool_decide_false by done. cbn [andb orb].
        cbn [contains_sub] in Hs. apply orb_false_iff in Hs as [_ Hs].
        rewrite (IH rest) by (unfold ltof; cbn; lia || done). by destruct (has_bare_cr rest).
      * by rewrite decide_False by congruence.
    + rewrite bool_decide_false by done. cbn [andb orb]. rewrite IHr. by destruct (has_bare_cr _).
Qed.

(** C15: for a shader text without the terminator, [parse_str(..)
    .unwrap()] on the literal [create_shader_raw_string_literal] builds
    panics exactly when the text has a carriage return not followed by a
    line feed; otherwise the text lexes as one raw string whose contents
    are a newline followed by the shader text. *)
Theorem create_shader_raw_string_literal_lexes (s : str) :
  contains_sub raw_terminator s = false ->
  (has_bare_cr s = false ->
     create_shader_raw_string_literal s = Some (raw_literal_text s) /\
     lex_raw_string (raw_literal_text s) = Some (newline :: s, [])) /\
  (has_bare_cr s = true -> create_shader_raw_string_literal s = None).
Proof.
  intros Hs. unfold create_shader_raw_string_literal, raw_literal_text. cbn [app lex_raw_string].
  rewrite decide_True by done. cbn [raw_string_body]. rewrite decide_False by done.
  rewrite decide_False by done. rewrite raw_string_body_shader by done.
  split; intros ->; done.
Qed.

Lemma create_shader_raw_string_literal_lexes_witness :
  (create_shader_raw_string_literal (lit "@fragment fn fs_main() {}") =
     Some (raw_literal_text (lit "@fragment fn fs_main() {}")) /\
   lex_raw_string (raw_literal_text (lit "@fragment fn fs_main() {}"))
   = Some (newline :: lit "@fragment fn fs_main() {}", [])) /\
  create_shader_raw_string_literal (lit "fn f() {}" ++ [cr]) = None.
Proof.
  split.
  - apply create_shader_raw_string_literal_lexes; vm_compute; reflexivity.
  - apply create_shader_raw_string_literal_lexes; vm_compute; reflexivity.
Defined.

(** A shader text containing the terminator (for instance in a comment) ends the
    literal early: the rest of the shader is left as Rust tokens. *)
Example create_shader_raw_string_literal_terminator :
  lex_raw_string (raw_literal_text (lit "a" ++ raw_terminator ++ lit "b"))
  = Some (newline :: lit "a", lit "b" ++ raw_terminator).
Proof. vm_compute. reflexivity. Qed.
