(* ===== verification/Naga.v ===== *)
(** * Naga: the shader IR consumed by the generator

    The parsed shader module ([naga::Module]) is an external collaborator
    (spec section 6): types in an arena, global variables with their
    [@group]/[@binding] attributes, entry points with their stage,
    workgroup size and arguments.  Arena handles are indices into the
    [types] list.  Unsigned 32-bit quantities ([u32] group, binding and
    location numbers, workgroup sizes) are natural numbers here: the code
    only compares and prints them, it never does arithmetic that could
    wrap. *)

From S2P Require Import Prelude.

Module Naga.

Inductive ShaderStage := Vertex | Fragment | Compute.

Inductive StorageAccess := Load | LoadStore.

Inductive AddressSpace :=
| Function | Private | WorkGroup | Uniform
| Storage (access : StorageAccess) | Handle | PushConstant.

Inductive ScalarKind := Sint | Uint | Float | Bool.

Record Scalar := { kind : ScalarKind; width : nat }.

Inductive VectorSize := Bi | Tri | Quad.

Definition vector_size_n (v : VectorSize) : nat :=
  match v with Bi => 2 | Tri => 3 | Quad => 4 end.

(** Argument and struct-member bindings: builtins or [@location(n)]. *)
Inductive Binding :=
| BuiltIn (name : str)
| Location (location : nat).

Record StructMember := {
  m_name : option str;
  m_ty : nat;
  m_binding : option Binding;
  m_offset : nat
}.

Inductive TypeInner :=
| TScalar (s : Scalar)
| TVector (size : VectorSize) (s : Scalar)
| TMatrix (columns rows : VectorSize) (s : Scalar)
| TAtomic (s : Scalar)
| TArray (base : nat) (size : option nat) (stride : nat)
| TStruct (members : list StructMember) (span : nat)
| TImage
| TSampler (comparison : bool).

Record Type_ := { ty_name : option str; ty_inner : TypeInner }.

(** [@group(g) @binding(b)]. *)
Record ResourceBinding := { group : nat; binding : nat }.

Record GlobalVariable := {
  gv_name : option str;
  gv_space : AddressSpace;
  gv_binding : option ResourceBinding;
  gv_ty : nat
}.

Record FunctionArgument := {
  arg_name : option str;
  arg_ty : nat;
  arg_binding : option Binding
}.

Record EntryPoint := {
  ep_name : str;
  ep_stage : ShaderStage;
  ep_workgroup_size : nat * nat * nat;
  ep_arguments : list FunctionArgument
}.

Record Module := {
  types : list Type_;
  global_variables : list GlobalVariable;
  entry_points : list EntryPoint
}.

#[export] Instance ShaderStage_eq_dec : EqDecision ShaderStage.
Proof. solve_decision. Defined.

#[export] Instance ScalarKind_eq_dec : EqDecision ScalarKind.
Proof. solve_decision. Defined.

#[export] Instance VectorSize_eq_dec : EqDecision VectorSize.
Proof. solve_decision. Defined.

End Naga.
