(* ===== verification/Layout.v ===== *)
(** * Layout: GPU memory layout of host-shareable shader types

    The struct builder (spec 4.2) checks host records against the layout
    the GPU mandates for buffer contents.  That layout is the one of the
    WGSL specification (outside [src/]): a scalar of [w] bytes has size
    and alignment [w]; [vecN<T>] has size [N*w] and alignment [2w] for
    [N = 2], [4w] for [N = 3, 4]; a matrix is an array of column vectors;
    [array<E, N>] has stride [roundUp(align E, size E)]; a struct places
    its members in order, each at the first offset aligned for it, and
    rounds its size up to its alignment, the largest of its members'.

    Types live in naga's arena ([Naga.types]) and refer to earlier
    handles; [gpu_layout] recurses through the arena with fuel and
    [type_layout] gives it the arena's length, which is enough
    ([type_layout_fuel]).  As naga's [Layouter] does, a boolean has its
    one-byte width as size and alignment, and a runtime-sized array is
    laid out as if it had one element (it has at least one); images and
    samplers have no layout: [None].

    [place] is the placement rule shared with the host side ([repr(C)]
    structs in [StructBuilder]). *)

From S2P Require Import Prelude Naga.

Module Layout.
Import Naga.

(** [roundUp(k, n)]: the least multiple of [k] that is at least [n]. *)
Definition round_up (k n : nat) : nat := (n + (k - 1)) / k * k.

Record GpuLayout := { gsize : nat; galign : nat }.

(** The scalar widths naga accepts: booleans have naga's [BOOL_WIDTH]
    of one byte, numbers 2, 4 or 8 bytes. *)
Definition scalar_widths (k : ScalarKind) : list nat :=
  match k with Bool => [1] | _ => [2; 4; 8] end.

Definition scalar_layout (s : Scalar) : option GpuLayout :=
  if bool_decide (width s ∈ scalar_widths (kind s)) then Some {| gsize := width s; galign := width s |}
  else None.

Definition vector_layout (n : VectorSize) (s : Scalar) : option GpuLayout :=
  sl ← scalar_layout s;
  Some {| gsize := vector_size_n n * gsize sl;
          galign := (match n with Bi => 2 | _ => 4 end) * galign sl |}.

Definition matrix_layout (c r : VectorSize) (s : Scalar) : option GpuLayout :=
  col ← vector_layout r s;
  Some {| gsize := vector_size_n c * round_up (galign col) (gsize col); galign := galign col |}.

Definition array_stride (el : GpuLayout) : nat := round_up (galign el) (gsize el).

Definition array_layout (el : GpuLayout) (n : nat) : GpuLayout :=
  {| gsize := n * array_stride el; galign := galign el |}.

(** Sequential placement: each element at the first offset at or after
    the end of the previous one that is a multiple of its alignment.
    Returns the offsets and the end of the last element. *)
Section Place.
Context {A : Type} (align size : A -> nat).

Fixpoint place (cur : nat) (xs : list A) : list nat * nat :=
  match xs with
  | [] => ([], cur)
  | x :: xs =>
      let off := round_up (align x) cur in
      let r := place (off + size x) xs in
      (off :: r.1, r.2)
  end.
End Place.

Definition struct_align (ms : list GpuLayout) : nat := foldr Nat.max 1 (map galign ms).

Definition struct_offsets (ms : list GpuLayout) : list nat := (place galign gsize 0 ms).1.

Definition struct_layout (ms : list GpuLayout) : GpuLayout :=
  {| gsize := round_up (struct_align ms) (place galign gsize 0 ms).2;
     galign := struct_align ms |}.

(** The layout of the type at handle [h] of the arena [tys]. *)
Fixpoint gpu_layout (fuel : nat) (tys : list Type_) (h : nat) : option GpuLayout :=
  match fuel with
  | 0 => None
  | S fuel =>
      ty ← tys !! h;
      match ty_inner ty with
      | TScalar s | TAtomic s => scalar_layout s
      | TVector n s => vector_layout n s
      | TMatrix c r s => matrix_layout c r s
      | TArray base (Some n) _ => el ← gpu_layout fuel tys base; Some (array_layout el n)
      | TArray base None _ => el ← gpu_layout fuel tys base; Some (array_layout el 1)
      | TStruct members _ =>
          ls ← mapM (fun m => gpu_layout fuel tys (m_ty m)) members; Some (struct_layout ls)
      | _ => None
      end
  end.

Definition type_layout (tys : list Type_) (h : nat) : option GpuLayout :=
  gpu_layout (length tys) tys h.

(** The handles a type refers to. *)
Definition type_refs (ti : TypeInner) : list nat :=
  match ti with
  | TArray base _ _ => [base]
  | TStruct ms _ => map m_ty ms
  | _ => []
  end.

(** naga's arena invariant: a type only refers to earlier handles. *)
Definition arena_wf (tys : list Type_) : Prop :=
  forall h ty, tys !! h = Some ty -> Forall (fun r => r < h) (type_refs (ty_inner ty)).

(** ** Rounding *)

Lemma round_up_spec k n :
  0 < k -> n <= round_up k n /\ round_up k n < n + k /\ Nat.divide k (round_up k n).
Proof.
  intros Hk. unfold round_up.
  pose proof (Nat.div_mod (n + (k - 1)) k ltac:(lia)) as Hd.
  pose proof (Nat.mod_upper_bound (n + (k - 1)) k ltac:(lia)) as Hm.
  split_and!; [nia|nia|]. by eexists.
Qed.

Lemma round_up_divide k n : 0 < k -> Nat.divide k n -> round_up k n = n.
Proof.
  intros Hk [z ->]. unfold round_up.
  rewrite Nat.div_add_l by lia. rewrite (Nat.div_small (k - 1) k) by lia. lia.
Qed.

Lemma round_up_1 n : round_up 1 n = n.
Proof. apply round_up_divide; [lia|apply Nat.divide_1_l]. Qed.

Lemma round_up_mono k n m : 0 < k -> n <= m -> round_up k n <= round_up k m.
Proof.
  intros Hk Hnm. unfold round_up. apply Nat.mul_le_mono_r, Nat.Div0.div_le_mono; lia.
Qed.

(** ** Placement *)

Section PlaceLemmas.
Context {A : Type} (align size : A -> nat).

Lemma place_length cur xs : length (place align size cur xs).1 = length xs.
Proof. induction xs in cur |- *; cbn; auto. Qed.

Lemma place_cons cur x xs :
  place align size cur (x :: xs) =
    (round_up (align x) cur :: (place align size (round_up (align x) cur + size x) xs).1,
     (place align size (round_up (align x) cur + size x) xs).2).
Proof. reflexivity. Qed.

Lemma place_end cur xs : Forall (fun x => 0 < align x) xs -> cur <= (place align size cur xs).2.
Proof.
  induction xs as [|x xs IH] in cur |- *; cbn; [lia|]. intros [Hx Hxs]%Forall_cons.
  pose proof (round_up_spec (align x) cur Hx). specialize (IH (round_up (align x) cur + size x) Hxs).
  lia.
Qed.

(** Every element is aligned, after the start and before the end. *)
Lemma place_sound cur xs i x off :
  Forall (fun x => 0 < align x) xs ->
  xs !! i = Some x -> (place align size cur xs).1 !! i = Some off ->
  Nat.divide (align x) off /\ cur <= off /\ off + size x <= (place align size cur xs).2.
Proof.
  induction xs as [|y xs IH] in cur, i |- *; intros Hpos; [done|].
  apply Forall_cons in Hpos as [Hy Hpos]. pose proof (round_up_spec (align y) cur Hy).
  destruct i as [|i]; cbn.
  - intros [= <-] [= <-]. pose proof (place_end (round_up (align y) cur + size y) xs Hpos). split_and!; [tauto|lia|lia].
  - intros Hx Hoff. destruct (IH _ _ Hpos Hx Hoff) as (? & ? & ?). split_and!; [done|lia|done].
Qed.

(** Elements do not overlap: each ends before the next ones start. *)
Lemma place_disjoint cur xs i j x oi oj :
  Forall (fun x => 0 < align x) xs -> i < j ->
  xs !! i = Some x -> (place align size cur xs).1 !! i = Some oi ->
  (place align size cur xs).1 !! j = Some oj -> oi + size x <= oj.
Proof.
  induction xs as [|y xs IH] in cur, i, j |- *; intros Hpos Hij; [done|].
  apply Forall_cons in Hpos as [Hy Hpos']. destruct i as [|i], j as [|j]; cbn; try lia.
  - intros [= <-] [= <-] Hoj.
    destruct (lookup_lt_is_Some_2 xs j) as [z Hz].
    { rewrite <-(place_length (round_up (align y) cur + size y)). by apply lookup_lt_Some in Hoj. }
    destruct (place_sound _ xs j z oj Hpos' Hz Hoj). lia.
  - intros Hx Hoi Hoj. exact (IH _ i j Hpos' ltac:(lia) Hx Hoi Hoj).
Qed.
End PlaceLemmas.

Lemma struct_align_pos ms : 0 < struct_align ms.
Proof. unfold struct_align. induction ms; cbn; lia. Qed.

Lemma struct_align_member ms m : m ∈ ms -> galign m <= struct_align ms.
Proof.
  unfold struct_align. induction ms as [|m' ms IH]; [set_solver|].
  rewrite elem_of_cons. intros [->|Hm]; cbn; [lia|]. specialize (IH Hm). lia.
Qed.

(** A congruence for [mapM]: equal results on the elements give equal
    results on the list. *)
Lemma mapM_ext_elem {A B} (f g : A -> option B) (l : list A) :
  (forall x, x ∈ l -> f x = g x) -> mapM f l = mapM g l.
Proof.
  induction l as [|x l IH]; intros Hfg; [done|]. cbn.
  rewrite (Hfg x) by set_solver. rewrite IH by set_solver. done.
Qed.

Lemma gpu_layout_fuel_stable tys :
  arena_wf tys -> forall f1 f2 h, h < f1 -> h < f2 -> gpu_layout f1 tys h = gpu_layout f2 tys h.
Proof.
  intros Hwf f1. induction f1 as [|f1 IH]; intros [|f2] h H1 H2; try lia. cbn.
  destruct (tys !! h) as [ty|] eqn:Hh; [|done]. cbn.
  pose proof (Hwf h ty Hh) as Hr. destruct (ty_inner ty) as [| | | |base sz stride|ms span| |];
    cbn in Hr; try done.
  - apply Forall_inv in Hr. cbn in Hr. rewrite (IH f2 base); [done|lia|lia].
  - rewrite (mapM_ext_elem _ (fun m => gpu_layout f2 tys (m_ty m))); [done|].
    intros m Hm. rewrite Forall_map, Forall_forall in Hr. specialize (Hr m Hm). cbn in Hr.
    apply IH; lia.
Qed.

Lemma scalar_layout_spec s l :
  scalar_layout s = Some l -> l = {| gsize := width s; galign := width s |} /\ width s ∈ scalar_widths (kind s).
Proof. unfold scalar_layout. case_bool_decide; by intros; simplify_eq. Qed.

Lemma scalar_widths_pow2 k w : w ∈ scalar_widths k -> exists i, w = 2 ^ i.
Proof.
  destruct k; cbn; intros Hw;
    repeat (apply elem_of_cons in Hw as [->|Hw]; [first [by exists 0 | by exists 1 | by exists 2 | by exists 3]|]);
    set_solver.
Qed.

Lemma scalar_layout_pos s l : scalar_layout s = Some l -> 0 < galign l.
Proof.
  intros [-> [i Hi]%scalar_widths_pow2]%scalar_layout_spec. cbn. rewrite Hi.
  apply Nat.neq_0_lt_0, Nat.pow_nonzero. lia.
Qed.

Lemma vector_layout_pos n s l : vector_layout n s = Some l -> 0 < galign l.
Proof.
  unfold vector_layout. destruct (scalar_layout s) as [sl|] eqn:E; [|done]. intros [= <-].
  apply scalar_layout_pos in E. destruct n; cbn; lia.
Qed.

(** Every computed layout has a positive alignment. *)
Lemma gpu_layout_align_pos fuel tys h l : gpu_layout fuel tys h = Some l -> 0 < galign l.
Proof.
  induction fuel as [|fuel IH] in h, l |- *; [done|]. cbn.
  destruct (tys !! h) as [ty|]; [|done]. cbn.
  destruct (ty_inner ty) as [s|n s|c r s|s|base [n|] stride|ms span| |]; try done.
  - apply scalar_layout_pos.
  - apply vector_layout_pos.
  - unfold matrix_layout. destruct (vector_layout r s) eqn:E; [|done]. intros [= <-].
    by apply vector_layout_pos in E.
  - apply scalar_layout_pos.
  - destruct (gpu_layout fuel tys base) eqn:E; [|done]. intros [= <-]. by apply IH in E.
  - destruct (gpu_layout fuel tys base) eqn:E; [|done]. intros [= <-]. by apply IH in E.
  - destruct (mapM _ ms); [|done]. intros [= <-]. apply struct_align_pos.
Qed.

(** ** Theorems *)

(** the fuel the arena's length gives [type_layout] is enough: in a
    well-formed arena any larger fuel computes the same layout, so
    [type_layout] is the layout of the type, never cut short. *)
Theorem type_layout_fuel tys h fuel :
  arena_wf tys -> length tys <= fuel -> gpu_layout fuel tys h = type_layout tys h.
Proof.
  intros Hwf Hf. unfold type_layout.
  destruct (decide (h < length tys)) as [Hh|Hh].
  - apply gpu_layout_fuel_stable; [done|lia|lia].
  - destruct fuel as [|fuel], (length tys) as [|n] eqn:El; cbn; try done; try lia.
    all: by rewrite (lookup_ge_None_2 tys h) by lia.
Qed.

(** in a struct laid out by the WGSL rules every member's offset is a
    multiple of its alignment, members do not overlap, every member ends
    within the struct, and the struct's size is a multiple of its
    alignment, so the members of consecutive array elements stay
    aligned. *)
Theorem struct_layout_sound ms i j m off off' :
  Forall (fun m => 0 < galign m) ms ->
  ms !! i = Some m -> struct_offsets ms !! i = Some off ->
  Nat.divide (galign m) off /\ off + gsize m <= gsize (struct_layout ms) /\
  (i < j -> struct_offsets ms !! j = Some off' -> off + gsize m <= off') /\
  Nat.divide (galign (struct_layout ms)) (gsize (struct_layout ms)).
Proof.
  intros Hpos Hm Hoff. unfold struct_offsets in *.
  destruct (place_sound galign gsize 0 ms i m off Hpos Hm Hoff) as (Hd & _ & Hend).
  pose proof (round_up_spec (struct_align ms) (place galign gsize 0 ms).2 (struct_align_pos ms)).
  split_and!; cbn; [done|lia| |tauto].
  intros Hij Hoff'. exact (place_disjoint galign gsize 0 ms i j m off off' Hpos Hij Hm Hoff Hoff').
Qed.

(** The vertex input of spec section 8: [f32], [vec2<f32>], [vec3<f32>]
    and [vec4<f32>] at locations 0..3 get strictly increasing offsets. *)
Example struct_offsets_vertex_example :
  let f32 := {| kind := Float; width := 4 |} in
  (ls ← mapM id [scalar_layout f32; vector_layout Bi f32; vector_layout Tri f32;
                  vector_layout Quad f32];
   Some (struct_offsets ls, gsize (struct_layout ls))) = Some ([0; 8; 16; 32], 48).
Proof. reflexivity. Qed.

(** ** Witnesses *)

(** [struct S { a: f32, b: vec3<f32> }] and [array<S, 2>], after their
    element types, with the offsets and span naga gives them. *)
Definition example_struct_S : Type_ :=
  {| ty_name := Some (lit "S");
     ty_inner := TStruct [{| m_name := Some (lit "a"); m_ty := 0; m_binding := None; m_offset := 0 |};
                          {| m_name := Some (lit "b"); m_ty := 1; m_binding := None; m_offset := 16 |}]
                         32 |}.

Definition example_arena : list Type_ :=
  let f32 := {| kind := Float; width := 4 |} in
  [{| ty_name := None; ty_inner := TScalar f32 |};
   {| ty_name := None; ty_inner := TVector Tri f32 |};
   example_struct_S;
   {| ty_name := None; ty_inner := TArray 2 (Some 2) 32 |}].

Lemma example_arena_wf : arena_wf example_arena.
Proof.
  intros h ty Hh. do 4 (destruct h as [|h]; [injection Hh as <-; cbn; repeat constructor; lia|]).
  done.
Qed.

Lemma type_layout_fuel_witness :
  arena_wf example_arena /\ gpu_layout 10 example_arena 3 = type_layout example_arena 3.
Proof.
  split; [apply example_arena_wf|].
  apply type_layout_fuel; [apply example_arena_wf|cbn; lia].
Defined.

Lemma struct_layout_sound_witness :
  let ls := [{| gsize := 4; galign := 4 |}; {| gsize := 12; galign := 16 |}] in
  Nat.divide 16 16 /\ 16 + 12 <= gsize (struct_layout ls) /\
  (1 < 2 -> struct_offsets ls !! 2 = Some 40 -> 16 + 12 <= 40) /\
  Nat.divide (galign (struct_layout ls)) (gsize (struct_layout ls)).
Proof.
  apply (struct_layout_sound _ 1 2 {| gsize := 12; galign := 16 |} 16 40);
    [repeat constructor; cbn; lia|reflexivity|reflexivity].
Defined.

End Layout.
