(* ===== verification/StructBuilder.v ===== *)
(** * StructBuilder: the type mapper and the layout-checked struct builder

    [structs.rs], [types.rs] and the type maps are outside [src/]; they
    are modelled from spec 4.1 and 4.2.  [lib.rs] contributes the
    serialization strategy ([WgslTypeSerializeStrategy], 75-80): [Bytemuck]
    is the DirectReinterpret strategy, [Encase] (the default) the
    RuntimeEncoded one.

    - The type mapper [host_type] maps a shader type of the arena to a
      host (Rust) type: built-in scalars ([bool] included), vectors as
      arrays of their scalar, matrices as arrays of (padded) columns,
      fixed-size arrays, runtime-sized arrays as a flagged
      [HRuntimeArray] (only valid as the last field of a storage-bound
      struct), structs by name; a project's custom map ([TypeMap]) overrides
      vectors and matrices and is validated first ([validate_type_map]):
      a size or alignment mismatch is a configuration error.
    - DirectReinterpret ([build_direct]): the host record gets the
      members at naga's offsets, with explicit [u8] padding fields
      between them and at the end, under [repr(C, align(A))]; any member
      that cannot be placed there is a [LayoutConflict].
    - RuntimeEncoded ([encode_plan]): each member is written at naga's
      offset with its GPU size into a buffer of the struct's span.

    The host layout of a record is Rust's [repr(C)] rule, which is the
    same sequential placement as WGSL's ([Layout.place]). *)

From S2P Require Import Prelude Naga Layout.

Module StructBuilder.
Import Naga Layout.

(** [WgslTypeSerializeStrategy] (lib.rs 75-80), [#[default] Encase]. *)
Inductive WgslTypeSerializeStrategy := Encase | Bytemuck.

Definition default_serialize_strategy : WgslTypeSerializeStrategy := Encase.

(** The errors of spec 7 raised here, and the configuration error of a
    custom map entry whose size or alignment does not fit. *)
Inductive LayoutError :=
| UnsupportedType (ty : nat)
| LayoutConflict (name : str)
| TypeMapMismatch (key_index : nat).

(** A host type: a primitive, an array, a runtime-sized array (flagged:
    only valid as the last field of a storage-bound struct, which WGSL
    validation guarantees), a generated struct, or padding ([[u8; n]]). *)
Inductive HostType :=
| HPrim (name : str) (size align : nat)
| HArray (elem : HostType) (n : nat)
| HRuntimeArray (elem : HostType)
| HStruct (name : str) (size align : nat)
| HPad (n : nat).

Fixpoint host_size (t : HostType) : nat :=
  match t with
  | HPrim _ s _ | HStruct _ s _ => s
  | HArray e n => n * host_size e
  | HRuntimeArray e => host_size e   (* counted as one element, as naga does *)
  | HPad n => n
  end.

Fixpoint host_align (t : HostType) : nat :=
  match t with
  | HPrim _ _ a | HStruct _ _ a => a
  | HArray e _ | HRuntimeArray e => host_align e
  | HPad _ => 1
  end.

(** ** The type mapper *)

(** The shader types a project may map to its own host types. *)
Inductive MapKey :=
| KVector (n : VectorSize) (k : ScalarKind) (w : nat)
| KMatrix (c r : VectorSize) (k : ScalarKind) (w : nat).

#[export] Instance MapKey_eq_dec : EqDecision MapKey.
Proof. solve_decision. Defined.

Definition TypeMap := list (MapKey * HostType).

Definition key_layout (k : MapKey) : option GpuLayout :=
  match k with
  | KVector n kd w => vector_layout n {| kind := kd; width := w |}
  | KMatrix c r kd w => matrix_layout c r {| kind := kd; width := w |}
  end.

(** An override fits when it has the GPU size and an alignment that
    divides the GPU alignment. *)
Definition override_fits (k : MapKey) (t : HostType) : bool :=
  match key_layout k with
  | Some l => (host_size t =? gsize l) && (0 <? host_align t) && (galign l mod host_align t =? 0)
  | None => false
  end.

Fixpoint validate_from (i : nat) (tm : TypeMap) : result unit LayoutError :=
  match tm with
  | [] => Ok tt
  | (k, t) :: rest => if override_fits k t then validate_from (S i) rest else Err (TypeMapMismatch i)
  end.

Definition validate_type_map (tm : TypeMap) : result unit LayoutError := validate_from 0 tm.

Fixpoint lookup_override (tm : TypeMap) (k : MapKey) : option HostType :=
  match tm with
  | [] => None
  | (k', t) :: rest => if decide (k = k') then Some t else lookup_override rest k
  end.

Definition scalar_host (s : Scalar) : option HostType :=
  match kind s, width s with
  | Float, 4 => Some (HPrim (lit "f32") 4 4)
  | Float, 8 => Some (HPrim (lit "f64") 8 8)
  | Float, 2 => Some (HPrim (lit "half::f16") 2 2)
  | Sint, 4 => Some (HPrim (lit "i32") 4 4)
  | Uint, 4 => Some (HPrim (lit "u32") 4 4)
  | Sint, 8 => Some (HPrim (lit "i64") 8 8)
  | Uint, 8 => Some (HPrim (lit "u64") 8 8)
  | Bool, 1 => Some (HPrim (lit "bool") 1 1)
  | _, _ => None
  end.

(** A matrix column: [vec3] columns are padded to four scalars, the
    stride of a GPU matrix column. *)
Definition column_host (r : VectorSize) (el : HostType) : HostType :=
  HArray el (match r with Tri => 4 | _ => vector_size_n r end).

Definition of_option {A} (o : option A) (e : LayoutError) : result A LayoutError :=
  match o with Some a => Ok a | None => Err e end.

Definition struct_name (ty : Type_) : str := default [] (ty_name ty).

(** The host type of the shader type at handle [h]. *)
Fixpoint host_type (fuel : nat) (tm : TypeMap) (tys : list Type_) (h : nat)
  : result HostType LayoutError :=
  match fuel with
  | 0 => Err (UnsupportedType h)
  | S fuel' =>
      match tys !! h with
      | None => Err (UnsupportedType h)
      | Some ty =>
          match ty_inner ty with
          | TScalar s | TAtomic s => of_option (scalar_host s) (UnsupportedType h)
          | TVector n s =>
              match lookup_override tm (KVector n (kind s) (width s)) with
              | Some t => Ok t
              | None => let! el := of_option (scalar_host s) (UnsupportedType h) in
                        Ok (HArray el (vector_size_n n))
              end
          | TMatrix c r s =>
              match lookup_override tm (KMatrix c r (kind s) (width s)) with
              | Some t => Ok t
              | None => let! el := of_option (scalar_host s) (UnsupportedType h) in
                        Ok (HArray (column_host r el) (vector_size_n c))
              end
          | TArray base (Some n) _ =>
              let! el := host_type fuel' tm tys base in
              let! gl := of_option (gpu_layout fuel' tys base) (UnsupportedType base) in
              if host_size el =? array_stride gl then Ok (HArray el n)
              else Err (LayoutConflict (struct_name ty))
          | TArray base None _ =>
              let! el := host_type fuel' tm tys base in
              let! gl := of_option (gpu_layout fuel' tys base) (UnsupportedType base) in
              if host_size el =? array_stride gl then Ok (HRuntimeArray el)
              else Err (LayoutConflict (struct_name ty))
          | TStruct _ _ =>
              let! gl := of_option (gpu_layout fuel tys h) (UnsupportedType h) in
              Ok (HStruct (struct_name ty) (gsize gl) (galign gl))
          | _ => Err (UnsupportedType h)
          end
      end
  end.

(** ** DirectReinterpret: the padded host record *)

Record HostField := { hf_name : str; hf_ty : HostType; hf_pad : bool }.

(** The padding field [_pad_<name>: [u8; off - cur]] before [name]. *)
Definition padding (name : str) (cur off : nat) : list HostField :=
  if off =? cur then []
  else [{| hf_name := lit "_pad_" ++ name; hf_ty := HPad (off - cur); hf_pad := true |}].

(** The members at their naga offsets, with the padding before each and
    after the last up to [span]. *)
Fixpoint pad_members (sname : str) (align_attr span cur : nat)
         (ms : list (str * nat * HostType)) : result (list HostField) LayoutError :=
  match ms with
  | [] => if cur <=? span then Ok (padding (lit "end") cur span) else Err (LayoutConflict sname)
  | (n, off, t) :: rest =>
      if (cur <=? off) && (0 <? host_align t) && (off mod host_align t =? 0)
         && (align_attr mod host_align t =? 0)
      then let! fs := pad_members sname align_attr span (off + host_size t) rest in
           Ok (padding n cur off ++ {| hf_name := n; hf_ty := t; hf_pad := false |} :: fs)
      else Err (LayoutConflict sname)
  end.

Definition build_direct (sname : str) (ms : list (str * nat * HostType)) (span align_attr : nat)
  : result (list HostField) LayoutError :=
  if (0 <? align_attr) && (span mod align_attr =? 0) then pad_members sname align_attr span 0 ms
  else Err (LayoutConflict sname).

(** Rust's [repr(C, align(A))] layout of a record: fields placed in
    order, alignment the largest of [A] and the fields', size rounded up
    to it. *)
Definition repr_c_offsets (fs : list HostField) : list nat * nat :=
  place (fun f => host_align (hf_ty f)) (fun f => host_size (hf_ty f)) 0 fs.

Definition repr_c_align (align_attr : nat) (fs : list HostField) : nat :=
  foldr Nat.max align_attr (map (fun f => host_align (hf_ty f)) fs).

Definition repr_c_size (align_attr : nat) (fs : list HostField) : nat :=
  round_up (repr_c_align align_attr fs) (repr_c_offsets fs).2.

(** The offsets of the named (non-padding) fields. *)
Definition field_sel (p : HostField * nat) : option (str * nat) :=
  if hf_pad p.1 then None else Some (hf_name p.1, p.2).

Definition member_offsets (fs : list HostField) : list (str * nat) :=
  omap field_sel (zip fs (repr_c_offsets fs).1).

(** ** RuntimeEncoded: the encode routine *)

(** One write of the encoder: a member's bytes at its GPU offset. *)
Record EncodeWrite := { ew_name : str; ew_offset : nat; ew_size : nat }.

Definition encode_plan (ms : list (str * nat * GpuLayout)) : list EncodeWrite :=
  map (fun '(n, off, l) => {| ew_name := n; ew_offset := off; ew_size := gsize l |}) ms.

(** ** The struct item *)

Inductive StructDecl :=
| DirectStruct (name : str) (align_attr : nat) (fields : list HostField)
| EncodedStruct (name : str) (size : nat) (writes : list EncodeWrite).

Definition member_name (m : StructMember) : str := default [] (m_name m).

Definition struct_item (strategy : WgslTypeSerializeStrategy) (tm : TypeMap) (tys : list Type_)
           (h : nat) : result StructDecl LayoutError :=
  let! _ := validate_type_map tm in
  match tys !! h with
  | Some ({| ty_inner := TStruct members span |} as ty) =>
      let! gl := of_option (type_layout tys h) (UnsupportedType h) in
      match strategy with
      | Bytemuck =>
          let! ms := res_mapM (fun m => let! t := host_type (length tys) tm tys (m_ty m) in
                                        Ok (member_name m, m_offset m, t)) members in
          let! fs := build_direct (struct_name ty) ms span (galign gl) in
          Ok (DirectStruct (struct_name ty) (galign gl) fs)
      | Encase =>
          let! ms := res_mapM (fun m => let! l := of_option (type_layout tys (m_ty m))
                                                                (UnsupportedType (m_ty m)) in
                                        Ok (member_name m, m_offset m, l)) members in
          Ok (EncodedStruct (struct_name ty) span (encode_plan ms))
      end
  | _ => Err (UnsupportedType h)
  end.

(** ** Lemmas on the host layout *)

Local Abbreviation fa := (fun f => host_align (hf_ty f)) (only parsing).
Local Abbreviation fs_ := (fun f => host_size (hf_ty f)) (only parsing).

Lemma place_padding n cur off rest :
  cur <= off ->
  place fa fs_ cur (padding n cur off ++ rest) =
    ((if off =? cur then [] else [cur]) ++ (place fa fs_ off rest).1, (place fa fs_ off rest).2).
Proof.
  intros Hle. unfold padding. destruct (Nat.eqb_spec off cur) as [->|Hne]; [by destruct (place _ _ _ _)|].
  cbn [app]. rewrite place_cons. cbn [hf_ty host_align host_size].
  rewrite round_up_1. by replace (cur + (off - cur)) with off by lia.
Qed.

Lemma omap_zip_padding n cur off rest offs :
  omap field_sel (zip (padding n cur off ++ rest) ((if off =? cur then [] else [cur]) ++ offs)) =
  omap field_sel (zip rest offs).
Proof. unfold padding. by destruct (off =? cur). Qed.

Lemma padding_align n cur off A : Forall (fun f => Nat.divide (fa f) A) (padding n cur off).
Proof. unfold padding. destruct (off =? cur); repeat constructor. apply Nat.divide_1_l. Qed.

Lemma mod_divide_b a b : 0 < a -> (b mod a =? 0) = true -> Nat.divide a b.
Proof. intros Ha Hm%Nat.eqb_eq. by apply Nat.Lcm0.mod_divide. Qed.

(** The core of the round trip: from any start [cur], the padded fields
    are placed by [repr(C)] at the members' offsets and end at [span]. *)
Lemma pad_members_place sname A span cur ms fs :
  pad_members sname A span cur ms = Ok fs ->
  (place fa fs_ cur fs).2 = span /\
  omap field_sel (zip fs (place fa fs_ cur fs).1) = map (fun '(n, off, _) => (n, off)) ms /\
  Forall (fun f => Nat.divide (fa f) A) fs.
Proof.
  induction ms as [|[[n off] t] ms IH] in cur, fs |- *; cbn [pad_members].
  - destruct (Nat.leb_spec cur span) as [Hle|]; [intros [= <-]|done].
    rewrite <-(app_nil_r (padding _ cur span)), place_padding by done. cbn.
    rewrite app_nil_r. split_and!; [done| |apply padding_align].
    unfold padding. by destruct (span =? cur).
  - intros Hpm. destruct (cur <=? off) eqn:H1, (0 <? host_align t) eqn:H2,
      (off mod host_align t =? 0) eqn:H3, (A mod host_align t =? 0) eqn:H4; cbn [andb] in Hpm; try discriminate.
    destruct (pad_members _ _ _ _ ms) as [fs'|] eqn:E; cbn in Hpm; [|discriminate]. injection Hpm as <-.
    apply Nat.leb_le in H1. apply Nat.ltb_lt in H2.
    destruct (IH _ _ E) as (Hend & Hsel & Hal).
    rewrite place_padding by done. rewrite place_cons. cbn [hf_ty].
    rewrite (round_up_divide _ off H2 (mod_divide_b _ _ H2 H3)). cbn [fst snd].
    split_and!; [done| |].
    + rewrite omap_zip_padding. cbn. cbn. f_equal. exact Hsel.
    + apply Forall_app. split; [apply padding_align|]. constructor; [|done].
      exact (mod_divide_b _ _ H2 H4).
Qed.

Lemma foldr_max_bound A l : 0 < A -> Forall (fun x => Nat.divide x A) l -> foldr Nat.max A l = A.
Proof.
  intros HA. induction l as [|x l IH]; intros Hl; [done|].
  apply Forall_cons in Hl as [Hx Hl]. cbn. rewrite IH by done.
  apply Nat.divide_pos_le in Hx; [lia|done].
Qed.

Definition is_pow2 (n : nat) : Prop := exists k, n = 2 ^ k.

Lemma pow2_pos n : is_pow2 n -> 0 < n.
Proof. intros [k ->]. apply Nat.neq_0_lt_0, Nat.pow_nonzero. lia. Qed.

Lemma pow2_divide a b : is_pow2 a -> is_pow2 b -> a <= b -> Nat.divide a b.
Proof.
  intros [i ->] [j ->] Hle. apply Nat.pow_le_mono_r_iff in Hle; [|lia].
  exists (2 ^ (j - i)). rewrite <-Nat.pow_add_r. f_equal. lia.
Qed.

Lemma struct_align_pow2 ls : Forall (fun l => is_pow2 (galign l)) ls -> is_pow2 (struct_align ls).
Proof.
  unfold struct_align. induction ls as [|l ls IH]; intros Hp; [by exists 0|].
  apply Forall_cons in Hp as [Hl Hp]. cbn. specialize (IH Hp).
  destruct (Nat.max_spec (galign l) (foldr Nat.max 1 (map galign ls))) as [[_ ->]|[_ ->]]; done.
Qed.

Lemma struct_align_divide ls l :
  Forall (fun l => is_pow2 (galign l)) ls -> l ∈ ls -> Nat.divide (galign l) (struct_align ls).
Proof.
  intros Hp Hl. apply pow2_divide; [|by apply struct_align_pow2|by apply struct_align_member].
  rewrite Forall_forall in Hp. by apply Hp.
Qed.

Lemma divide_mod_b a b : 0 < a -> Nat.divide a b -> (b mod a =? 0) = true.
Proof. intros Ha Hd. apply Nat.eqb_eq. by apply Nat.Lcm0.mod_divide. Qed.

(** A host type stands for a GPU layout: same size, an alignment that
    divides the GPU one. *)
Definition host_fits (t : HostType) (l : GpuLayout) : Prop :=
  host_size t = gsize l /\ 0 < host_align t /\ Nat.divide (host_align t) (galign l).

(** From any start, members placed by the WGSL rule are accepted by the
    padding pass. *)
Lemma pad_members_wgsl sname A span cur ms ls :
  Forall2 (fun x l => host_fits x.2 l) ms ls ->
  map (fun x => x.1.2) ms = (place galign gsize cur ls).1 ->
  Forall (fun l => 0 < galign l /\ Nat.divide (galign l) A) ls ->
  (place galign gsize cur ls).2 <= span ->
  exists fs, pad_members sname A span cur ms = Ok fs.
Proof.
  intros Hfit. revert cur.
  induction Hfit as [|[[n off] t] l ms ls Hf Hfit IH]; intros cur Hoff Hal Hend; cbn [pad_members].
  - cbn in Hend. apply Nat.leb_le in Hend. rewrite Hend. by eexists.
  - rewrite place_cons in Hoff, Hend. cbn in Hoff. injection Hoff as -> Hoff.
    apply Forall_cons in Hal as [[Hpos HlA] Hal]. destruct Hf as (Hsz & Htpos & Htl). cbn in Hsz, Htpos, Htl.
    pose proof (round_up_spec (galign l) cur Hpos) as (Hge & _ & Hd).
    apply Nat.leb_le in Hge. rewrite Hge, (proj2 (Nat.ltb_lt _ _) Htpos).
    rewrite (divide_mod_b _ _ Htpos (Nat.divide_trans _ _ _ Htl Hd)).
    rewrite (divide_mod_b _ _ Htpos (Nat.divide_trans _ _ _ Htl HlA)). cbn [andb].
    rewrite Hsz. destruct (IH _ Hoff Hal Hend) as [fs ->]. by eexists.
Qed.

(** ** The type mapper against the GPU layout *)

Lemma scalar_host_spec s t :
  scalar_host s = Some t ->
  width s ∈ scalar_widths (kind s) /\ host_size t = width s /\ host_align t = width s.
Proof.
  destruct s as [k w]. unfold scalar_host. cbn [kind width].
  destruct k; do 9 (destruct w as [|w]; [intros H; simplify_eq/=;
                                         split_and!; try done; apply list_elem_of_In; cbn; tauto|]);
    intros H; simplify_eq.
Qed.

Lemma scalar_layout_pow2 s l : scalar_layout s = Some l -> is_pow2 (galign l).
Proof. intros [-> Hw]%scalar_layout_spec. exact (scalar_widths_pow2 _ _ Hw). Qed.

Lemma scalar_host_fits s t l :
  scalar_host s = Some t -> scalar_layout s = Some l -> host_fits t l.
Proof.
  intros (_ & Hs & Ha)%scalar_host_spec Hl. pose proof (scalar_layout_pos _ _ Hl).
  apply scalar_layout_spec in Hl as [-> _]. unfold host_fits. cbn in *. rewrite Hs, Ha.
  split_and!; [done|done|apply Nat.divide_refl].
Qed.

Lemma validate_from_lookup i tm k t :
  validate_from i tm = Ok tt -> lookup_override tm k = Some t -> override_fits k t = true.
Proof.
  induction tm as [|[k' t'] tm IH] in i |- *; cbn; [done|].
  destruct (override_fits k' t') eqn:Hf; [|done]. intros Hv.
  case_decide; [intros [= <-]; by subst|]. by apply (IH (S i)).
Qed.

Lemma override_host_fits k t l :
  override_fits k t = true -> key_layout k = Some l -> host_fits t l.
Proof.
  unfold override_fits. intros Hf Hk. rewrite Hk in Hf.
  apply andb_prop in Hf as [[Hs%Nat.eqb_eq Hp%Nat.ltb_lt]%andb_prop Hm].
  split_and!; [done|done|]. exact (mod_divide_b _ _ Hp Hm).
Qed.

Lemma of_option_ok {A} (o : option A) e a : of_option o e = Ok a <-> o = Some a.
Proof. destruct o; cbn; split; congruence. Qed.

Lemma round_up_small k n : 0 < n <= k -> round_up k n = k.
Proof.
  intros Hn. destruct (round_up_spec k n ltac:(lia)) as (H1 & H2 & [z Hz]).
  rewrite Hz in *. assert (z = 1) as -> by nia. lia.
Qed.

Lemma pow2_mul a b : is_pow2 a -> is_pow2 b -> is_pow2 (a * b).
Proof. intros [i ->] [j ->]. exists (i + j). by rewrite Nat.pow_add_r. Qed.

Lemma vector_host_fits n s el sl :
  scalar_host s = Some el -> scalar_layout s = Some sl ->
  host_fits (HArray el (vector_size_n n))
            {| gsize := vector_size_n n * gsize sl;
               galign := (match n with Bi => 2 | _ => 4 end) * galign sl |}.
Proof.
  intros Hh Hl. destruct (scalar_host_fits _ _ _ Hh Hl) as (Hs & Hp & Hd).
  split_and!; cbn; [by rewrite Hs|done|]. by apply Nat.divide_mul_r.
Qed.

Lemma matrix_host_fits c r s el sl :
  scalar_host s = Some el -> scalar_layout s = Some sl ->
  host_fits (HArray (column_host r el) (vector_size_n c))
            {| gsize := vector_size_n c *
                 round_up ((match r with Bi => 2 | _ => 4 end) * galign sl) (vector_size_n r * gsize sl);
               galign := (match r with Bi => 2 | _ => 4 end) * galign sl |}.
Proof.
  intros Hh Hl. destruct (scalar_host_fits _ _ _ Hh Hl) as (Hs & Hp & Hd).
  pose proof (scalar_layout_pos _ _ Hl).
  assert (gsize sl = galign sl) as Hg by (by apply scalar_layout_spec in Hl as [-> _]).
  split_and!; cbn; [|done|by apply Nat.divide_mul_r].
  f_equal. rewrite Hs, Hg. destruct r; cbn.
  - apply eq_sym, round_up_divide; [lia|apply Nat.divide_refl].
  - apply eq_sym, round_up_small. lia.
  - apply eq_sym, round_up_divide; [lia|apply Nat.divide_refl].
Qed.

(** The mapper's invariant: the host type it gives a shader type has
    that type's GPU size and an alignment dividing its GPU alignment. *)
Lemma host_type_fits_fuel tm tys fuel h t l :
  validate_type_map tm = Ok tt ->
  host_type fuel tm tys h = Ok t -> gpu_layout fuel tys h = Some l -> host_fits t l.
Proof.
  intros Hv. induction fuel as [|fuel IH] in h, t, l |- *; [done|]. cbn.
  destruct (tys !! h) as [ty|]; [|done]. cbn.
  destruct (ty_inner ty) as [s|n s|c r s|s|base [n|] stride|ms span| |]; try done.
  - intros Hh%of_option_ok Hl. exact (scalar_host_fits _ _ _ Hh Hl).
  - destruct s as [k w]. destruct (lookup_override tm _) as [t'|] eqn:Ho.
    + intros [= <-] Hl. apply (override_host_fits (KVector n k w)); [|done].
      exact (validate_from_lookup _ _ _ _ Hv Ho).
    + destruct (scalar_host _) as [el|] eqn:Hh; [|done]. intros [= <-].
      unfold vector_layout. destruct (scalar_layout _) as [sl|] eqn:Hl; [|done].
      intros [= <-]. exact (vector_host_fits n _ _ _ Hh Hl).
  - destruct s as [k w]. destruct (lookup_override tm _) as [t'|] eqn:Ho.
    + intros [= <-] Hl. apply (override_host_fits (KMatrix c r k w)); [|done].
      exact (validate_from_lookup _ _ _ _ Hv Ho).
    + destruct (scalar_host _) as [el|] eqn:Hh; [|done]. intros [= <-].
      unfold matrix_layout, vector_layout. destruct (scalar_layout _) as [sl|] eqn:Hl; [|done].
      intros [= <-]. exact (matrix_host_fits c r _ _ _ Hh Hl).
  - intros Hh%of_option_ok Hl. exact (scalar_host_fits _ _ _ Hh Hl).
  - destruct (host_type fuel tm tys base) as [el|] eqn:He; [|done]. cbn.
    destruct (gpu_layout fuel tys base) as [gl|] eqn:Hg; [|done]. cbn.
    destruct (Nat.eqb_spec (host_size el) (array_stride gl)) as [Hst|]; [|done].
    intros [= <-] [= <-]. destruct (IH _ _ _ He Hg) as (_ & Hp & Hd).
    split_and!; cbn; [by rewrite Hst|done|done].
  - destruct (host_type fuel tm tys base) as [el|] eqn:He; [|done]. cbn.
    destruct (gpu_layout fuel tys base) as [gl|] eqn:Hg; [|done]. cbn.
    destruct (Nat.eqb_spec (host_size el) (array_stride gl)) as [Hst|]; [|done].
    intros [= <-] [= <-]. destruct (IH _ _ _ He Hg) as (_ & Hp & Hd).
    split_and!; cbn; [lia|done|done].
  - destruct (mapM _ ms) as [ls|]; cbn; [|intros; discriminate]. intros [= <-] [= <-].
    split_and!; [done|apply struct_align_pos|apply Nat.divide_refl].
Qed.

Lemma vector_layout_pow2 n s l : vector_layout n s = Some l -> is_pow2 (galign l).
Proof.
  unfold vector_layout. destruct (scalar_layout s) as [sl|] eqn:E; [|done]. intros [= <-]. cbn.
  apply pow2_mul; [destruct n; [exists 1|exists 2|exists 2]; done|exact (scalar_layout_pow2 _ _ E)].
Qed.

(** GPU alignments are powers of two. *)
Lemma gpu_layout_pow2 fuel tys h l : gpu_layout fuel tys h = Some l -> is_pow2 (galign l).
Proof.
  induction fuel as [|fuel IH] in h, l |- *; [done|]. cbn.
  destruct (tys !! h) as [ty|]; [|done]. cbn.
  destruct (ty_inner ty) as [s|n s|c r s|s|base [n|] stride|ms span| |]; try done.
  - apply scalar_layout_pow2.
  - apply vector_layout_pow2.
  - unfold matrix_layout. destruct (vector_layout r s) eqn:E; [|done]. intros [= <-].
    exact (vector_layout_pow2 _ _ _ E).
  - apply scalar_layout_pow2.
  - destruct (gpu_layout fuel tys base) eqn:E; [|done]. intros [= <-]. exact (IH _ _ E).
  - destruct (gpu_layout fuel tys base) eqn:E; [|done]. intros [= <-]. exact (IH _ _ E).
  - destruct (mapM _ ms) as [ls|] eqn:E; [|done]. intros [= <-].
    apply struct_align_pow2, Forall_forall. intros l Hl. apply mapM_Some in E.
    destruct (Forall2_elem_of_r _ _ _ _ E Hl) as (m & _ & Hm). exact (IH _ _ Hm).
Qed.

(** ** Theorems of the DirectReinterpret builder *)

(** The host record [build_direct] emits, laid out by Rust's
    [repr(C, align(A))] rule, has every member at its given offset, in
    order, the given span as size and [A] as alignment. *)
Lemma build_direct_layout sname ms span A fs :
  build_direct sname ms span A = Ok fs ->
  member_offsets fs = map (fun '(n, off, _) => (n, off)) ms /\
  repr_c_size A fs = span /\ repr_c_align A fs = A.
Proof.
  unfold build_direct. destruct (0 <? A) eqn:HA, (span mod A =? 0) eqn:Hs; cbn; try discriminate.
  apply Nat.ltb_lt in HA. intros Hp.
  destruct (pad_members_place _ _ _ _ _ _ Hp) as (Hend & Hsel & Hal).
  assert (Halign : repr_c_align A fs = A).
  { unfold repr_c_align. apply foldr_max_bound; [done|]. by apply Forall_map. }
  split_and!; [exact Hsel| |exact Halign].
  unfold repr_c_size, repr_c_offsets. rewrite Halign, Hend.
  exact (round_up_divide _ _ HA (mod_divide_b _ _ HA Hs)).
Qed.

(** The DirectReinterpret builder accepts every struct laid out by the
    WGSL rules whose members' host types have the GPU size and an
    alignment dividing the GPU one (GPU alignments being powers of two). *)
Lemma build_direct_wgsl sname ms ls :
  Forall2 (fun x l => host_fits x.2 l) ms ls -> map (fun x => x.1.2) ms = struct_offsets ls ->
  Forall (fun l => is_pow2 (galign l)) ls ->
  exists fs, build_direct sname ms (gsize (struct_layout ls)) (galign (struct_layout ls)) = Ok fs.
Proof.
  intros Hfit Hoff Hp. unfold build_direct, struct_layout. cbn [gsize galign].
  pose proof (struct_align_pos ls) as HA.
  pose proof (round_up_spec (struct_align ls) (place galign gsize 0 ls).2 HA) as (Hge & _ & Hd).
  rewrite (proj2 (Nat.ltb_lt _ _) HA), (divide_mod_b _ _ HA Hd). cbn [andb].
  apply (pad_members_wgsl _ _ _ _ _ ls); [done|done| |done].
  apply Forall_forall. intros l Hl. split; [|by apply struct_align_divide].
  rewrite Forall_forall in Hp. apply pow2_pos, Hp, Hl.
Qed.

Lemma Forall2_map_eq {A B C} (f : A -> C) (g : B -> C) l k :
  Forall2 (fun a b => g b = f a) l k -> map g k = map f l.
Proof. induction 1; cbn; congruence. Qed.

(** The layout of a struct of the arena is the WGSL layout of its
    members' layouts. *)
Lemma type_layout_struct tys h ty members span ls :
  arena_wf tys -> tys !! h = Some ty -> ty_inner ty = TStruct members span ->
  mapM (fun m => type_layout tys (m_ty m)) members = Some ls ->
  type_layout tys h = Some (struct_layout ls).
Proof.
  intros Hwf Hh Hti Hls. pose proof (Hwf h ty Hh) as Hr. rewrite Hti in Hr. cbn in Hr.
  pose proof (lookup_lt_Some _ _ _ Hh) as Hlt. unfold type_layout at 1.
  destruct (length tys) as [|k] eqn:Hlen; [lia|]. cbn. rewrite Hh. cbn. rewrite Hti.
  rewrite (mapM_ext_elem _ (fun m => type_layout tys (m_ty m))); [by rewrite Hls|].
  intros m Hm. rewrite Forall_map, Forall_forall in Hr. specialize (Hr m Hm). cbn in Hr.
  unfold type_layout. rewrite Hlen. apply gpu_layout_fuel_stable; [done|lia|lia].
Qed.

(** C10: composition of the type mapper and the DirectReinterpret builder:
    for a struct of a well-formed arena whose naga offsets and span are
    the WGSL layout of its members, and whose members the mapper can map,
    [struct_item] with [Bytemuck] emits a record that [repr(C)] lays out
    with every member at its naga offset and the struct's GPU size. *)
Theorem struct_item_direct tm tys h ty members span ls :
  validate_type_map tm = Ok tt -> arena_wf tys ->
  tys !! h = Some ty -> ty_inner ty = TStruct members span ->
  mapM (fun m => type_layout tys (m_ty m)) members = Some ls ->
  map m_offset members = struct_offsets ls -> span = gsize (struct_layout ls) ->
  (forall m, m ∈ members -> exists t, host_type (length tys) tm tys (m_ty m) = Ok t) ->
  exists fs,
    struct_item Bytemuck tm tys h = Ok (DirectStruct (struct_name ty) (galign (struct_layout ls)) fs) /\
    member_offsets fs = map (fun m => (member_name m, m_offset m)) members /\
    repr_c_size (galign (struct_layout ls)) fs = span.
Proof.
  intros Hv Hwf Hh Hti Hls Hoff -> Hhost.
  pose proof (type_layout_struct _ _ _ _ _ _ Hwf Hh Hti Hls) as Hgl.
  set (f := fun m => let! t := host_type (length tys) tm tys (m_ty m) in
                     Ok (member_name m, m_offset m, t) : result _ LayoutError).
  destruct (res_mapM_total f members) as [ms Hms].
  { intros m Hm. destruct (Hhost m Hm) as [t Ht]. subst f. cbn. rewrite Ht. by eexists. }
  unfold struct_item. rewrite Hv. cbn [res_bind]. rewrite Hh, Hgl. destruct ty as [nm ti].
  cbn in Hti. subst ti. cbn [of_option res_bind]. fold f. rewrite Hms. cbn [res_bind].
  apply res_mapM_Forall2 in Hms. apply mapM_Some in Hls.
  assert (Hrel : Forall2 (fun m x => x = (member_name m, m_offset m, x.2) /\
                                     host_type (length tys) tm tys (m_ty m) = Ok x.2) members ms).
  { eapply Forall2_impl; [exact Hms|]. intros m x. subst f. cbn.
    destruct (host_type _ _ _ _) eqn:Ht; cbn; [|done]. by intros [= <-]. }
  assert (Hfit : Forall2 (fun x l => host_fits x.2 l) ms ls).
  { apply Forall2_flip in Hrel. eapply Forall2_trans; [|exact Hrel|exact Hls].
    intros x m l [_ Ht] Hl. exact (host_type_fits_fuel tm tys _ _ _ _ Hv Ht Hl). }
  assert (Hoff' : map (fun x => x.1.2) ms = struct_offsets ls).
  { rewrite <-Hoff. apply Forall2_map_eq. eapply Forall2_impl; [exact Hrel|]. by intros m x [-> _]. }
  assert (Hpow : Forall (fun l => is_pow2 (galign l)) ls).
  { apply Forall_forall. intros l Hl. destruct (Forall2_elem_of_r _ _ _ _ Hls Hl) as (m & _ & Hm).
    exact (gpu_layout_pow2 _ _ _ _ Hm). }
  destruct (build_direct_wgsl (struct_name {| ty_name := nm; ty_inner := TStruct members (gsize (struct_layout ls)) |})
              ms ls Hfit Hoff' Hpow) as [fs Hfs].
  unfold struct_layout in Hfs |- *. cbn [gsize galign] in Hfs |- *.
  rewrite Hfs. cbn [res_bind]. exists fs. split; [done|].
  destruct (build_direct_layout _ _ _ _ _ Hfs) as (Hmo & Hsz & _). split; [|done].
  rewrite Hmo. apply Forall2_map_eq. eapply Forall2_impl; [exact Hrel|].
  intros m [[n off] t] [Heq _]. cbn in Heq. by simplify_eq.
Qed.

(** C9: round trip of the DirectReinterpret strategy (spec 8): whenever
    [struct_item] emits a host record for a struct, Rust's
    [repr(C, align(A))] layout of that record has every member at naga's
    offset, in declaration order, the struct's span as its size and its
    GPU alignment [A] as its alignment. *)
Theorem struct_item_direct_layout tm tys h ty members span name A fs :
  tys !! h = Some ty -> ty_inner ty = TStruct members span ->
  struct_item Bytemuck tm tys h = Ok (DirectStruct name A fs) ->
  member_offsets fs = map (fun m => (member_name m, m_offset m)) members /\
  repr_c_size A fs = span /\ repr_c_align A fs = A.
Proof.
  intros Hh Hti. unfold struct_item. destruct (validate_type_map tm); cbn; [|done].
  rewrite Hh. destruct ty as [nm ti]. cbn in Hti. subst ti. cbn.
  destruct (type_layout tys h) as [gl|]; cbn; [|done].
  destruct (res_mapM _ members) as [ms|] eqn:Hms; cbn; [|done].
  destruct (build_direct _ ms span _) as [fs'|] eqn:Hb; cbn; [|done]. intros [= <- <- <-].
  destruct (build_direct_layout _ _ _ _ _ Hb) as (Hmo & Hsz & Hal). split_and!; [|done|done].
  rewrite Hmo. apply Forall2_map_eq. apply res_mapM_Forall2 in Hms.
  eapply Forall2_impl; [exact Hms|]. intros m [[n off] t]. cbn.
  destruct (host_type _ _ _ _); cbn; [|done]. by intros [= <- <- <-].
Qed.

(** the type mapper's invariant: with a validated custom map, the host
    type it gives a shader type of the arena has that type's GPU size,
    and an alignment that is positive and divides the GPU alignment. *)
Theorem host_type_fits tm tys h t l :
  validate_type_map tm = Ok tt ->
  host_type (length tys) tm tys h = Ok t -> type_layout tys h = Some l -> host_fits t l.
Proof. apply host_type_fits_fuel. Qed.

Lemma mapM_None_elem {A B} (f : A -> option B) l x : x ∈ l -> f x = None -> mapM f l = None.
Proof.
  intros Hx Hf. destruct (mapM f l) as [k|] eqn:E; [|done].
  apply mapM_Some in E. apply list_elem_of_lookup_1 in Hx as [i Hi].
  destruct (Forall2_lookup_l _ _ _ _ _ E Hi) as (y & _ & Hy). congruence.
Qed.

(** C12: a struct with a member that has no layout (an image, a
    sampler, a scalar of a width naga does not have, or a type the
    arena lacks) is rejected with [UnsupportedType] naming the struct,
    under either strategy: no partial declaration is emitted. *)
Theorem struct_item_unsupported strategy tm tys h ty members span m :
  validate_type_map tm = Ok tt -> arena_wf tys ->
  tys !! h = Some ty -> ty_inner ty = TStruct members span ->
  m ∈ members -> type_layout tys (m_ty m) = None ->
  struct_item strategy tm tys h = Err (UnsupportedType h).
Proof.
  intros Hv Hwf Hh Hti Hm Hnone. pose proof (Hwf h ty Hh) as Hr. rewrite Hti in Hr. cbn in Hr.
  rewrite Forall_map, Forall_forall in Hr. specialize (Hr m Hm). cbn in Hr.
  assert (type_layout tys h = None) as Hgl.
  { pose proof (lookup_lt_Some _ _ _ Hh) as Hlt. unfold type_layout in *.
    destruct (length tys) as [|k] eqn:Hlen; [lia|]. cbn. rewrite Hh. cbn. rewrite Hti.
    rewrite (mapM_None_elem _ members m Hm); [done|].
    rewrite <-Hnone. apply gpu_layout_fuel_stable; [done|lia|lia]. }
  unfold struct_item. rewrite Hv. cbn [res_bind]. rewrite Hh. destruct ty as [nm ti].
  cbn in Hti. subst ti. cbn. by rewrite Hgl.
Qed.

(** C11: bounds of the RuntimeEncoded strategy: when naga's offsets are the
    WGSL layout of the members, the encode routine [struct_item] emits
    writes the members in order at those offsets into a buffer of the
    struct's span, every write inside the buffer and no two overlapping. *)
Theorem struct_item_encoded_bounds tm tys h ty members span ls name sz writes :
  arena_wf tys -> tys !! h = Some ty -> ty_inner ty = TStruct members span ->
  mapM (fun m => type_layout tys (m_ty m)) members = Some ls ->
  map m_offset members = struct_offsets ls -> span = gsize (struct_layout ls) ->
  struct_item Encase tm tys h = Ok (EncodedStruct name sz writes) ->
  sz = span /\ map ew_offset writes = struct_offsets ls /\
  (forall i w, writes !! i = Some w -> ew_offset w + ew_size w <= sz) /\
  (forall i j wi wj, i < j -> writes !! i = Some wi -> writes !! j = Some wj ->
                     ew_offset wi + ew_size wi <= ew_offset wj).
Proof.
  intros Hwf Hh Hti Hls Hoff Hspan.
  unfold struct_item. destruct (validate_type_map tm); cbn; [|done].
  rewrite Hh. destruct ty as [nm ti]. cbn in Hti. subst ti. cbn.
  destruct (type_layout tys h) as [gl|]; cbn; [|done].
  destruct (res_mapM _ members) as [ms|] eqn:Hms; cbn; [|done]. intros [= <- <- <-].
  apply res_mapM_Forall2 in Hms. apply mapM_Some in Hls.
  assert (Hrel : Forall2 (fun x l => x = (x.1.1, x.1.2, l)) ms ls).
  { apply Forall2_flip in Hms. eapply Forall2_trans; [|exact Hms|exact Hls].
    intros [[n off] l'] m l Hf Hl. unfold flip in Hf. rewrite Hl in Hf. cbn in Hf. by simplify_eq. }
  assert (Hoff' : map ew_offset (encode_plan ms) = struct_offsets ls).
  { rewrite <-Hoff. unfold encode_plan. rewrite map_map. apply Forall2_map_eq.
    eapply Forall2_impl; [exact Hms|]. intros m [[n off] l]. cbn.
    destruct (type_layout tys (m_ty m)); cbn; [|done]. by intros [= <- <- <-]. }
  assert (Hsz : Forall2 (fun w l => ew_size w = gsize l) (encode_plan ms) ls).
  { unfold encode_plan. apply Forall2_fmap_l. eapply Forall2_impl; [exact Hrel|].
    intros [[n off] l'] l. cbn. by intros [= ->]. }
  assert (Hpos : Forall (fun l => 0 < galign l) ls).
  { apply Forall_forall. intros l Hl. destruct (Forall2_elem_of_r _ _ _ _ Hls Hl) as (m & _ & Hm).
    exact (gpu_layout_align_pos _ _ _ _ Hm). }
  assert (Hat : forall i w, encode_plan ms !! i = Some w ->
                exists l, ls !! i = Some l /\ ew_size w = gsize l /\ struct_offsets ls !! i = Some (ew_offset w)).
  { intros i w Hw. destruct (Forall2_lookup_l _ _ _ _ _ Hsz Hw) as (l & Hl & Hs).
    exists l. split_and!; [done|done|]. by rewrite <-Hoff', list_lookup_fmap, Hw. }
  split_and!; [done|done| |].
  - intros i w Hw. destruct (Hat i w Hw) as (l & Hl & Hs & Ho). unfold struct_offsets in Ho.
    destruct (place_sound galign gsize 0 ls i l _ Hpos Hl Ho) as (_ & _ & Hend).
    pose proof (round_up_spec (struct_align ls) (place galign gsize 0 ls).2 (struct_align_pos ls)).
    rewrite Hspan. cbn. lia.
  - intros i j wi wj Hij Hwi Hwj. destruct (Hat i wi Hwi) as (l & Hl & Hs & Ho).
    destruct (Hat j wj Hwj) as (l' & _ & _ & Ho'). unfold struct_offsets in Ho, Ho'.
    rewrite Hs. exact (place_disjoint galign gsize 0 ls i j l _ _ Hpos Hij Hl Ho Ho').
Qed.

(** Under the size rule of spec 4.1, mapping [vec3<f32>] (12 bytes) to
    [glam::Vec3A] (16 bytes, the type of the example's vertex positions,
    main.rs 171-179) is a configuration error. *)
Example glam_vec3a_override_rejected :
  validate_type_map [(KVector Tri Float 4, HPrim (lit "glam::Vec3A") 16 16)] = Err (TypeMapMismatch 0).
Proof. reflexivity. Qed.

(** ** Witnesses, on [Layout.example_arena] *)

(** [struct B { flag: bool }]: a boolean member maps to Rust's [bool]. *)
Definition bool_arena : list Type_ :=
  [{| ty_name := None; ty_inner := TScalar {| kind := Bool; width := 1 |} |};
   {| ty_name := Some (lit "B");
      ty_inner := TStruct [{| m_name := Some (lit "flag"); m_ty := 0; m_binding := None;
                              m_offset := 0 |}] 1 |}].

(** [struct R { n: u32, data: array<f32> }]: a runtime-sized last member
    maps to the flagged [HRuntimeArray]. *)
Definition runtime_arena : list Type_ :=
  [{| ty_name := None; ty_inner := TScalar {| kind := Uint; width := 4 |} |};
   {| ty_name := None; ty_inner := TScalar {| kind := Float; width := 4 |} |};
   {| ty_name := None; ty_inner := TArray 1 None 4 |};
   {| ty_name := Some (lit "R");
      ty_inner := TStruct [{| m_name := Some (lit "n"); m_ty := 0; m_binding := None; m_offset := 0 |};
                           {| m_name := Some (lit "data"); m_ty := 2; m_binding := None; m_offset := 4 |}] 8 |}].

(** [struct T { s: sampler }]: a sampler has no layout. *)
Definition sampler_member : StructMember :=
  {| m_name := Some (lit "s"); m_ty := 0; m_binding := None; m_offset := 0 |}.

Definition sampler_struct : Type_ :=
  {| ty_name := Some (lit "T"); ty_inner := TStruct [sampler_member] 0 |}.

Definition sampler_arena : list Type_ :=
  [{| ty_name := None; ty_inner := TSampler false |}; sampler_struct].

Lemma sampler_arena_wf : arena_wf sampler_arena.
Proof.
  intros h ty Hh. do 2 (destruct h as [|h]; [injection Hh as <-; cbn; repeat constructor; lia|]).
  done.
Qed.

Example bool_member_mapped :
  struct_item Bytemuck [] bool_arena 1 =
    Ok (DirectStruct (lit "B") 1 [{| hf_name := lit "flag"; hf_ty := HPrim (lit "bool") 1 1; hf_pad := false |}]).
Proof. reflexivity. Qed.

Example runtime_array_member_mapped :
  struct_item Bytemuck [] runtime_arena 3 =
    Ok (DirectStruct (lit "R") 4
          [{| hf_name := lit "n"; hf_ty := HPrim (lit "u32") 4 4; hf_pad := false |};
           {| hf_name := lit "data"; hf_ty := HRuntimeArray (HPrim (lit "f32") 4 4); hf_pad := false |}]).
Proof. reflexivity. Qed.

Local Notation S_layouts := [{| gsize := 4; galign := 4 |}; {| gsize := 12; galign := 16 |}].
Local Notation S_members :=
  [{| m_name := Some (lit "a"); m_ty := 0; m_binding := None; m_offset := 0 |};
   {| m_name := Some (lit "b"); m_ty := 1; m_binding := None; m_offset := 16 |}].

Lemma struct_item_direct_witness :
  exists fs,
    struct_item Bytemuck [] example_arena 2 =
      Ok (DirectStruct (struct_name example_struct_S) (galign (struct_layout S_layouts)) fs) /\
    member_offsets fs = [(lit "a", 0); (lit "b", 16)] /\
    repr_c_size (galign (struct_layout S_layouts)) fs = 32.
Proof.
  apply (struct_item_direct [] example_arena 2 example_struct_S S_members 32 S_layouts);
    [reflexivity|apply example_arena_wf|reflexivity..|].
  intros m Hm. repeat (apply elem_of_cons in Hm as [->|Hm]; [eexists; reflexivity|]). set_solver.
Defined.

Lemma struct_item_direct_layout_witness :
  match struct_item Bytemuck [] example_arena 2 with
  | Ok (DirectStruct name A fs) =>
      member_offsets fs = [(lit "a", 0); (lit "b", 16)] /\ repr_c_size A fs = 32 /\ repr_c_align A fs = A
  | _ => False
  end.
Proof.
  destruct (struct_item Bytemuck [] example_arena 2) as [[name A fs|]|] eqn:E;
    [|vm_compute in E; discriminate..].
  exact (struct_item_direct_layout [] example_arena 2 example_struct_S S_members 32 name A fs
           eq_refl eq_refl E).
Defined.

Lemma host_type_fits_witness :
  host_fits (HArray (HStruct (lit "S") 32 16) 2) {| gsize := 64; galign := 16 |}.
Proof. apply (host_type_fits [] example_arena 3); reflexivity. Defined.

Lemma struct_item_unsupported_witness :
  struct_item Encase [] sampler_arena 1 = Err (UnsupportedType 1) /\
  struct_item Bytemuck [] sampler_arena 1 = Err (UnsupportedType 1).
Proof.
  split; apply (struct_item_unsupported _ [] sampler_arena 1 sampler_struct [sampler_member] 0 sampler_member);
    first [reflexivity|apply sampler_arena_wf|left].
Defined.

Lemma struct_item_encoded_bounds_witness :
  match struct_item Encase [] example_arena 2 with
  | Ok (EncodedStruct name sz writes) =>
      sz = 32 /\ map ew_offset writes = struct_offsets S_layouts /\
      (forall i w, writes !! i = Some w -> ew_offset w + ew_size w <= sz) /\
      (forall i j wi wj, i < j -> writes !! i = Some wi -> writes !! j = Some wj ->
                         ew_offset wi + ew_size wi <= ew_offset wj)
  | _ => False
  end.
Proof.
  destruct (struct_item Encase [] example_arena 2) as [[|name sz writes]|] eqn:E;
    [vm_compute in E; discriminate| |vm_compute in E; discriminate].
  exact (struct_item_encoded_bounds [] example_arena 2 example_struct_S S_members 32 S_layouts name sz writes
           example_arena_wf eq_refl eq_refl eq_refl eq_refl eq_refl E).
Defined.

End StructBuilder.
