(* ===== verification/BindGroup.v ===== *)
(** * BindGroup: the bind group analyzer

    [get_bind_group_data] (module [bindgroup], outside [src/], modelled
    from spec section 4.3) walks the global variables of a shader module,
    files each one that has a [@group(g) @binding(b)] attribute into the
    table of group [g] (a [BTreeMap<u32, GroupData>], so groups come out
    in ascending order; bindings of a group ordered by binding index), and
    validates the result:
    - a second variable at a pair [(g, b)] already taken is the error
      [DuplicateBinding b] (checked while collecting);
    - the groups in use must be exactly [0..n], else
      [NonConsecutiveBindGroups] (checked after collecting).
    The errors are the enum [CreateModuleError] of [src/wgsl_bindgen/src/lib.rs].

    The reference specification is list-based: [used_pairs] lists the
    [(group, binding)] pairs in declaration order and [first_dup] finds
    the first pair that repeats an earlier one. *)

From S2P Require Import Prelude Naga.
Import Naga.

(** [lib.rs: CreateModuleError]. *)
Inductive CreateModuleError :=
| NonConsecutiveBindGroups
| DuplicateBinding (binding : nat).

#[export] Instance CreateModuleError_eq_dec : EqDecision CreateModuleError.
Proof. solve_decision. Defined.

Module BindGroup.

(** ** [BTreeMap<u32, V>] as a key-sorted association list *)
Section BTree.
Context {V : Type}.

Fixpoint bt_get (k : nat) (m : list (nat * V)) : option V :=
  match m with
  | [] => None
  | (k', v) :: m' => if decide (k = k') then Some v else bt_get k m'
  end.

(** [insert]: replaces the value of an existing key, keeps keys sorted. *)
Fixpoint bt_insert (k : nat) (v : V) (m : list (nat * V)) : list (nat * V) :=
  match m with
  | [] => [(k, v)]
  | (k', v') :: m' =>
      if decide (k < k') then (k, v) :: m
      else if decide (k = k') then (k, v) :: m'
      else (k', v') :: bt_insert k v m'
  end.

Definition bt_keys (m : list (nat * V)) : list nat := map fst m.
End BTree.

(** ** The analyzer *)

Record GroupBinding := {
  gb_name : option str;
  gb_binding_index : nat;
  gb_ty : nat;
  gb_space : AddressSpace
}.

Record GroupData := { bindings : list GroupBinding }.

Abbreviation BindGroupData := (list (nat * GroupData)).

(** Bindings of a group are kept ordered by binding index. *)
Fixpoint insert_by_index (x : GroupBinding) (l : list GroupBinding) : list GroupBinding :=
  match l with
  | [] => [x]
  | y :: l' =>
      if decide (gb_binding_index x < gb_binding_index y) then x :: l
      else y :: insert_by_index x l'
  end.

(** [groups.entry(g).or_insert(GroupData { bindings: vec![] })]. *)
Definition group_bindings (g : nat) (gs : BindGroupData) : list GroupBinding :=
  match bt_get g gs with
  | Some d => bindings d
  | None => []
  end.

Definition group_binding_of (gv : GlobalVariable) (rb : ResourceBinding) : GroupBinding :=
  {| gb_name := gv_name gv; gb_binding_index := binding rb;
     gb_ty := gv_ty gv; gb_space := gv_space gv |}.

(** One global variable: skip it without a binding attribute, reject a
    taken [(group, binding)] pair, file it otherwise. *)
Definition collect_binding (gs : BindGroupData) (gv : GlobalVariable)
  : result BindGroupData CreateModuleError :=
  match gv_binding gv with
  | None => Ok gs
  | Some rb =>
      let grp := group_bindings (group rb) gs in
      if existsb (fun x => gb_binding_index x =? binding rb) grp
      then Err (DuplicateBinding (binding rb))
      else Ok (bt_insert (group rb)
                 {| bindings := insert_by_index (group_binding_of gv rb) grp |} gs)
  end.

Fixpoint collect_bindings (gs : BindGroupData) (gvs : list GlobalVariable)
  : result BindGroupData CreateModuleError :=
  match gvs with
  | [] => Ok gs
  | gv :: rest => let! gs' := collect_binding gs gv in collect_bindings gs' rest
  end.

(** [groups.keys().map(|i| *i as usize).eq(0..groups.len())]. *)
Definition groups_consecutive (gs : BindGroupData) : bool :=
  bool_decide (bt_keys gs = seq 0 (length gs)).

Definition get_bind_group_data (m : Module) : result BindGroupData CreateModuleError :=
  let! groups := collect_bindings [] (global_variables m) in
  if groups_consecutive groups then Ok groups else Err NonConsecutiveBindGroups.

(** ** Reference specification *)

Definition binding_pair (gv : GlobalVariable) : option (nat * nat) :=
  (fun rb => (group rb, binding rb)) <$> gv_binding gv.

(** The [(group, binding)] pairs of the bound variables, in order. *)
Definition used_pairs (gvs : list GlobalVariable) : list (nat * nat) :=
  omap binding_pair gvs.

(** The binding index of the first pair that repeats an earlier one. *)
Fixpoint first_dup (seen : list (nat * nat)) (ps : list (nat * nat)) : option nat :=
  match ps with
  | [] => None
  | p :: ps' => if decide (p ∈ seen) then Some p.2 else first_dup (p :: seen) ps'
  end.

Definition used_groups (m : Module) : list nat :=
  map fst (used_pairs (global_variables m)).

(** The table's invariant: keys strictly increasing, no empty group,
    bindings of a group strictly increasing by index, and the filed
    [(group, binding)] pairs are exactly those of [P]. *)
Definition table_inv (gs : BindGroupData) (P : list (nat * nat)) : Prop :=
  StronglySorted lt (bt_keys gs) /\
  (forall g d, bt_get g gs = Some d ->
     bindings d <> [] /\ StronglySorted lt (map gb_binding_index (bindings d))) /\
  (forall g b, b ∈ map gb_binding_index (group_bindings g gs) <-> (g, b) ∈ P).

(** ** The sorted map *)
Section BTreeFacts.
Context {V : Type}.
Implicit Types (m : list (nat * V)) (v : V).

Lemma bt_get_insert k v m j :
  bt_get j (bt_insert k v m) = if decide (j = k) then Some v else bt_get j m.
Proof.
  induction m as [|[k' v'] m IH]; cbn [bt_insert bt_get].
  - by repeat case_decide.
  - repeat (case_decide; subst; cbn [bt_get]); repeat case_decide; try lia; done.
Qed.

Lemma elem_of_bt_keys_insert k v m j :
  j ∈ bt_keys (bt_insert k v m) <-> j = k \/ j ∈ bt_keys m.
Proof.
  unfold bt_keys. induction m as [|[k' v'] m IH]; cbn [bt_insert map fst].
  - set_solver.
  - repeat case_decide; subst; cbn [map fst]; rewrite ?elem_of_cons, ?IH; naive_solver.
Qed.

Lemma bt_insert_sorted k v m :
  StronglySorted lt (bt_keys m) -> StronglySorted lt (bt_keys (bt_insert k v m)).
Proof.
  induction m as [|[k' v'] m IH]; cbn [bt_insert].
  - intros _. repeat constructor.
  - unfold bt_keys in *. cbn [map fst].
    intros Hs. apply StronglySorted_cons in Hs as [Hf Hs].
    repeat case_decide; subst; cbn [map fst].
    + constructor; [by apply StronglySorted_cons|]. constructor; [lia|].
      eapply Forall_impl; [exact Hf|]. intros; lia.
    + by constructor.
    + constructor; [by apply IH|]. apply Forall_forall.
      intros x Hx%elem_of_bt_keys_insert. destruct Hx as [->|Hx]; [lia|].
      by eapply Forall_forall in Hf.
Qed.

Lemma elem_of_bt_keys m j : j ∈ bt_keys m <-> is_Some (bt_get j m).
Proof.
  unfold bt_keys. induction m as [|[k' v'] m IH]; cbn [map fst bt_get].
  - split; [set_solver|by intros []].
  - rewrite elem_of_cons, IH. case_decide; subst; naive_solver.
Qed.
End BTreeFacts.

(** ** Bindings of one group *)

Lemma existsb_index (b : nat) (l : list GroupBinding) :
  existsb (fun x => gb_binding_index x =? b) l = true <-> b ∈ map gb_binding_index l.
Proof.
  induction l as [|x l IH]; cbn [existsb map].
  - split; [done|set_solver].
  - rewrite orb_true_iff, IH, Nat.eqb_eq, elem_of_cons. naive_solver.
Qed.

Lemma elem_of_insert_by_index (x : GroupBinding) (l : list GroupBinding) (b : nat) :
  b ∈ map gb_binding_index (insert_by_index x l)
  <-> b = gb_binding_index x \/ b ∈ map gb_binding_index l.
Proof.
  induction l as [|y l IH]; cbn [insert_by_index map].
  - set_solver.
  - case_decide; cbn [map]; rewrite ?elem_of_cons, ?IH; naive_solver.
Qed.

Lemma insert_by_index_sorted (x : GroupBinding) (l : list GroupBinding) :
  StronglySorted lt (map gb_binding_index l) ->
  gb_binding_index x ∉ map gb_binding_index l ->
  StronglySorted lt (map gb_binding_index (insert_by_index x l)).
Proof.
  induction l as [|y l IH]; cbn [insert_by_index map].
  - intros _ _. repeat constructor.
  - intros Hs Hn. apply StronglySorted_cons in Hs as [Hf Hs]. rewrite elem_of_cons in Hn.
    case_decide; cbn [map].
    + constructor; [by apply StronglySorted_cons|]. constructor; [lia|].
      eapply Forall_impl; [exact Hf|]. intros; lia.
    + constructor; [apply IH; naive_solver|]. apply Forall_forall.
      intros z Hz%elem_of_insert_by_index. destruct Hz as [->|Hz]; [lia|].
      by eapply Forall_forall in Hf.
Qed.

Lemma insert_by_index_nonempty (x : GroupBinding) (l : list GroupBinding) :
  insert_by_index x l <> [].
Proof. destruct l; cbn [insert_by_index]; [done|]. by case_decide. Qed.

(** ** One step of the collection *)

Lemma table_inv_nil : table_inv [] [].
Proof.
  split; [constructor|]. split; [done|].
  intros g b. unfold group_bindings. cbn. set_solver.
Qed.

Lemma table_inv_keys gs P g :
  table_inv gs P -> g ∈ bt_keys gs <-> g ∈ map fst P.
Proof.
  intros (_ & Hne & Hp). rewrite elem_of_bt_keys, elem_of_map_iff. split.
  - intros [d Hd]. destruct (Hne g d Hd) as [Hd1 _].
    destruct (bindings d) as [|x l] eqn:El; [done|].
    exists (g, gb_binding_index x). split; [done|]. apply Hp.
    unfold group_bindings. rewrite Hd, El. set_solver.
  - intros [[g' b] [-> Hin]]. apply Hp in Hin. unfold group_bindings in Hin.
    cbn [fst]. destruct (bt_get g' gs); [done|set_solver].
Qed.

Lemma binding_pair_some gv g b :
  binding_pair gv = Some (g, b) ->
  exists rb, gv_binding gv = Some rb /\ group rb = g /\ binding rb = b.
Proof. unfold binding_pair. destruct (gv_binding gv); naive_solver. Qed.

Lemma collect_binding_none gs gv :
  binding_pair gv = None -> collect_binding gs gv = Ok gs.
Proof. unfold binding_pair, collect_binding. by destruct (gv_binding gv). Qed.

Lemma collect_binding_dup gs P gv g b :
  table_inv gs P -> binding_pair gv = Some (g, b) -> (g, b) ∈ P ->
  collect_binding gs gv = Err (DuplicateBinding b).
Proof.
  intros (_ & _ & Hp) (rb & Hrb & <- & <-)%binding_pair_some Hin.
  unfold collect_binding. rewrite Hrb. apply Hp, existsb_index in Hin. by rewrite Hin.
Qed.

Lemma collect_binding_new gs P gv g b :
  table_inv gs P -> binding_pair gv = Some (g, b) -> (g, b) ∉ P ->
  exists gs', collect_binding gs gv = Ok gs' /\ table_inv gs' ((g, b) :: P).
Proof.
  intros (Hs & Hne & Hp) (rb & Hrb & <- & <-)%binding_pair_some Hin.
  unfold collect_binding. rewrite Hrb.
  destruct (existsb _ _) eqn:E.
  { apply existsb_index, Hp in E. done. }
  eexists; split; [reflexivity|]. split; [by apply bt_insert_sorted|]. split.
  - intros g' d. rewrite bt_get_insert. case_decide; subst.
    + intros [= <-]. cbn [bindings]. split; [apply insert_by_index_nonempty|].
      apply insert_by_index_sorted; [|by rewrite Hp].
      unfold group_bindings. destruct (bt_get _ gs) eqn:Eg; [|constructor].
      by apply (Hne _ _ Eg).
    + apply Hne.
  - intros g' b'. unfold group_bindings at 1. rewrite bt_get_insert, elem_of_cons.
    case_decide; subst; cbn [bindings].
    + rewrite elem_of_insert_by_index, Hp. cbn. naive_solver.
    + rewrite <- Hp. unfold group_bindings. naive_solver.
Qed.

(** ** The whole collection against the reference specification *)

Lemma used_pairs_cons gv gvs :
  used_pairs (gv :: gvs) =
  match binding_pair gv with Some p => p :: used_pairs gvs | None => used_pairs gvs end.
Proof. reflexivity. Qed.

(** The collection fails exactly at the first repeated pair, and
    otherwise files every pair. *)
Lemma collect_bindings_correct gvs : forall gs P,
  table_inv gs P ->
  (first_dup P (used_pairs gvs) = None /\
     exists gs', collect_bindings gs gvs = Ok gs' /\
                 table_inv gs' (rev (used_pairs gvs) ++ P))
  \/ (exists b, first_dup P (used_pairs gvs) = Some b /\
                collect_bindings gs gvs = Err (DuplicateBinding b)).
Proof.
  induction gvs as [|gv gvs IH]; intros gs P Hinv.
  { left. split; [done|]. by exists gs. }
  rewrite used_pairs_cons. cbn [collect_bindings].
  destruct (binding_pair gv) as [[g b]|] eqn:Hgv.
  - cbn [first_dup]. case_decide as Hin.
    + right. exists b. split; [done|].
      by rewrite (collect_binding_dup gs P gv g b).
    + destruct (collect_binding_new gs P gv g b) as (gs' & -> & Hinv'); [done..|].
      cbn [res_bind]. destruct (IH gs' _ Hinv') as [[H1 (gs'' & H2 & H3)]|H]; [|by right].
      left. split; [done|]. exists gs''. split; [done|].
      cbn [rev]. by rewrite <- app_assoc.
  - rewrite collect_binding_none by done. cbn [res_bind]. by apply IH.
Qed.

Lemma first_dup_none seen ps :
  first_dup seen ps = None <-> NoDup ps /\ (forall p, p ∈ ps -> p ∉ seen).
Proof.
  revert seen. induction ps as [|p ps IH]; intros seen; cbn [first_dup].
  - split; [intros _; split; [constructor|set_solver]|done].
  - case_decide as Hin.
    + split; [done|]. intros [_ Hn]. exfalso. apply (Hn p); [set_solver|done].
    + rewrite IH, NoDup_cons. split.
      * intros [Hnd Hn]. split; [split; [intros Hp; apply (Hn p Hp); set_solver|done]|].
        intros q Hq. apply elem_of_cons in Hq as [->|Hq]; [done|].
        intros Hs. apply (Hn q Hq). set_solver.
      * intros [[Hp Hnd] Hn]. split; [done|]. intros q Hq Hs.
        apply elem_of_cons in Hs as [->|Hs]; [done|]. apply (Hn q); set_solver.
Qed.

Lemma downward_closed_proper (l1 l2 : list nat) :
  (forall x, x ∈ l1 <-> x ∈ l2) -> downward_closed l1 -> downward_closed l2.
Proof. intros Heq Hd x Hx y Hy. apply Heq. apply (Hd x); [by apply Heq|done]. Qed.

(** A collected table's keys are exactly the groups in use, so the
    consecutiveness check decides whether those groups form [0..n]. *)
Lemma groups_consecutive_iff gs P :
  table_inv gs P ->
  groups_consecutive gs = true <-> downward_closed (map fst P).
Proof.
  intros Hinv. assert (Hk : forall x, x ∈ bt_keys gs <-> x ∈ map fst P)
    by (intros x; by apply table_inv_keys).
  destruct Hinv as [Hs _].
  unfold groups_consecutive. rewrite bool_decide_eq_true. split.
  - intros Heq. apply (downward_closed_proper (bt_keys gs)); [done|].
    rewrite Heq. apply seq_downward_closed.
  - intros Hd. replace (length gs) with (length (bt_keys gs)) by apply length_map.
    apply downward_closed_seq; [done|].
    apply (downward_closed_proper (map fst P)); [|done]. intros x. by rewrite Hk.
Qed.

Lemma get_bind_group_data_keys m gs :
  get_bind_group_data m = Ok gs -> bt_keys gs = seq 0 (length gs).
Proof.
  unfold get_bind_group_data. intros (gs' & _ & H)%res_bind_eq_ok.
  unfold groups_consecutive in H. case_bool_decide; congruence.
Qed.

Lemma elem_of_rev_nil {A} (x : A) (l : list A) : x ∈ rev l ++ [] <-> x ∈ l.
Proof. rewrite app_nil_r, !list_elem_of_In. symmetry. apply in_rev. Qed.

Lemma map_fst_rev_nil (x : nat) (l : list (nat * nat)) :
  x ∈ map fst (rev l ++ []) <-> x ∈ map fst l.
Proof. rewrite !elem_of_map_iff. by setoid_rewrite elem_of_rev_nil. Qed.

(** ** The analyzer's contract *)

(** C5: a repeated [(group, binding)] pair is reported as
    [DuplicateBinding b], [b] being the binding index of the first
    variable (in declaration order) whose pair was already taken; and
    only then. *)
Theorem get_bind_group_data_duplicate (m : Module) (b : nat) :
  get_bind_group_data m = Err (DuplicateBinding b) <->
  first_dup [] (used_pairs (global_variables m)) = Some b.
Proof.
  unfold get_bind_group_data.
  destruct (collect_bindings_correct (global_variables m) [] [] table_inv_nil)
    as [[Hn (gs & -> & _)]|(b' & Hd & ->)]; cbn [res_bind].
  - rewrite Hn. split; [|done]. by destruct (groups_consecutive gs).
  - rewrite Hd. split; intros H; by simplify_eq.
Qed.

(** C7: a successful analysis has no repeated pair, numbers its groups
    [0..n] in ascending order, files exactly the declared pairs, and
    keeps each group's bindings in increasing binding order. *)
Theorem get_bind_group_data_ok (m : Module) (gs : BindGroupData) :
  get_bind_group_data m = Ok gs ->
  NoDup (used_pairs (global_variables m)) /\
  bt_keys gs = seq 0 (length gs) /\
  (forall g b, b ∈ map gb_binding_index (group_bindings g gs)
               <-> (g, b) ∈ used_pairs (global_variables m)) /\
  (forall g d, bt_get g gs = Some d -> StronglySorted lt (map gb_binding_index (bindings d))).
Proof.
  unfold get_bind_group_data.
  destruct (collect_bindings_correct (global_variables m) [] [] table_inv_nil)
    as [[Hn (gs' & -> & Hinv)]|(b' & Hd & ->)]; cbn [res_bind]; [|done].
  destruct (groups_consecutive gs') eqn:Hc; intros H; simplify_eq.
  apply first_dup_none in Hn as [Hnd _].
  destruct Hinv as (Hs & Hne & Hp).
  split; [done|]. split; [by apply bool_decide_eq_true in Hc|]. split.
  - intros g b. by rewrite Hp, elem_of_rev_nil.
  - intros g d Hd. by apply (Hne g d).
Qed.

(** C6: when no pair repeats, the analysis fails with
    [NonConsecutiveBindGroups] exactly when the groups in use are not
    [0..n] (are not downward closed). *)
Theorem get_bind_group_data_nonconsecutive (m : Module) :
  NoDup (used_pairs (global_variables m)) ->
  get_bind_group_data m = Err NonConsecutiveBindGroups <->
  ~ downward_closed (used_groups m).
Proof.
  intros Hnd. unfold get_bind_group_data, used_groups.
  destruct (collect_bindings_correct (global_variables m) [] [] table_inv_nil)
    as [[Hn (gs & -> & Hinv)]|(b' & Hd & _)].
  2:{ assert (first_dup [] (used_pairs (global_variables m)) = None) by
        (apply first_dup_none; set_solver). congruence. }
  cbn [res_bind]. pose proof (groups_consecutive_iff _ _ Hinv) as Hc.
  assert (Hd : downward_closed (map fst (rev (used_pairs (global_variables m)) ++ []))
               <-> downward_closed (map fst (used_pairs (global_variables m)))).
  { split; apply downward_closed_proper; intros x; by rewrite map_fst_rev_nil. }
  destruct (groups_consecutive gs) eqn:Hg; split; intros H; try done.
  - exfalso. apply H, Hd, Hc. done.
  - intros Hdc. apply Hd, Hc in Hdc. congruence.
Qed.

(** C8: the analysis succeeds exactly when no [(group, binding)] pair
    repeats and the groups in use are [0..n]. *)
Theorem get_bind_group_data_succeeds (m : Module) :
  (exists gs, get_bind_group_data m = Ok gs) <->
  NoDup (used_pairs (global_variables m)) /\ downward_closed (used_groups m).
Proof.
  unfold get_bind_group_data, used_groups.
  assert (Hd : forall P, downward_closed (map fst (rev P ++ [])) <-> downward_closed (map fst P))
    by (split; apply downward_closed_proper; intros x; by rewrite map_fst_rev_nil).
  destruct (collect_bindings_correct (global_variables m) [] [] table_inv_nil)
    as [[Hn (gs & -> & Hinv)]|(b' & Hdup & ->)]; cbn [res_bind].
  - apply first_dup_none in Hn as [Hnd _]. rewrite <- Hd, <- (groups_consecutive_iff _ _ Hinv).
    destruct (groups_consecutive gs); split; [eauto|eauto|intros []; done|intros []; done].
  - split; [intros []; done|]. intros [Hnd _].
    assert (first_dup [] (used_pairs (global_variables m)) = None)
      by (apply first_dup_none; set_solver). congruence.
Qed.

(** ** Witnesses: the examples of the specification (section 8) and
    the tests of [lib.rs] *)

(** Two variables at [(0, 2)]: [DuplicateBinding 2]. *)
Lemma get_bind_group_data_duplicate_witness :
  get_bind_group_data
    {| types := []; entry_points := [];
       global_variables :=
         [{| gv_name := Some (lit "a"); gv_space := Uniform; gv_ty := 0;
             gv_binding := Some {| group := 0; binding := 2 |} |};
          {| gv_name := Some (lit "b"); gv_space := Uniform; gv_ty := 0;
             gv_binding := Some {| group := 0; binding := 2 |} |}] |}
  = Err (DuplicateBinding 2).
Proof. apply get_bind_group_data_duplicate. vm_compute. reflexivity. Defined.

(** Groups [{0, 1}] with the same struct type: accepted, keys [0; 1]. *)
Lemma get_bind_group_data_ok_witness :
  match get_bind_group_data
      {| types := []; entry_points := [];
         global_variables :=
           [{| gv_name := Some (lit "a"); gv_space := Uniform; gv_ty := 0;
               gv_binding := Some {| group := 0; binding := 0 |} |};
            {| gv_name := Some (lit "b"); gv_space := Uniform; gv_ty := 0;
               gv_binding := Some {| group := 1; binding := 0 |} |}] |} with
  | Ok gs => bt_keys gs = seq 0 (length gs)
  | Err _ => False
  end.
Proof.
  destruct (get_bind_group_data _) as [gs|e] eqn:E.
  - exact (proj1 (proj2 (get_bind_group_data_ok _ gs E))).
  - vm_compute in E. discriminate.
Defined.

(** Groups [{0, 1, 3}]: [NonConsecutiveBindGroups]. *)
Lemma get_bind_group_data_nonconsecutive_witness :
  ~ downward_closed (used_groups
    {| types := []; entry_points := [];
       global_variables :=
         [{| gv_name := Some (lit "a"); gv_space := Uniform; gv_ty := 0;
             gv_binding := Some {| group := 0; binding := 0 |} |};
          {| gv_name := Some (lit "b"); gv_space := Uniform; gv_ty := 0;
             gv_binding := Some {| group := 1; binding := 0 |} |};
          {| gv_name := Some (lit "c"); gv_space := Uniform; gv_ty := 0;
             gv_binding := Some {| group := 3; binding := 0 |} |}] |}).
Proof.
  apply get_bind_group_data_nonconsecutive;
    [apply (bool_decide_unpack _); vm_compute; reflexivity | vm_compute; reflexivity].
Defined.

End BindGroup.
