(* ===== verification/Emit.v ===== *)
(** * Emit: the emitted Rust code as data

    The generator builds [proc_macro2::TokenStream]s with [quote!].  Here a
    token stream is a list of [Item]s, one constructor per shape of item
    the code of [src/wgsl_bindgen/src/lib.rs] writes, carrying every value
    that [quote!] interpolates (identifiers, literals, array lengths).
    Concatenating token streams ([quote!{#a #b}]) is list append, and the
    empty [quote!()] is the empty list.  Items produced by collaborators
    outside [src/] (struct definitions, bind group modules, the prelude)
    are [Opaque], named by what produced them. *)

From S2P Require Import Prelude Naga.
Import Naga.

(** [wgpu::VertexFormat], the variants the vertex generator can name. *)
Inductive VertexFormat :=
| Float32 | Float32x2 | Float32x3 | Float32x4
| Float64 | Float64x2 | Float64x3 | Float64x4
| Sint32 | Sint32x2 | Sint32x3 | Sint32x4
| Uint32 | Uint32x2 | Uint32x3 | Uint32x4.

#[export] Instance VertexFormat_eq_dec : EqDecision VertexFormat.
Proof. solve_decision. Defined.

(** One [wgpu::VertexAttribute { format, offset: offset_of!(S, f), shader_location }]. *)
Record VertexAttributeTok := {
  va_format : VertexFormat;
  va_struct : str;
  va_field : str;
  va_location : nat
}.

(** [wgpu::ShaderStages]: the stages a binding is visible to. *)
Record ShaderStages := { st_vertex : bool; st_fragment : bool; st_compute : bool }.

(** One [composer.add_composable_module(...)] call of [init_composer]. *)
Record ComposableDep := {
  cd_file_path : str;
  cd_as_name : option str
}.

Inductive Item :=
(** [pub const NAME: &str = "value";] *)
| ConstStr (name value : str)
(** [pub const NAME: [u32; 3] = [x, y, z];] *)
| ConstWorkgroupSize (name : str) (size : nat * nat * nat)
(** [pub fn create_<e>_pipeline(device) -> wgpu::ComputePipeline], with
    [label: Some("...")] and [entry_point: "..."] *)
| ComputePipelineFn (fn_name label entry_point : str)
(** [pub mod name { body }] *)
| ModItem (name : str) (body : list Item)
(** [pub struct VertexEntry<const N: usize> { .. }] *)
| VertexEntryStructDecl
(** [pub fn vertex_state(module, entry) -> wgpu::VertexState] *)
| VertexStateFn
(** [pub fn <e>_entry(p1: VertexStepMode, ..) -> VertexEntry<n>
      { entry_point: ENTRY_.., buffers: [S1::vertex_buffer_layout(p1), ..] }] *)
| VertexEntryFn (fn_name : str) (params : list str) (n : nat) (entry_const : str)
                (buffers : list (str * str))
(** [impl S { pub const VERTEX_ATTRIBUTES: [wgpu::VertexAttribute; count] = [..];
      pub const fn vertex_buffer_layout(..) }] *)
| VertexImpl (struct_name : str) (count : nat) (attributes : list VertexAttributeTok)
(** [pub fn create_pipeline_layout(device)] with
    [bind_group_layouts: &[bind_groups::BindGroupK::get_bind_group_layout(device), ..]] *)
| PipelineLayoutFn (bind_group_layouts : list str)
(** [pub fn create_shader_module(device)] over the embedded [SHADER_STRING] *)
| CreateShaderModuleEmbedded
(** [const SHADER_STRING: &'static str = <literal>;], with the literal's
    source text *)
| ShaderStringConst (literal : str)
(** [pub fn init_composer() -> naga_oil::compose::Composer] *)
| InitComposerFn (deps : list ComposableDep)
(** [pub fn make_naga_module(composer)] over the entry's source file *)
| MakeNagaModuleFn (entry_path : str)
(** [pub fn naga_module_to_string(module)] *)
| NagaModuleToStringFn
(** [pub fn create_shader_module(device)] through the composer *)
| CreateShaderModuleComposer
(** an item produced by a collaborator outside [src/] *)
| Opaque (origin : str).

Abbreviation TokenStream := (list Item).

(** Decidable equality of items (nested through [ModItem]'s body). *)
#[export] Instance VertexAttributeTok_eq_dec : EqDecision VertexAttributeTok.
Proof. solve_decision. Defined.
#[export] Instance ComposableDep_eq_dec : EqDecision ComposableDep.
Proof. solve_decision. Defined.
#[export] Instance ShaderStages_eq_dec : EqDecision ShaderStages.
Proof. solve_decision. Defined.
#[export] Instance Item_eq_dec : EqDecision Item.
Proof.
  refine (fix go (x y : Item) {struct x} : Decision (x = y) :=
    match x, y with
    | ConstStr a b, ConstStr c d => cast_if_and (decide (a = c)) (decide (b = d))
    | ConstWorkgroupSize a b, ConstWorkgroupSize c d => cast_if_and (decide (a = c)) (decide (b = d))
    | ComputePipelineFn a b c, ComputePipelineFn a' b' c' =>
        cast_if_and3 (decide (a = a')) (decide (b = b')) (decide (c = c'))
    | ModItem n1 b1, ModItem n2 b2 => cast_if_and (decide (n1 = n2)) (@list_eq_dec _ go b1 b2)
    | VertexEntryStructDecl, VertexEntryStructDecl => left _
    | VertexStateFn, VertexStateFn => left _
    | VertexEntryFn a b c d e, VertexEntryFn a' b' c' d' e' =>
        cast_if_and5 (decide (a = a')) (decide (b = b')) (decide (c = c')) (decide (d = d')) (decide (e = e'))
    | VertexImpl a b c, VertexImpl a' b' c' =>
        cast_if_and3 (decide (a = a')) (decide (b = b')) (decide (c = c'))
    | PipelineLayoutFn a, PipelineLayoutFn a' => cast_if (decide (a = a'))
    | CreateShaderModuleEmbedded, CreateShaderModuleEmbedded => left _
    | ShaderStringConst a, ShaderStringConst a' => cast_if (decide (a = a'))
    | InitComposerFn a, InitComposerFn a' => cast_if (decide (a = a'))
    | MakeNagaModuleFn a, MakeNagaModuleFn a' => cast_if (decide (a = a'))
    | NagaModuleToStringFn, NagaModuleToStringFn => left _
    | CreateShaderModuleComposer, CreateShaderModuleComposer => left _
    | Opaque a, Opaque a' => cast_if (decide (a = a'))
    | _, _ => right _
    end); clear go; abstract (try destruct x; try destruct y; congruence).
Defined.
