(* ===== verification/EntryPoints.v ===== *)
(** * EntryPoints: the per-entry-point generators of [lib.rs]

    The functions of [src/wgsl_bindgen/src/lib.rs] that turn a shader
    module's entry points into items: [compute_module] (with
    [workgroup_size] and [create_compute_pipeline]),
    [entry_point_constants], [vertex_states], [vertex_input_structs] and
    [vertex_struct_methods].  They rely on two helpers of module [wgsl]
    (outside [src/], modelled from spec section 4.4):
    [get_vertex_input_structs], the struct-typed inputs of the vertex entry
    points with their [@location] fields sorted by location (one per struct
    name), and [vertex_format], the vertex format of a field type.

    A Rust [unwrap] that can panic (a field without a name, a type without
    a vertex format) makes the result [None]. *)

From S2P Require Import Prelude Naga Emit.
Import Naga.

Module EntryPoints.

(** ** Helpers of module [wgsl] (from the specification) *)

(** [wgsl::VertexInput]. *)
Record VertexInput := {
  vi_name : str;
  vi_fields : list (nat * StructMember)
}.

Definition member_location (mem : StructMember) : option (nat * StructMember) :=
  match m_binding mem with
  | Some (Location l) => Some (l, mem)
  | _ => None
  end.

Fixpoint insert_by_location (f : nat * StructMember) (l : list (nat * StructMember))
  : list (nat * StructMember) :=
  match l with
  | [] => [f]
  | g :: l' => if decide (f.1 <= g.1) then f :: l else g :: insert_by_location f l'
  end.

Definition sort_by_location (l : list (nat * StructMember)) : list (nat * StructMember) :=
  fold_right insert_by_location [] l.

(** A vertex-stage argument without a binding whose type is a named
    struct gives one vertex input. *)
Definition struct_input_of (m : Module) (a : FunctionArgument) : option VertexInput :=
  match arg_binding a with
  | Some _ => None
  | None =>
      match types m !! arg_ty a with
      | Some {| ty_name := Some n; ty_inner := TStruct members _ |} =>
          Some {| vi_name := n; vi_fields := sort_by_location (omap member_location members) |}
      | _ => None
      end
  end.

(** Keeps the first input of each struct name. *)
Fixpoint dedup_inputs (seen : list str) (l : list VertexInput) : list VertexInput :=
  match l with
  | [] => []
  | i :: l' =>
      if decide (vi_name i ∈ seen) then dedup_inputs seen l'
      else i :: dedup_inputs (vi_name i :: seen) l'
  end.

Definition is_vertex (e : EntryPoint) : bool := bool_decide (ep_stage e = Vertex).
Definition is_compute (e : EntryPoint) : bool := bool_decide (ep_stage e = Compute).

Definition get_vertex_input_structs (m : Module) : list VertexInput :=
  dedup_inputs []
    (concat (map (fun e => omap (struct_input_of m) (ep_arguments e))
                 (List.filter is_vertex (entry_points m)))).

Definition scalar_format (k : ScalarKind) (w n : nat) : option VertexFormat :=
  match k, w, n with
  | Float, 4, 1 => Some Float32 | Float, 4, 2 => Some Float32x2
  | Float, 4, 3 => Some Float32x3 | Float, 4, 4 => Some Float32x4
  | Float, 8, 1 => Some Float64 | Float, 8, 2 => Some Float64x2
  | Float, 8, 3 => Some Float64x3 | Float, 8, 4 => Some Float64x4
  | Sint, 4, 1 => Some Sint32 | Sint, 4, 2 => Some Sint32x2
  | Sint, 4, 3 => Some Sint32x3 | Sint, 4, 4 => Some Sint32x4
  | Uint, 4, 1 => Some Uint32 | Uint, 4, 2 => Some Uint32x2
  | Uint, 4, 3 => Some Uint32x3 | Uint, 4, 4 => Some Uint32x4
  | _, _, _ => None
  end.

(** [wgsl::vertex_format]: scalars and vectors of 32-bit numbers and
    64-bit floats. *)
Definition vertex_format (t : Type_) : option VertexFormat :=
  match ty_inner t with
  | TScalar s => scalar_format (kind s) (width s) 1
  | TVector v s => scalar_format (kind s) (width s) (vector_size_n v)
  | _ => None
  end.

(** ** [lib.rs] *)

(** [workgroup_size]: [pub const <E>_WORKGROUP_SIZE: [u32; 3] = [x, y, z];]. *)
Definition workgroup_size (e : EntryPoint) : TokenStream :=
  [ConstWorkgroupSize (to_uppercase (ep_name e) ++ lit "_WORKGROUP_SIZE") (ep_workgroup_size e)].

(** [create_compute_pipeline]. *)
Definition create_compute_pipeline (e : EntryPoint) : TokenStream :=
  [ComputePipelineFn (lit "create_" ++ ep_name e ++ lit "_pipeline")
                     (lit "Compute Pipeline " ++ ep_name e) (ep_name e)].

(** The [filter_map] closure of [compute_module]. *)
Definition compute_entry (e : EntryPoint) : option TokenStream :=
  if decide (ep_stage e = Compute)
  then Some (workgroup_size e ++ create_compute_pipeline e) else None.

(** [compute_module]: a [compute] module for the compute entry points,
    nothing when there are none. *)
Definition compute_module (m : Module) : TokenStream :=
  let entry_points := omap compute_entry (entry_points m) in
  match entry_points with
  | [] => []
  | _ => [ModItem (lit "compute") (concat entry_points)]
  end.

Definition entry_const_name (e : EntryPoint) : str := lit "ENTRY_" ++ to_uppercase (ep_name e).

(** [entry_point_constants]: [pub const ENTRY_<E>: &str = "<e>";] per entry. *)
Definition entry_point_constants (m : Module) : TokenStream :=
  map (fun e => ConstStr (entry_const_name e) (ep_name e)) (entry_points m).

Section WithSnake.
(** [CaseExt::to_snake] of the [case] crate. *)
Variable to_snake : str -> str.

(** The [map] over the vertex inputs that also pushes onto the mutable
    [step_mode_params], as explicit state: (params, layout expressions). *)
Definition vertex_layout_step (acc : list str * list (str * str)) (input : VertexInput)
  : list str * list (str * str) :=
  let '(ps, ls) := acc in
  let step_mode := to_snake (vi_name input) in
  (ps ++ [step_mode], ls ++ [(vi_name input, step_mode)]).

Definition vertex_layouts (inputs : list VertexInput) : list str * list (str * str) :=
  fold_left vertex_layout_step inputs ([], []).

(** The [filter_map] closure of [vertex_states]. *)
Definition vertex_entry (step_mode_params : list str) (n : nat)
           (layout_expressions : list (str * str)) (e : EntryPoint) : option Item :=
  match ep_stage e with
  | Vertex =>
      Some (VertexEntryFn (ep_name e ++ lit "_entry") step_mode_params n
                          (entry_const_name e) layout_expressions)
  | _ => None
  end.

(** [vertex_states]: the [VertexEntry] scaffolding and one
    [<e>_entry] function per vertex entry point, nothing without them. *)
Definition vertex_states (m : Module) : TokenStream :=
  let vertex_inputs := get_vertex_input_structs m in
  let '(step_mode_params, layout_expressions) := vertex_layouts vertex_inputs in
  let vertex_entries :=
    omap (vertex_entry step_mode_params (length vertex_inputs) layout_expressions)
         (entry_points m) in
  match vertex_entries with
  | [] => []
  | _ => VertexEntryStructDecl :: VertexStateFn :: vertex_entries
  end.
End WithSnake.

(** One attribute of [VERTEX_ATTRIBUTES]; the field name is unwrapped. *)
Definition vertex_attribute (m : Module) (name : str) (field : nat * StructMember)
  : option VertexAttributeTok :=
  let '(location, mem) := field in
  match m_name mem, types m !! m_ty mem with
  | Some field_name, Some ty =>
      (fun f => {| va_format := f; va_struct := name; va_field := field_name;
                   va_location := location |}) <$> vertex_format ty
  | _, _ => None
  end.

(** [vertex_input_structs]: one [impl S { VERTEX_ATTRIBUTES; vertex_buffer_layout }]
    per vertex input, the array length being the number of fields. *)
Definition vertex_input_structs (m : Module) : option (list TokenStream) :=
  mapM (fun input =>
          (fun attributes => [VertexImpl (vi_name input) (length (vi_fields input)) attributes])
            <$> mapM (vertex_attribute m (vi_name input)) (vi_fields input))
       (get_vertex_input_structs m).

(** [vertex_struct_methods]. *)
Definition vertex_struct_methods (m : Module) : option TokenStream :=
  (@concat Item) <$> vertex_input_structs m.

(** ** A declarative reference for [vertex_states]

    No mutable parameter list and no [filter_map]: the vertex entry
    points, each with every input's step mode and layout. *)
Definition vertex_entry_fn_ref (ts : str -> str) (inputs : list VertexInput) (e : EntryPoint) : Item :=
  VertexEntryFn (ep_name e ++ lit "_entry") (map (fun i => ts (vi_name i)) inputs)
                (length inputs) (entry_const_name e)
                (map (fun i => (vi_name i, ts (vi_name i))) inputs).

Definition vertex_states_ref (ts : str -> str) (m : Module) : TokenStream :=
  let inputs := get_vertex_input_structs m in
  match List.filter is_vertex (entry_points m) with
  | [] => []
  | es => VertexEntryStructDecl :: VertexStateFn :: map (vertex_entry_fn_ref ts inputs) es
  end.

(** ** Example shaders: the tests of [lib.rs] *)

Definition f32 : Scalar := {| kind := Float; width := 4 |}.

Definition ex_entry (name : string) (stage : ShaderStage) (wg : nat * nat * nat)
           (args : list FunctionArgument) : EntryPoint :=
  {| ep_name := lit name; ep_stage := stage; ep_workgroup_size := wg;
     ep_arguments := args |}.

Definition ex_struct_arg (ty : nat) : FunctionArgument :=
  {| arg_name := None; arg_ty := ty; arg_binding := None |}.

Definition ex_field (name : string) (ty loc : nat) : StructMember :=
  {| m_name := Some (lit name); m_ty := ty; m_binding := Some (Location loc); m_offset := 0 |}.

(** [write_compute_module_multiple_entries]: [@workgroup_size(1,2,3) fn main1],
    [@workgroup_size(256) fn main2]. *)
Definition ex_compute : Module :=
  {| types := []; global_variables := [];
     entry_points := [ex_entry "main1" Compute (1, 2, 3) [];
                      ex_entry "main2" Compute (256, 1, 1) []] |}.

Definition ex_compute_body : TokenStream :=
  [ConstWorkgroupSize (lit "MAIN1_WORKGROUP_SIZE") (1, 2, 3);
   ComputePipelineFn (lit "create_main1_pipeline") (lit "Compute Pipeline main1") (lit "main1");
   ConstWorkgroupSize (lit "MAIN2_WORKGROUP_SIZE") (256, 1, 1);
   ComputePipelineFn (lit "create_main2_pipeline") (lit "Compute Pipeline main2") (lit "main2")].

(** [write_vertex_module_single_input_float32]: [VertexInput0] with
    [f32], [vec2<f32>], [vec3<f32>], [vec4<f32>] at locations 0 to 3. *)
Definition ex_vertex_float32 : Module :=
  {| types := [{| ty_name := None; ty_inner := TScalar f32 |};
               {| ty_name := None; ty_inner := TVector Bi f32 |};
               {| ty_name := None; ty_inner := TVector Tri f32 |};
               {| ty_name := None; ty_inner := TVector Quad f32 |};
               {| ty_name := Some (lit "VertexInput0");
                  ty_inner := TStruct [ex_field "a" 0 0; ex_field "b" 1 1;
                                       ex_field "c" 2 2; ex_field "d" 3 3] 64 |}];
     global_variables := [];
     entry_points := [ex_entry "main" Vertex (0, 0, 0) [ex_struct_arg 4]] |}.

(** Its expected [VERTEX_ATTRIBUTES]: formats [Float32] to [Float32x4]. *)
Definition ex_float32_attributes : list VertexAttributeTok :=
  [{| va_format := Float32; va_struct := lit "VertexInput0"; va_field := lit "a"; va_location := 0 |};
   {| va_format := Float32x2; va_struct := lit "VertexInput0"; va_field := lit "b"; va_location := 1 |};
   {| va_format := Float32x3; va_struct := lit "VertexInput0"; va_field := lit "c"; va_location := 2 |};
   {| va_format := Float32x4; va_struct := lit "VertexInput0"; va_field := lit "d"; va_location := 3 |}].

(** [write_vertex_shader_multiple_entries]: [vs_main_1] and [vs_main_2]
    both take [VertexInput]. *)
Definition ex_two_vertex : Module :=
  {| types := [{| ty_name := None; ty_inner := TVector Quad f32 |};
               {| ty_name := Some (lit "VertexInput");
                  ty_inner := TStruct [ex_field "position" 0 0] 16 |}];
     global_variables := [];
     entry_points := [ex_entry "vs_main_1" Vertex (0, 0, 0) [ex_struct_arg 1];
                      ex_entry "vs_main_2" Vertex (0, 0, 0) [ex_struct_arg 1]] |}.

(** Two fragment entry points whose names differ only in case. *)
Definition ex_case_names : Module :=
  {| types := []; global_variables := [];
     entry_points := [ex_entry "main" Fragment (0, 0, 0) [];
                      ex_entry "MAIN" Fragment (0, 0, 0) []] |}.

(** ** Compute entry points *)

Lemma compute_entry_some e ts :
  compute_entry e = Some ts <->
  ep_stage e = Compute /\ ts = workgroup_size e ++ create_compute_pipeline e.
Proof. unfold compute_entry. case_decide; naive_solver. Qed.

(** C18: the [compute] module is left out exactly when the shader has no
    compute entry point (no empty scaffolding). *)
Theorem compute_module_nil_iff (m : Module) :
  compute_module m = [] <-> Forall (fun e => ep_stage e <> Compute) (entry_points m).
Proof.
  unfold compute_module. rewrite Forall_forall.
  destruct (omap compute_entry (entry_points m)) as [|ts l] eqn:E.
  - rewrite omap_nil_iff in E. split; [|done]. intros _ e He Hc.
    specialize (E e He). unfold compute_entry in E. by rewrite decide_True in E.
  - split; [done|]. intros Hf.
    assert (Hin : ts ∈ omap compute_entry (entry_points m)) by (rewrite E; set_solver).
    apply list_elem_of_omap in Hin as (e & He & (Hc & _)%compute_entry_some).
    exfalso. by apply (Hf e He).
Qed.

Lemma elem_of_compute_items (x : Item) (m : Module) :
  x ∈ concat (omap compute_entry (entry_points m)) <->
  exists e, e ∈ entry_points m /\ ep_stage e = Compute /\
            x ∈ workgroup_size e ++ create_compute_pipeline e.
Proof.
  rewrite elem_of_concat_iff. split.
  - intros (ts & Hts & Hx). apply list_elem_of_omap in Hts as (e & He & Hs).
    apply compute_entry_some in Hs as [Hc ->]. eauto.
  - intros (e & He & Hc & Hx). eexists. split; [|exact Hx].
    apply list_elem_of_omap. exists e. split; [done|]. by apply compute_entry_some.
Qed.

(** C17: the [compute] module holds, for exactly the compute entry points,
    a pipeline constructor [create_<e>_pipeline] for entry point [<e>]
    labelled [Compute Pipeline <e>], and the workgroup size constant
    [<E>_WORKGROUP_SIZE] with the entry point's workgroup size. *)
Theorem compute_module_items (m : Module) (body : TokenStream) :
  compute_module m = [ModItem (lit "compute") body] ->
  (forall f l n, ComputePipelineFn f l n ∈ body <->
     exists e, e ∈ entry_points m /\ ep_stage e = Compute /\ n = ep_name e /\
               f = lit "create_" ++ ep_name e ++ lit "_pipeline" /\
               l = lit "Compute Pipeline " ++ ep_name e) /\
  (forall c sz, ConstWorkgroupSize c sz ∈ body <->
     exists e, e ∈ entry_points m /\ ep_stage e = Compute /\
               c = to_uppercase (ep_name e) ++ lit "_WORKGROUP_SIZE" /\
               sz = ep_workgroup_size e).
Proof.
  unfold compute_module. destruct (omap compute_entry (entry_points m)) eqn:E; [done|].
  intros H. assert (body = concat (omap compute_entry (entry_points m))) as ->
    by (rewrite E; congruence).
  split; intros; rewrite elem_of_compute_items;
    unfold workgroup_size, create_compute_pipeline;
    setoid_rewrite elem_of_app; setoid_rewrite list_elem_of_singleton; naive_solver.
Qed.

(** ** Entry point name constants *)

(** The names of the [const] items of a token stream, in order. *)
Definition const_names (ts : TokenStream) : list str :=
  omap (fun it => match it with ConstStr c _ => Some c | _ => None end) ts.

(** C19: [entry_point_constants] declares, for every entry point [e] in
    order and for nothing else, [ENTRY_] followed by [e]'s name in upper
    case, with [e]'s name as value; the constant names are distinct
    exactly when the upper-cased entry point names are. *)
Theorem entry_point_constants_spec (m : Module) :
  (forall c v, ConstStr c v ∈ entry_point_constants m <->
     exists e, e ∈ entry_points m /\ c = lit "ENTRY_" ++ to_uppercase (ep_name e) /\ v = ep_name e) /\
  const_names (entry_point_constants m) = map (fun e => lit "ENTRY_" ++ to_uppercase (ep_name e)) (entry_points m) /\
  (NoDup (const_names (entry_point_constants m)) <-> NoDup (map (fun e => to_uppercase (ep_name e)) (entry_points m))).
Proof.
  assert (Hn : const_names (entry_point_constants m) =
               map (fun e => lit "ENTRY_" ++ to_uppercase (ep_name e)) (entry_points m)).
  { unfold const_names, entry_point_constants, entry_const_name.
    induction (entry_points m) as [|e es IH]; [done|]. cbn in IH |- *. congruence. }
  split_and!; [|exact Hn|].
  - intros c v. unfold entry_point_constants, entry_const_name. rewrite elem_of_map_iff. naive_solver.
  - rewrite Hn, <-(map_map (fun e => to_uppercase (ep_name e)) (app (lit "ENTRY_"))). split.
    + apply NoDup_fmap_1.
    + apply (NoDup_fmap_2 _).
Qed.

(** ** Vertex entry points *)

Lemma vertex_layouts_spec (ts : str -> str) (inputs : list VertexInput) :
  vertex_layouts ts inputs =
  (map (fun i => ts (vi_name i)) inputs, map (fun i => (vi_name i, ts (vi_name i))) inputs).
Proof.
  unfold vertex_layouts.
  cut (forall ps ls, fold_left (vertex_layout_step ts) inputs (ps, ls) =
         (ps ++ map (fun i => ts (vi_name i)) inputs,
          ls ++ map (fun i => (vi_name i, ts (vi_name i))) inputs)); [by intros ->|].
  induction inputs as [|i inputs IH]; intros ps ls; cbn [fold_left map].
  - by rewrite !app_nil_r.
  - cbn [vertex_layout_step]. rewrite IH. by rewrite <- !app_assoc.
Qed.

Lemma vertex_entry_some ps n ls e it :
  vertex_entry ps n ls e = Some it <->
  ep_stage e = Vertex /\
  it = VertexEntryFn (ep_name e ++ lit "_entry") ps n (entry_const_name e) ls.
Proof. unfold vertex_entry. destruct (ep_stage e); naive_solver. Qed.

(** [vertex_states] unfolded: the scaffolding followed by the entries. *)
Lemma vertex_states_unfold ts m :
  vertex_states ts m =
  let inputs := get_vertex_input_structs m in
  let es := omap (vertex_entry (map (fun i => ts (vi_name i)) inputs) (length inputs)
                    (map (fun i => (vi_name i, ts (vi_name i))) inputs)) (entry_points m) in
  match es with
  | [] => []
  | _ => VertexEntryStructDecl :: VertexStateFn :: es
  end.
Proof. unfold vertex_states. rewrite vertex_layouts_spec. reflexivity. Qed.

Lemma omap_vertex_entry ts inputs l :
  omap (vertex_entry (map (fun i => ts (vi_name i)) inputs) (length inputs)
                     (map (fun i => (vi_name i, ts (vi_name i))) inputs)) l =
  map (vertex_entry_fn_ref ts inputs) (List.filter is_vertex l).
Proof.
  induction l as [|e l IH]; [done|]. rewrite omap_cons. cbn [List.filter].
  unfold is_vertex at 1, vertex_entry at 1. rewrite IH.
  destruct (ep_stage e); reflexivity.
Qed.

(** Every vertex entry point gets its entry function in [vertex_states]. *)
Lemma elem_of_vertex_states ts m e :
  e ∈ entry_points m -> ep_stage e = Vertex ->
  vertex_entry_fn_ref ts (get_vertex_input_structs m) e ∈ vertex_states ts m.
Proof.
  intros He Hv. rewrite vertex_states_unfold. cbn zeta. rewrite omap_vertex_entry.
  assert (Hin : vertex_entry_fn_ref ts (get_vertex_input_structs m) e ∈
                map (vertex_entry_fn_ref ts (get_vertex_input_structs m))
                    (List.filter is_vertex (entry_points m))).
  { apply elem_of_map_iff. exists e. split; [done|].
    apply elem_of_filter_bool. unfold is_vertex. by rewrite bool_decide_eq_true. }
  destruct (map _ _) as [|it l]; [set_solver|]. set_solver.
Qed.

(** C21: [vertex_states], written with a mutable parameter list filled
    inside a [map] and a [filter_map] over the entry points, equals the
    declarative reference: nothing without vertex entry points, otherwise
    the scaffolding and one entry function per vertex entry point in
    order, each taking every vertex input. *)
Theorem vertex_states_equiv (ts : str -> str) (m : Module) :
  vertex_states ts m = vertex_states_ref ts m.
Proof.
  rewrite vertex_states_unfold. cbn zeta. rewrite omap_vertex_entry.
  unfold vertex_states_ref. by destruct (List.filter is_vertex (entry_points m)).
Qed.

(** C22: [vertex_states] is empty exactly when the shader has no vertex
    entry point ("don't generate unused code"). *)
Theorem vertex_states_nil_iff (ts : str -> str) (m : Module) :
  vertex_states ts m = [] <-> Forall (fun e => ep_stage e <> Vertex) (entry_points m).
Proof.
  rewrite vertex_states_unfold. cbn zeta. rewrite Forall_forall.
  destruct (omap _ (entry_points m)) as [|it l] eqn:E.
  - rewrite omap_nil_iff in E. split; [|done]. intros _ e He Hv.
    specialize (E e He). unfold vertex_entry in E. by rewrite Hv in E.
  - split; [done|]. intros Hf. exfalso.
    assert (Hin : it ∈ it :: l) by set_solver. rewrite <- E in Hin.
    apply list_elem_of_omap in Hin as (e & He & Hs).
    apply vertex_entry_some in Hs as [Hv _]. by apply (Hf e He).
Qed.

(** C20: every [<e>_entry] function of [vertex_states] belongs to a vertex
    entry point [e], refers to the constant [ENTRY_<E>] that
    [entry_point_constants] declares with value ["<e>"], and its
    [VertexEntry<N>] gets exactly [N] step-mode parameters and [N] buffer
    layouts, one per vertex input struct, in order. *)
Theorem vertex_states_entries (ts : str -> str) (m : Module) f ps n c bufs :
  VertexEntryFn f ps n c bufs ∈ vertex_states ts m ->
  exists e, e ∈ entry_points m /\ ep_stage e = Vertex /\ f = ep_name e ++ lit "_entry" /\
    ConstStr c (ep_name e) ∈ entry_point_constants m /\
    n = length (get_vertex_input_structs m) /\ length ps = n /\ length bufs = n /\
    map fst bufs = map vi_name (get_vertex_input_structs m).
Proof.
  rewrite vertex_states_unfold. cbn zeta.
  destruct (omap _ (entry_points m)) as [|it l] eqn:E; [set_solver|].
  intros Hin. assert (Hin' : VertexEntryFn f ps n c bufs ∈ it :: l) by set_solver.
  rewrite <- E in Hin'.
  apply list_elem_of_omap in Hin' as (e & He & Hs).
  apply vertex_entry_some in Hs as [Hv Heq]. injection Heq as -> -> -> -> ->.
  exists e. split; [done|]. split; [done|]. split; [done|]. split.
  { apply elem_of_map_iff. eauto. }
  rewrite !length_map, map_map. done.
Qed.

(** ** Vertex attribute tables *)

Lemma elem_of_insert_by_location f l x :
  x ∈ map fst (insert_by_location f l) <-> x = f.1 \/ x ∈ map fst l.
Proof.
  induction l as [|g l IH]; cbn [insert_by_location map]; [set_solver|].
  case_decide; cbn [map]; rewrite ?elem_of_cons, ?IH; naive_solver.
Qed.

Lemma insert_by_location_sorted f l :
  StronglySorted le (map fst l) -> StronglySorted le (map fst (insert_by_location f l)).
Proof.
  induction l as [|g l IH]; cbn [insert_by_location map].
  - intros _. repeat constructor.
  - intros Hs. apply StronglySorted_cons in Hs as [Hf Hs]. case_decide; cbn [map].
    + constructor; [by apply StronglySorted_cons|]. constructor; [done|].
      eapply Forall_impl; [exact Hf|]. intros; lia.
    + constructor; [by apply IH|]. apply Forall_forall.
      intros x [->|Hx]%elem_of_insert_by_location; [lia|].
      by eapply Forall_forall in Hf.
Qed.

Lemma sort_by_location_sorted l : StronglySorted le (map fst (sort_by_location l)).
Proof.
  induction l as [|f l IH]; [constructor|]. by apply insert_by_location_sorted.
Qed.

Lemma elem_of_dedup_inputs seen l i : i ∈ dedup_inputs seen l -> i ∈ l.
Proof.
  revert seen. induction l as [|j l IH]; intros seen; cbn [dedup_inputs]; [set_solver|].
  case_decide; [intros ?%IH; set_solver|].
  intros [->|?%IH]%elem_of_cons; set_solver.
Qed.

(** Every vertex input has its fields sorted by location. *)
Lemma vertex_inputs_sorted m i :
  i ∈ get_vertex_input_structs m -> StronglySorted le (map fst (vi_fields i)).
Proof.
  unfold get_vertex_input_structs. intros Hi%elem_of_dedup_inputs.
  apply elem_of_concat_iff in Hi as (l & Hl & Hi).
  apply elem_of_map_iff in Hl as (e & -> & _).
  apply list_elem_of_omap in Hi as (a & _ & Ha). unfold struct_input_of in Ha.
  destruct (arg_binding a); [done|].
  destruct (types m !! arg_ty a) as [[[n|] []]|]; try done.
  injection Ha as <-. apply sort_by_location_sorted.
Qed.

(** What one attribute says of its field: the field's location, its
    struct, its name, and the vertex format of its type. *)
Definition attribute_of_field (m : Module) (s : str) (f : nat * StructMember) (a : VertexAttributeTok) : Prop :=
  va_location a = f.1 /\ va_struct a = s /\ m_name f.2 = Some (va_field a) /\
  exists ty, types m !! m_ty f.2 = Some ty /\ vertex_format ty = Some (va_format a).

Lemma vertex_attribute_some m s f a :
  vertex_attribute m s f = Some a -> attribute_of_field m s f a.
Proof.
  destruct f as [l mem]. unfold vertex_attribute, attribute_of_field. cbn [fst snd].
  destruct (m_name mem), (types m !! m_ty mem) as [ty|]; try done.
  intros (fmt & Hf & ->)%fmap_Some. cbn. split_and!; [done|done|done|]. by exists ty.
Qed.

(** C23: each [impl S] of the vertex attribute tables belongs to a vertex
    input struct [S] of the shader and declares an array
    [[wgpu::VertexAttribute; count]] whose [count] is the number of
    fields of [S]; its attributes are the fields of [S], one each and in
    increasing shader-location order, each with the field's location, the
    field's name as [offset_of!(S, field)] and the vertex format of the
    field's type. *)
Theorem vertex_struct_methods_attributes (m : Module) (ts : TokenStream) :
  vertex_struct_methods m = Some ts ->
  forall s count attrs, VertexImpl s count attrs ∈ ts ->
    exists i, i ∈ get_vertex_input_structs m /\ vi_name i = s /\ count = length (vi_fields i) /\
      Forall2 (attribute_of_field m s) (vi_fields i) attrs /\
      StronglySorted le (map va_location attrs).
Proof.
  unfold vertex_struct_methods, vertex_input_structs.
  intros (tss & Htss & ->)%fmap_Some s count attrs Hin.
  apply elem_of_concat_iff in Hin as (t & Ht & Hin).
  apply mapM_Some in Htss. destruct (Forall2_elem_of_r _ _ _ _ Htss Ht) as (i & Hi & Hit).
  apply fmap_Some in Hit as (attrs' & Hattrs & ->).
  apply list_elem_of_singleton in Hin. injection Hin as Hs Hc Ha. subst s count attrs.
  apply mapM_Some in Hattrs.
  assert (Hf : Forall2 (attribute_of_field m (vi_name i)) (vi_fields i) attrs')
    by (eapply Forall2_impl; [exact Hattrs|]; intros f a; apply vertex_attribute_some).
  exists i. split_and!; [done|done|done|done|].
  assert (map va_location attrs' = map fst (vi_fields i)) as ->.
  { clear -Hf. induction Hf as [|f a fs as_ [Hl _] _ IH]; cbn; [done|]. by rewrite Hl, IH. }
  by apply (vertex_inputs_sorted m).
Qed.

(** ** The tests of [lib.rs], and the witnesses *)

Example compute_module_example :
  compute_module ex_compute = [ModItem (lit "compute") ex_compute_body].
Proof. reflexivity. Qed.

Lemma compute_module_items_witness :
  ComputePipelineFn (lit "create_main2_pipeline") (lit "Compute Pipeline main2") (lit "main2")
    ∈ ex_compute_body /\
  ConstWorkgroupSize (lit "MAIN1_WORKGROUP_SIZE") (1, 2, 3) ∈ ex_compute_body.
Proof.
  pose proof (compute_module_items ex_compute ex_compute_body eq_refl) as [H1 H2].
  split; [apply H1; exists (ex_entry "main2" Compute (256, 1, 1) [])
         |apply H2; exists (ex_entry "main1" Compute (1, 2, 3) [])];
    (split; [unfold ex_compute; cbn [entry_points]; set_solver|]); repeat split.
Defined.

Example vertex_struct_methods_example :
  vertex_struct_methods ex_vertex_float32 =
  Some [VertexImpl (lit "VertexInput0") 4 ex_float32_attributes].
Proof. reflexivity. Qed.

Lemma vertex_struct_methods_attributes_witness :
  exists i, i ∈ get_vertex_input_structs ex_vertex_float32 /\ vi_name i = lit "VertexInput0" /\
    4 = length (vi_fields i) /\
    Forall2 (attribute_of_field ex_vertex_float32 (lit "VertexInput0")) (vi_fields i) ex_float32_attributes /\
    StronglySorted le (map va_location ex_float32_attributes).
Proof.
  apply (vertex_struct_methods_attributes ex_vertex_float32 _ vertex_struct_methods_example).
  apply list_elem_of_singleton. reflexivity.
Defined.

Example vertex_states_example (ts : str -> str) :
  vertex_states ts ex_two_vertex =
  [VertexEntryStructDecl; VertexStateFn;
   VertexEntryFn (lit "vs_main_1_entry") [ts (lit "VertexInput")] 1 (lit "ENTRY_VS_MAIN_1")
                 [(lit "VertexInput", ts (lit "VertexInput"))];
   VertexEntryFn (lit "vs_main_2_entry") [ts (lit "VertexInput")] 1 (lit "ENTRY_VS_MAIN_2")
                 [(lit "VertexInput", ts (lit "VertexInput"))]].
Proof. reflexivity. Qed.

Lemma vertex_states_entries_witness :
  ConstStr (lit "ENTRY_VS_MAIN_2") (lit "vs_main_2") ∈ entry_point_constants ex_two_vertex.
Proof.
  destruct (vertex_states_entries id ex_two_vertex (lit "vs_main_2_entry") [lit "VertexInput"] 1
              (lit "ENTRY_VS_MAIN_2") [(lit "VertexInput", lit "VertexInput")])
    as (e & He & Hv & Hf & Hc & _).
  { rewrite (vertex_states_example id). set_solver. }
  unfold ex_two_vertex in He. cbn [entry_points] in He.
  apply elem_of_cons in He as [->|[->|[]%elem_of_nil]%elem_of_cons]; [discriminate|exact Hc].
Defined.

(** Entry points [main] and [MAIN] (distinct WGSL identifiers) both get
    the constant [ENTRY_MAIN]: the generated module declares it twice. *)
Example entry_point_constants_case_collision :
  entry_point_constants ex_case_names =
  [ConstStr (lit "ENTRY_MAIN") (lit "main"); ConstStr (lit "ENTRY_MAIN") (lit "MAIN")].
Proof. reflexivity. Qed.

End EntryPoints.
