(* ===== verification/ModBuilder.v ===== *)
(** * ModBuilder: the declaration merge engine

    [quote_gen::RustModBuilder] (outside [src/], modelled from spec
    sections 4.5 and 9) collects the items generated for every entry into
    one tree of modules: [add path tokens] appends anonymous content to a
    module, [add_items path items] files named items, each under its own
    module path when it has one (an item demangled from another module)
    and under [path] otherwise, and [generate] emits every module.

    Modules come out in first-seen order, and declarations inside a module
    in first-seen order.  A named item whose (module, name) identity is
    already filed is dropped when its body is the same, and is the error
    [InconsistentDeclaration] when it differs.  Nested module paths are
    kept as flat path strings.

    The orchestrator of [lib.rs] only needs the interface [ModBuilder]
    and its laws [ModBuilderLaws]; [ModTree] is the implementation and
    discharges them. *)

From S2P Require Import Prelude Demangle Emit.

(** ** The interface seen by the orchestrator *)

Inductive ModBuilderError :=
| InconsistentDeclaration (path name : str).

Class ModBuilder (B : Type) := {
  mb_new : B;
  mb_add : str -> TokenStream -> B -> B;
  mb_add_items : str -> list (RustSourceItem TokenStream) -> B -> result B ModBuilderError;
  mb_contents : str -> B -> TokenStream;
  mb_generate : B -> TokenStream
}.

(** What the orchestrator relies on: content is appended where it is
    added, filing items only appends, and every non-empty module is
    emitted with its content. *)
Class ModBuilderLaws (B : Type) `{ModBuilder B} := {
  mb_contents_new p : mb_contents p mb_new = [];
  mb_contents_add p q ts b :
    mb_contents p (mb_add q ts b) =
    if decide (p = q) then mb_contents p b ++ ts else mb_contents p b;
  mb_contents_add_items p q items b b' :
    mb_add_items q items b = Ok b' -> exists ts, mb_contents p b' = mb_contents p b ++ ts;
  mb_generate_contents p b :
    mb_contents p b <> [] -> ModItem p (mb_contents p b) ∈ mb_generate b
}.

Module ModTree.

(** A declaration: named ([Some n]) or anonymous content. *)
Record Decl := { d_name : option str; d_body : TokenStream }.

(** Module path -> declarations, both in first-seen order. *)
Abbreviation ModTree := (list (str * list Decl)).

Fixpoint mt_get (p : str) (t : ModTree) : list Decl :=
  match t with
  | [] => []
  | (q, ds) :: t' => if decide (p = q) then ds else mt_get p t'
  end.

(** Applies [f] to the declarations of [p]; a new module goes last. *)
Fixpoint mt_update (p : str) (f : list Decl -> list Decl) (t : ModTree) : ModTree :=
  match t with
  | [] => [(p, f [])]
  | (q, ds) :: t' => if decide (p = q) then (q, f ds) :: t' else (q, ds) :: mt_update p f t'
  end.

Fixpoint find_named (n : str) (ds : list Decl) : option TokenStream :=
  match ds with
  | [] => None
  | d :: ds' => if decide (d_name d = Some n) then Some (d_body d) else find_named n ds'
  end.

Definition mt_lookup (p n : str) (t : ModTree) : option TokenStream := find_named n (mt_get p t).

Definition mt_contents (p : str) (t : ModTree) : TokenStream := concat (map d_body (mt_get p t)).

Definition mt_add (p : str) (ts : TokenStream) (t : ModTree) : ModTree :=
  mt_update p (fun ds => ds ++ [{| d_name := None; d_body := ts |}]) t.

(** Files one named item, keeping the first body of an identity. *)
Definition mt_add_unique (p n : str) (body : TokenStream) (t : ModTree)
  : result ModTree ModBuilderError :=
  match mt_lookup p n t with
  | Some body' => if decide (body' = body) then Ok t else Err (InconsistentDeclaration p n)
  | None => Ok (mt_update p (fun ds => ds ++ [{| d_name := Some n; d_body := body |}]) t)
  end.

(** The module an item goes to: its own path, else the entry's module. *)
Definition item_path (mod_name : str) (it : RustSourceItem TokenStream) : str :=
  default mod_name (rsi_mod_path it).

Fixpoint mt_add_items (mod_name : str) (items : list (RustSourceItem TokenStream)) (t : ModTree)
  : result ModTree ModBuilderError :=
  match items with
  | [] => Ok t
  | it :: rest =>
      let! t' := mt_add_unique (item_path mod_name it) (rsi_name it) (rsi_item it) t in
      mt_add_items mod_name rest t'
  end.

Definition mt_generate (t : ModTree) : TokenStream :=
  map (fun '(p, ds) => ModItem p (concat (map d_body ds))) t.

(** The tree's invariant: no module holds two declarations of one name. *)
Definition names_unique (t : ModTree) : Prop :=
  forall p, NoDup (omap d_name (mt_get p t)).

#[export] Instance ModTree_builder : ModBuilder ModTree := {
  mb_new := [];
  mb_add := mt_add;
  mb_add_items := mt_add_items;
  mb_contents := mt_contents;
  mb_generate := mt_generate
}.

(** ** Lemmas on the tree *)

Lemma mt_get_update p q f t :
  mt_get p (mt_update q f t) = if decide (p = q) then f (mt_get p t) else mt_get p t.
Proof.
  induction t as [|[r ds] t IH]; cbn [mt_update mt_get].
  - by repeat case_decide.
  - repeat (case_decide; subst; cbn [mt_get]); repeat case_decide; congruence.
Qed.

Lemma find_named_app_anon n ds ts :
  find_named n (ds ++ [{| d_name := None; d_body := ts |}]) = find_named n ds.
Proof.
  induction ds as [|d ds IH]; cbn [find_named app]; [by rewrite decide_False|].
  by case_decide; [|rewrite IH].
Qed.

Lemma find_named_app_named n k ds b :
  find_named n (ds ++ [{| d_name := Some k; d_body := b |}]) =
  match find_named n ds with
  | Some x => Some x
  | None => if decide (k = n) then Some b else None
  end.
Proof.
  induction ds as [|d ds IH]; cbn [find_named app d_name d_body].
  - repeat case_decide; congruence.
  - destruct (decide (d_name d = Some n)); [done|]. exact IH.
Qed.

Lemma contents_app_decl p q d t :
  mt_contents p (mt_update q (fun ds => ds ++ [d]) t) =
  if decide (p = q) then mt_contents p t ++ d_body d else mt_contents p t.
Proof.
  unfold mt_contents. rewrite mt_get_update. case_decide; [|done].
  by rewrite map_app, concat_app; cbn [map concat]; rewrite app_nil_r.
Qed.

Lemma mt_add_unique_contents p q n body t t' :
  mt_add_unique q n body t = Ok t' -> exists ts, mt_contents p t' = mt_contents p t ++ ts.
Proof.
  unfold mt_add_unique. destruct (mt_lookup q n t).
  - case_decide; intros; simplify_eq. exists []. by rewrite app_nil_r.
  - intros; simplify_eq. rewrite contents_app_decl.
    case_decide; eauto. exists []. by rewrite app_nil_r.
Qed.

Lemma mt_lookup_add_unique p n q k body t t' :
  mt_add_unique q k body t = Ok t' ->
  mt_lookup p n t' =
  match mt_lookup p n t with
  | Some x => Some x
  | None => if decide (p = q /\ n = k) then Some body else None
  end.
Proof.
  unfold mt_add_unique. destruct (mt_lookup q k t) as [b|] eqn:E.
  - case_decide; intros; simplify_eq. destruct (mt_lookup p n t') eqn:E'; [done|].
    case_decide as Hpk; [|done]. destruct Hpk; subst. congruence.
  - intros; simplify_eq. unfold mt_lookup at 1. rewrite mt_get_update.
    case_decide; subst.
    + rewrite find_named_app_named. fold (mt_lookup q n t).
      destruct (mt_lookup q n t) eqn:E2; [done|].
      repeat case_decide; naive_solver.
    + fold (mt_lookup p n t). destruct (mt_lookup p n t); [done|].
      case_decide; naive_solver.
Qed.

#[export] Instance ModTree_laws : ModBuilderLaws ModTree.
Proof.
  split.
  - done.
  - intros p q ts t. cbn [mb_contents mb_add ModTree_builder]. unfold mt_add.
    by rewrite contents_app_decl.
  - intros p q items. cbn [mb_contents mb_add_items ModTree_builder].
    induction items as [|it items IH]; intros t t'; cbn [mt_add_items].
    + intros; simplify_eq. exists []. by rewrite app_nil_r.
    + intros (t1 & H1 & H2)%res_bind_eq_ok.
      destruct (mt_add_unique_contents p _ _ _ _ _ H1) as [ts1 E1].
      destruct (IH _ _ H2) as [ts2 E2]. exists (ts1 ++ ts2).
      by rewrite E2, E1, app_assoc.
  - intros p t. cbn [mb_contents mb_generate ModTree_builder]. unfold mt_contents.
    induction t as [|[q ds] t IH]; cbn [mt_get map]; [done|].
    case_decide; subst; intros Hne; [by left|right; by apply IH].
Qed.

Lemma mt_add_unique_same q k body t t' :
  mt_add_unique q k body t = Ok t' -> mt_lookup q k t' = Some body.
Proof.
  intros H. pose proof (mt_lookup_add_unique q k q k body t t' H) as ->.
  unfold mt_add_unique in H. destruct (mt_lookup q k t); [|by rewrite decide_True].
  by case_decide; simplify_eq.
Qed.

(** An identity filed before keeps its first body. *)
Lemma mt_add_items_first_seen p n q items t t' x :
  mt_lookup p n t = Some x -> mt_add_items q items t = Ok t' -> mt_lookup p n t' = Some x.
Proof.
  revert t. induction items as [|it items IH]; intros t Hx; cbn [mt_add_items].
  - by intros; simplify_eq.
  - intros (t1 & H1 & H2)%res_bind_eq_ok. apply (IH t1); [|done].
    by rewrite (mt_lookup_add_unique _ _ _ _ _ _ _ H1), Hx.
Qed.

(** After a successful [add_items], every item is found in the module it
    belongs to, under its name, with its body. *)
Lemma mt_add_items_lookup q items t t' :
  mt_add_items q items t = Ok t' ->
  forall it, it ∈ items -> mt_lookup (item_path q it) (rsi_name it) t' = Some (rsi_item it).
Proof.
  revert t. induction items as [|it items IH]; intros t; cbn [mt_add_items]; [set_solver|].
  intros (t1 & H1 & H2)%res_bind_eq_ok it' [->|Hin]%elem_of_cons; [|by apply (IH t1)].
  apply (mt_add_items_first_seen _ _ q items t1); [|done]. by apply (mt_add_unique_same _ _ _ t).
Qed.

Lemma mt_add_items_present q items t :
  (forall it, it ∈ items -> mt_lookup (item_path q it) (rsi_name it) t = Some (rsi_item it)) ->
  mt_add_items q items t = Ok t.
Proof.
  induction items as [|it items IH]; intros H; cbn [mt_add_items]; [done|].
  unfold mt_add_unique. rewrite H by set_solver. rewrite decide_True by done.
  cbn [res_bind]. apply IH. set_solver.
Qed.

(** filing the same items again changes nothing and raises no
    error: exact duplicates are dropped. *)
Theorem mt_add_items_idempotent q items t t' :
  mt_add_items q items t = Ok t' -> mt_add_items q items t' = Ok t'.
Proof.
  intros H. apply mt_add_items_present. intros it Hit.
  by apply (mt_add_items_lookup q items t).
Qed.

(** [add_items] fails only on an inconsistent identity: an item
    whose (module, name) identity was filed before the call, or by an
    earlier item of the same call, with a different body. *)
Theorem mt_add_items_error q items t p n :
  mt_add_items q items t = Err (InconsistentDeclaration p n) ->
  exists it, it ∈ items /\ item_path q it = p /\ rsi_name it = n /\
    ((exists b, mt_lookup p n t = Some b /\ b <> rsi_item it) \/
     (exists it', it' ∈ items /\ item_path q it' = p /\ rsi_name it' = n /\
                  rsi_item it' <> rsi_item it)).
Proof.
  revert t. induction items as [|it items IH]; intros t; cbn [mt_add_items]; [done|].
  destruct (mt_add_unique _ _ _ t) as [t1|[p' n']] eqn:E; cbn [res_bind].
  - intros (it2 & Hin & Hp & Hn & Hc)%IH. exists it2. split; [set_solver|].
    split; [done|]. split; [done|].
    destruct Hc as [(b & Hb & Hne)|(it' & Hin' & Hp' & Hn' & Hne)]; [|right; exists it'; set_solver].
    rewrite (mt_lookup_add_unique _ _ _ _ _ _ _ E) in Hb.
    destruct (mt_lookup p n t) as [b'|] eqn:Ht; [left; exists b'; naive_solver|].
    case_decide as Hid; [|done]. destruct Hid as [-> ->]. injection Hb as <-.
    right. exists it. set_solver.
  - intros [= <- <-]. unfold mt_add_unique in E.
    destruct (mt_lookup _ _ t) as [b|] eqn:Hb; [|done].
    case_decide; [done|]. injection E as <- <-.
    exists it. split; [set_solver|]. split; [done|]. split; [done|]. left. eauto.
Qed.

Lemma find_named_none n ds : find_named n ds = None <-> n ∉ omap d_name ds.
Proof.
  induction ds as [|d ds IH]; cbn [find_named]; [set_solver|].
  rewrite omap_cons. case_decide as Hd; [rewrite Hd; set_solver|].
  rewrite IH. destruct (d_name d); [|done]. rewrite elem_of_cons. naive_solver.
Qed.

Lemma omap_d_name_app_anon ds ts :
  omap d_name (ds ++ [{| d_name := None; d_body := ts |}]) = omap d_name ds.
Proof. rewrite omap_app. cbn. by rewrite app_nil_r. Qed.

Lemma mt_add_names_unique q ts t : names_unique t -> names_unique (mt_add q ts t).
Proof.
  intros H p. unfold mt_add. rewrite mt_get_update.
  case_decide; [rewrite omap_d_name_app_anon|]; apply H.
Qed.

Lemma mt_add_unique_names_unique q k body t t' :
  names_unique t -> mt_add_unique q k body t = Ok t' -> names_unique t'.
Proof.
  intros H. unfold mt_add_unique. destruct (mt_lookup q k t) eqn:E.
  - case_decide; intros; simplify_eq. done.
  - intros; simplify_eq. intros p. rewrite mt_get_update. case_decide; [subst|apply H].
    rewrite omap_app. cbn. apply NoDup_app. split; [apply H|]. split.
    + intros x Hx ->%list_elem_of_singleton. by apply find_named_none in E.
    + apply NoDup_singleton.
Qed.

(** the tree's invariant — no module declares a name twice — holds
    after every [add] and every successful [add_items]. *)
Theorem mt_add_items_names_unique q items t t' :
  names_unique t -> mt_add_items q items t = Ok t' -> names_unique t'.
Proof.
  revert t. induction items as [|it items IH]; intros t Ht; cbn [mt_add_items].
  - by intros; simplify_eq.
  - intros (t1 & H1 & H2)%res_bind_eq_ok. apply (IH t1); [|done].
    by apply (mt_add_unique_names_unique _ _ _ t _ Ht H1).
Qed.

(** C16: an item that [RustSourceItem::from_mangled] builds from a name
    the composer decorated with module path [P] is filed by [add_items]
    in module [P] under its plain name, whichever entry module it was
    generated for. *)
Theorem add_items_from_mangled q segs name body t t' it :
  segs <> [] -> Forall (fun seg => forallb is_word_char seg = true) segs ->
  name <> [] -> forallb is_word_char name = true ->
  from_mangled (mangle (join_path segs) name) body = Some it ->
  mt_add_items q [it] t = Ok t' ->
  mt_lookup (join_path segs) name t' = Some body.
Proof.
  intros Hs Hw Hne Hn. unfold from_mangled. rewrite demangle_splitting_mangle by done.
  intros [= <-] Hadd.
  apply (mt_add_items_lookup _ _ _ _ Hadd {| rsi_mod_path := Some (join_path segs); rsi_name := name; rsi_item := body |}).
  set_solver.
Qed.

Lemma add_items_from_mangled_witness :
  mt_lookup (join_path [lit "types"]) (lit "Uniforms")
    [(lit "types", [{| d_name := Some (lit "Uniforms"); d_body := [Opaque (lit "Uniforms")] |}])]
  = Some [Opaque (lit "Uniforms")].
Proof.
  apply (add_items_from_mangled (lit "test") [lit "types"] (lit "Uniforms") [Opaque (lit "Uniforms")] []
           _ {| rsi_mod_path := Some (lit "types"); rsi_name := lit "Uniforms";
                rsi_item := [Opaque (lit "Uniforms")] |});
    [discriminate | repeat constructor | discriminate | reflexivity | reflexivity | reflexivity].
Defined.

Lemma mt_add_items_idempotent_witness :
  mt_add_items (lit "test")
    [{| rsi_mod_path := None; rsi_name := lit "A"; rsi_item := [Opaque (lit "A")] |}]
    [(lit "test", [{| d_name := Some (lit "A"); d_body := [Opaque (lit "A")] |}])]
  = Ok [(lit "test", [{| d_name := Some (lit "A"); d_body := [Opaque (lit "A")] |}])].
Proof. apply (mt_add_items_idempotent _ _ []). reflexivity. Defined.

End ModTree.
