(* ===== verification/Bindings.v ===== *)
(** * Bindings: the orchestrator [create_rust_bindings]

    [create_rust_bindings] (src/wgsl_bindgen/src/lib.rs, 102-160) starts a
    module builder with the prelude in [_root], then runs, for every entry
    in order, the analysis of its bind groups (the only fallible step: its
    error is returned with [?]) followed by the generators of the entry's
    module, and finally emits the builder's tree.  The helpers it calls
    ([indexed_name_to_ident], [shader_module] and its two variants) are
    modelled here from lines 168-297.

    The builder is used through the [ModBuilder] interface only, so every
    theorem of the section holds for any builder satisfying
    [ModBuilderLaws].  Collaborators outside [src/] are section variables:
    the struct and constant generators, the bind group module emitter, the
    prelude assertions, [module_to_source], [pathdiff::diff_paths] and the
    case conversion.  A Rust panic ([unwrap], [expect]) is [None]; the
    [Result] of the function is the inner [result].  [create_rust_bindings]
    stops at the emitted token stream; [create_rust_bindings_text] adds
    the final [pretty_print] (a section variable: [syn::parse_file] and
    [prettyplease] are outside [src/]), whose [unwrap] can panic. *)

From stdpp Require Import pretty.
From S2P Require Import Prelude Naga Emit Demangle BindGroup EntryPoints ModBuilder.

#[local] Unset Default Proof Using.

Module Bindings.
Import Naga BindGroup EntryPoints.

(** [WgslShaderSourceOutputType] (wgsl_bindgen options). *)
Inductive WgslShaderSourceOutputType := FinalShaderString | Composer.

(** One dependency of [SourceWithFullDependenciesResult::full_dependencies]. *)
Record SourceDep := { dep_file_path : str; dep_module_name : option str }.

(** [WgslEntryResult] (lib.rs 96-100) with the fields of its
    [source_including_deps] that the code reads. *)
Record WgslEntryResult := {
  mod_name : str;
  naga_module : Module;
  full_dependencies : list SourceDep;
  source_file_path : str
}.

(** The fields of [WgslBindgenOption] that [lib.rs] reads. *)
Record WgslBindgenOption := {
  shader_source_output_type : WgslShaderSourceOutputType;
  output_file : option str
}.

(** [wgsl::shader_stages]: the stages of the module's entry points. *)
Definition shader_stages (m : Module) : ShaderStages :=
  let has s := existsb (fun e => bool_decide (ep_stage e = s)) (entry_points m) in
  {| st_vertex := has Vertex; st_fragment := has Fragment; st_compute := has Compute |}.

(** [indexed_name_to_ident]: [format!("{name}{index}")]. *)
Definition indexed_name_to_ident (name : str) (index : nat) : str :=
  name ++ String.list_ascii_of_string (pretty index).

(** The [create_pipeline_layout] function of lines 134-152: one
    [bind_groups::BindGroupK::get_bind_group_layout(device)] per key of
    the bind group map, in key order. *)
Definition create_pipeline_layout (bind_group_data : BindGroupData) : TokenStream :=
  [PipelineLayoutFn (map (indexed_name_to_ident (lit "BindGroup")) (bt_keys bind_group_data))].

(** ** Fixtures: the tests of [lib.rs] build one entry [test] with the
    default options ([FinalShaderString], no output file). *)
Definition test_gv (g b : nat) : GlobalVariable :=
  {| gv_name := None; gv_space := Uniform;
     gv_binding := Some {| group := g; binding := b |}; gv_ty := 0 |}.

Definition test_entry (globals : list GlobalVariable) (eps : list EntryPoint)
  : WgslEntryResult :=
  {| mod_name := lit "test";
     naga_module := {| types := []; global_variables := globals; entry_points := eps |};
     full_dependencies := []; source_file_path := [] |}.

(** [create_shader_module_embed_source]: one fragment entry point. *)
Definition test_embed : WgslEntryResult :=
  test_entry [] [ex_entry "fs_main" Fragment (0, 0, 0) []].

(** [create_shader_module_consecutive_bind_groups]: groups 0 and 1. *)
Definition test_consecutive : WgslEntryResult :=
  test_entry [test_gv 0 0; test_gv 1 0]
             [ex_entry "vs_main" Vertex (0, 0, 0) []; ex_entry "fs_main" Fragment (0, 0, 0) []].

(** [create_shader_module_non_consecutive_bind_groups]: groups 0, 1, 3. *)
Definition test_non_consecutive : WgslEntryResult :=
  test_entry [test_gv 0 0; test_gv 1 0; test_gv 3 0] [ex_entry "main" Fragment (0, 0, 0) []].

(** [create_shader_module_repeated_bindings]: binding (0, 2) twice. *)
Definition test_repeated : WgslEntryResult :=
  test_entry [test_gv 0 2; test_gv 0 2] [ex_entry "main" Fragment (0, 0, 0) []].

Definition test_options : WgslBindgenOption :=
  {| shader_source_output_type := FinalShaderString; output_file := None |}.

Section Orchestrator.
Context {B : Type} `{ModBuilder B}.

(** [structs::structs_items] and [consts::consts_items]. *)
Variable structs_items : Module -> WgslBindgenOption -> list (RustSourceItem TokenStream).
Variable consts_items : Module -> list (RustSourceItem TokenStream).
(** [bindgroup::bind_groups_module]. *)
Variable bind_groups_module : BindGroupData -> ShaderStages -> TokenStream.
(** [quote_gen::add_prelude_types_assertions]. *)
Variable add_prelude_types_assertions : WgslBindgenOption -> TokenStream.
(** [naga_util::module_to_source]; [None] is its [Err]. *)
Variable module_to_source : Module -> option str.
(** [pathdiff::diff_paths(file, output_dir)] followed by [to_str];
    [None] when either fails. *)
Variable relative_path : str -> str -> option str.
(** [Path::parent] and the [CARGO_MANIFEST_DIR] variable. *)
Variable parent : str -> option str.
Variable cargo_manifest_dir : option str.
(** [CaseExt::to_snake]. *)
Variable to_snake : str -> str.

(** [shader_module_using_final_shader_string] (172-190). *)
Definition shader_module_using_final_shader_string (entry : WgslEntryResult)
  : option TokenStream :=
  shader_content ← module_to_source (naga_module entry);
  shader_literal ← create_shader_raw_string_literal shader_content;
  Some [CreateShaderModuleEmbedded; ShaderStringConst shader_literal].

(** The [output_dir] of [shader_module_using_composer] (196-204). *)
Definition output_dir (options : WgslBindgenOption) : str :=
  match output_file options ≫= parent with
  | Some p => p
  | None => default (lit ".") cargo_manifest_dir
  end.

(** One [composer.add_composable_module] call (216-236). *)
Definition composable_dep (dir : str) (dep : SourceDep) : option ComposableDep :=
  relative_file_path ← relative_path (dep_file_path dep) dir;
  Some {| cd_file_path := relative_file_path; cd_as_name := dep_module_name dep |}.

(** [shader_module_using_composer] (192-288). *)
Definition shader_module_using_composer (entry : WgslEntryResult)
           (options : WgslBindgenOption) : option TokenStream :=
  let dir := output_dir options in
  add_shader_modules ← mapM (composable_dep dir) (full_dependencies entry);
  entry_relative_path ← relative_path (source_file_path entry) dir;
  Some [InitComposerFn add_shader_modules; MakeNagaModuleFn entry_relative_path;
        NagaModuleToStringFn; CreateShaderModuleComposer].

(** [shader_module] (290-297). *)
Definition shader_module (entry : WgslEntryResult) (options : WgslBindgenOption)
  : option TokenStream :=
  match shader_source_output_type options with
  | FinalShaderString => shader_module_using_final_shader_string entry
  | Composer => shader_module_using_composer entry options
  end.

(** [.unwrap()] of an [add_items] result. *)
Definition unwrap_add {A} (r : result A ModBuilderError) : option A :=
  match r with Ok a => Some a | Err _ => None end.

(** The body of the loop over the entries (109-156). *)
Definition process_entry (options : WgslBindgenOption) (mod_builder : B)
           (entry : WgslEntryResult) : option (result B CreateModuleError) :=
  let mod_name := mod_name entry in
  let naga_module := naga_module entry in
  match get_bind_group_data naga_module with
  | Err e => Some (Err e)
  | Ok bind_group_data =>
      let stages := shader_stages naga_module in
      b1 ← unwrap_add (mb_add_items mod_name (structs_items naga_module options) mod_builder);
      b2 ← unwrap_add (mb_add_items mod_name (consts_items naga_module) b1);
      let b3 := mb_add mod_name (bind_groups_module bind_group_data stages) b2 in
      vsm ← vertex_struct_methods naga_module;
      let b4 := mb_add mod_name vsm b3 in
      let b5 := mb_add mod_name (compute_module naga_module) b4 in
      let b6 := mb_add mod_name (entry_point_constants naga_module) b5 in
      let b7 := mb_add mod_name (vertex_states to_snake naga_module) b6 in
      let b8 := mb_add mod_name (create_pipeline_layout bind_group_data) b7 in
      sm ← shader_module entry options;
      Some (Ok (mb_add mod_name sm b8))
  end.

(** The [for] loop (109-156): stops at the first error. *)
Fixpoint run_entries (options : WgslBindgenOption) (mod_builder : B)
         (entries : list WgslEntryResult) : option (result B CreateModuleError) :=
  match entries with
  | [] => Some (Ok mod_builder)
  | entry :: rest =>
      r ← process_entry options mod_builder entry;
      match r with
      | Err e => Some (Err e)
      | Ok b => run_entries options b rest
      end
  end.

(** [create_rust_bindings] (102-158): the token stream that [pretty_print]
    is given. *)
Definition create_rust_bindings (entries : list WgslEntryResult)
           (options : WgslBindgenOption) : option (result TokenStream CreateModuleError) :=
  let mod_builder := mb_add MOD_REFERENCE_ROOT (add_prelude_types_assertions options) mb_new in
  r ← run_entries options mod_builder entries;
  Some (res_map mb_generate r).

(** Builder [b'] extends builder [b]: every module's content of [b]
    is a prefix of its content in [b']. *)
Definition grows (b b' : B) : Prop :=
  forall p, exists ts, mb_contents p b' = mb_contents p b ++ ts.

Definition analysis_ok (entry : WgslEntryResult) : Prop :=
  exists g, get_bind_group_data (naga_module entry) = Ok g.

Context `{!ModBuilderLaws B}.

#[export] Instance grows_preorder : PreOrder grows.
Proof.
  split.
  - intros b p. exists []. by rewrite app_nil_r.
  - intros b1 b2 b3 H12 H23 p. destruct (H12 p) as [ts1 E1], (H23 p) as [ts2 E2].
    exists (ts1 ++ ts2). by rewrite E2, E1, app_assoc.
Qed.

Lemma mb_contents_add_same p ts b : mb_contents p (mb_add p ts b) = mb_contents p b ++ ts.
Proof. rewrite mb_contents_add. by rewrite decide_True. Qed.

Lemma grows_add q ts b : grows b (mb_add q ts b).
Proof.
  intros p. rewrite mb_contents_add. case_decide; [eauto|].
  exists []. by rewrite app_nil_r.
Qed.

Lemma grows_unwrap_add q items b b' :
  unwrap_add (mb_add_items q items b) = Some b' -> grows b b'.
Proof.
  unfold unwrap_add. destruct (mb_add_items q items b) eqn:E; [|done].
  intros [= <-] p. by apply (mb_contents_add_items p q items).
Qed.

Lemma process_entry_err options b entry e :
  process_entry options b entry = Some (Err e) <->
  get_bind_group_data (naga_module entry) = Err e.
Proof.
  unfold process_entry. destruct (get_bind_group_data _) as [g|e']; [|naive_solver].
  split; [|done]. intros Hp.
  destruct (unwrap_add _) as [b1|]; cbn in Hp; [|congruence].
  destruct (unwrap_add _) as [b2|]; cbn in Hp; [|congruence].
  destruct (vertex_struct_methods _); cbn in Hp; [|congruence].
  destruct (shader_module _ _); cbn in Hp; congruence.
Qed.

(** A successful step is exactly the chain of [add]s of lines 127-155
    on a builder that the two [add_items] calls extended. *)
Lemma process_entry_ok options b entry b' :
  process_entry options b entry = Some (Ok b') ->
  let p := mod_name entry in let m := naga_module entry in
  exists g b2 vsm sm,
    get_bind_group_data m = Ok g /\ vertex_struct_methods m = Some vsm /\
    shader_module entry options = Some sm /\ grows b b2 /\
    b' = mb_add p sm (mb_add p (create_pipeline_layout g)
           (mb_add p (vertex_states to_snake m) (mb_add p (entry_point_constants m)
             (mb_add p (compute_module m) (mb_add p vsm
               (mb_add p (bind_groups_module g (shader_stages m)) b2)))))).
Proof.
  intros Hp. unfold process_entry in Hp. cbv zeta in Hp.
  destruct (get_bind_group_data _) as [g|e] eqn:Eg; [|done].
  apply bind_Some in Hp as (b1 & E1 & Hp). apply bind_Some in Hp as (b2 & E2 & Hp).
  apply bind_Some in Hp as (vsm & Ev & Hp). apply bind_Some in Hp as (sm & Es & [= <-]).
  exists g, b2, vsm, sm. split_and!; try done.
  etrans; [apply (grows_unwrap_add _ _ _ _ E1)|apply (grows_unwrap_add _ _ _ _ E2)].
Qed.

Lemma process_entry_grows options b entry b' :
  process_entry options b entry = Some (Ok b') -> grows b b'.
Proof.
  intros (g & b2 & vsm & sm & _ & _ & _ & Hg & ->)%process_entry_ok.
  rewrite Hg. repeat (etrans; [|apply grows_add]). reflexivity.
Qed.

Lemma run_entries_app options b es1 es2 :
  run_entries options b (es1 ++ es2) =
  r ← run_entries options b es1;
  match r with Err e => Some (Err e) | Ok b' => run_entries options b' es2 end.
Proof.
  revert b. induction es1 as [|x es1 IH]; intros b; cbn; [done|].
  destruct (process_entry options b x) as [[b1|e]|]; cbn; auto.
Qed.

Lemma run_entries_grows options b es b' :
  run_entries options b es = Some (Ok b') -> grows b b'.
Proof.
  revert b. induction es as [|x es IH]; intros b; cbn; [by intros [= <-]|].
  destruct (process_entry options b x) as [[b1|e]|] eqn:E; cbn; [|done|done].
  intros Hr. etrans; [apply (process_entry_grows _ _ _ _ E)|]. by apply IH.
Qed.

Lemma run_entries_entry options b es b' entry :
  run_entries options b es = Some (Ok b') -> entry ∈ es ->
  exists b1 b2, process_entry options b1 entry = Some (Ok b2) /\ grows b2 b'.
Proof.
  revert b. induction es as [|x es IH]; intros b; cbn; [by intros _ ?%elem_of_nil|].
  destruct (process_entry options b x) as [[b1|e]|] eqn:E; cbn; [|done|done].
  intros Hr [->|Hin]%elem_of_cons; [|by apply (IH b1)].
  exists b, b1. split; [done|]. by eapply run_entries_grows.
Qed.

Lemma run_entries_error options b es e :
  run_entries options b es = Some (Err e) ->
  exists pre x post, es = pre ++ x :: post /\ Forall analysis_ok pre /\
                     get_bind_group_data (naga_module x) = Err e.
Proof.
  revert b. induction es as [|x es IH]; intros b; cbn; [done|].
  destruct (process_entry options b x) as [[b1|e']|] eqn:E; cbn; [|intros [= <-]|done].
  - intros (pre & y & post & -> & Hpre & Hy)%IH. exists (x :: pre), y, post.
    split; [done|]. split; [|done]. constructor; [|done].
    destruct (get_bind_group_data (naga_module x)) as [g|e''] eqn:Ex; [by exists g|].
    apply (process_entry_err options b) in Ex. congruence.
  - exists [], x, es. split; [done|]. split; [done|]. by apply (process_entry_err options b).
Qed.

Lemma run_entries_all_ok options b es e :
  Forall analysis_ok es -> run_entries options b es <> Some (Err e).
Proof.
  intros Hok. revert b. induction Hok as [|x es [g Hg] _ IH]; intros b; cbn; [done|].
  destruct (process_entry options b x) as [[b1|e']|] eqn:E; cbn; [apply IH| |done].
  apply process_entry_err in E. congruence.
Qed.

Lemma run_entries_prefix_ok options b pre e :
  Forall analysis_ok pre -> forall x, get_bind_group_data (naga_module x) = Err e ->
  forall post, run_entries options b (pre ++ x :: post) = run_entries options b (pre ++ [x]) /\
  (run_entries options b (pre ++ [x]) = None \/ run_entries options b (pre ++ [x]) = Some (Err e)).
Proof.
  intros Hok x Hx post. rewrite !run_entries_app.
  destruct (run_entries options b pre) as [[b1|e']|] eqn:E; cbn; [|by edestruct run_entries_all_ok|auto].
  apply (process_entry_err options b1) in Hx. rewrite Hx. auto.
Qed.

Lemma indexed_name_to_ident_inj name : Inj (=) (=) (indexed_name_to_ident name).
Proof.
  intros i j Hij. apply app_inv_head in Hij.
  apply (f_equal String.string_of_list_ascii) in Hij.
  rewrite !String.string_of_list_ascii_of_string in Hij. by apply (inj pretty).
Qed.

(** C1: when generation reports an error, it is the analysis error of
    the first entry whose bind groups are invalid, and every entry
    before it passed the analysis. *)
Theorem create_rust_bindings_error entries options e :
  create_rust_bindings entries options = Some (Err e) ->
  exists pre x post, entries = pre ++ x :: post /\ Forall analysis_ok pre /\
                     get_bind_group_data (naga_module x) = Err e.
Proof.
  unfold create_rust_bindings. intros (r & Hr & Hres)%bind_Some.
  destruct r as [b|e']; cbn in Hres; [done|]. injection Hres as ->.
  by eapply run_entries_error.
Qed.

(** C2: generation stops at the first entry whose analysis fails: the
    entries after it are never looked at, and the run either panics
    in an earlier entry or returns that entry's error. *)
Theorem create_rust_bindings_fail_fast pre x post options e :
  Forall analysis_ok pre -> get_bind_group_data (naga_module x) = Err e ->
  create_rust_bindings (pre ++ x :: post) options = create_rust_bindings (pre ++ [x]) options /\
  (create_rust_bindings (pre ++ [x]) options = None \/
   create_rust_bindings (pre ++ [x]) options = Some (Err e)).
Proof.
  intros Hok Hx. unfold create_rust_bindings.
  destruct (run_entries_prefix_ok options
              (mb_add MOD_REFERENCE_ROOT (add_prelude_types_assertions options) mb_new)
              pre e Hok x Hx post) as [-> [-> | ->]]; auto.
Qed.

(** C3: when the bind groups of every entry are valid, generation never
    returns an error (it produces the file, or a collaborator panics). *)
Theorem create_rust_bindings_no_error entries options e :
  Forall analysis_ok entries -> create_rust_bindings entries options <> Some (Err e).
Proof.
  intros Hok. unfold create_rust_bindings. intros (r & Hr & Hres)%bind_Some.
  destruct r as [b|e']; cbn in Hres; [done|]. injection Hres as ->.
  by eapply run_entries_all_ok.
Qed.

(** C4: on success, the module of every entry is emitted, and its body
    holds, one after the other, the bind group module, the vertex
    struct methods, the compute module, the entry point constants, the
    vertex states, [create_pipeline_layout] over the entry's bind
    groups and the shader module functions (lines 127-155). *)
Theorem create_rust_bindings_entry_module entries options out entry g :
  create_rust_bindings entries options = Some (Ok out) -> entry ∈ entries ->
  get_bind_group_data (naga_module entry) = Ok g ->
  let m := naga_module entry in
  exists body pre post vsm sm,
    ModItem (mod_name entry) body ∈ out /\
    vertex_struct_methods m = Some vsm /\ shader_module entry options = Some sm /\
    body = pre ++ bind_groups_module g (shader_stages m) ++ vsm ++ compute_module m ++
           entry_point_constants m ++ vertex_states to_snake m ++
           create_pipeline_layout g ++ sm ++ post.
Proof.
  unfold create_rust_bindings. intros (r & Hr & Hres)%bind_Some Hin Hg. cbv zeta.
  destruct r as [b|e']; cbn in Hres; [|done]. injection Hres as <-.
  destruct (run_entries_entry _ _ _ _ _ Hr Hin) as (b1 & b2 & Hp & Hgrow).
  destruct (process_entry_ok _ _ _ _ Hp) as (g' & b3 & vsm & sm & Hg' & Hv & Hs & _ & ->).
  rewrite Hg in Hg'. injection Hg' as <-.
  destruct (Hgrow (mod_name entry)) as [post Hpost]. rewrite !mb_contents_add_same in Hpost.
  exists (mb_contents (mod_name entry) b), (mb_contents (mod_name entry) b3), post, vsm, sm.
  split_and!; [|done|done|by rewrite Hpost, <-!app_assoc].
  apply mb_generate_contents. rewrite Hpost. intros Hn.
  apply (f_equal length) in Hn. rewrite !length_app in Hn.
  unfold create_pipeline_layout in Hn. cbn [length] in Hn. lia.
Qed.

(** on success, the emitted [_root] module starts with the prelude
    assertions added before the first entry (line 107). *)
Theorem create_rust_bindings_prelude entries options out :
  create_rust_bindings entries options = Some (Ok out) ->
  add_prelude_types_assertions options <> [] ->
  exists ts, ModItem MOD_REFERENCE_ROOT (add_prelude_types_assertions options ++ ts) ∈ out.
Proof.
  unfold create_rust_bindings. intros (r & Hr & Hres)%bind_Some Hne.
  destruct r as [b|e']; cbn in Hres; [|done]. injection Hres as <-.
  destruct (run_entries_grows _ _ _ _ Hr MOD_REFERENCE_ROOT) as [ts Hts].
  rewrite mb_contents_add_same, mb_contents_new, app_nil_l in Hts. exists ts.
  rewrite <-Hts. apply mb_generate_contents. rewrite Hts. by intros []%app_nil.
Qed.

(** C24: after a successful analysis, [create_pipeline_layout] lists the
    layouts [BindGroup0 .. BindGroup(n-1)] in this order, all distinct,
    [n] being the number of groups. *)
Theorem create_pipeline_layout_groups m g :
  get_bind_group_data m = Ok g ->
  create_pipeline_layout g =
    [PipelineLayoutFn (map (indexed_name_to_ident (lit "BindGroup")) (seq 0 (length g)))] /\
  NoDup (map (indexed_name_to_ident (lit "BindGroup")) (seq 0 (length g))).
Proof.
  intros Hg. unfold create_pipeline_layout. rewrite (get_bind_group_data_keys _ _ Hg).
  split; [done|]. pose proof (indexed_name_to_ident_inj (lit "BindGroup")).
  apply (NoDup_fmap_2 _), NoDup_seq.
Qed.

End Orchestrator.

(** [Ok(pretty_print(&output))] (158-159) on the outcome [r] of
    [create_rust_bindings]: the file's text.  [pretty_print] (162-166) is
    [syn::parse_file] of the tokens' text, unwrapped, then
    [prettyplease::unparse]; its [None] is the panic of the [unwrap]. *)
Definition create_rust_bindings_text (pretty_print : TokenStream -> option str)
           (r : option (result TokenStream CreateModuleError)) : option (result str CreateModuleError) :=
  r ← r;
  match r with
  | Ok output => text ← pretty_print output; Some (Ok text)
  | Err e => Some (Err e)
  end.

(** ** Witnesses on the entries of the tests of [lib.rs] (the tests
    themselves are in [LibTests]), with collaborators that produce no
    items, a one-item prelude, and the shader source ["source"]. *)
#[local] Existing Instances ModTree.ModTree_builder ModTree.ModTree_laws.

Local Notation test_inst t :=
  (t ModTree.ModTree ModTree.ModTree_builder (fun _ _ => []) (fun _ => []) (fun _ _ => [])
     (fun _ => [Opaque (lit "prelude")]) (fun _ => Some (lit "source"))
     (fun f _ => Some f) (fun _ => None) None (fun s => s)) (only parsing).

Local Notation test_run entries := (test_inst (@create_rust_bindings) entries test_options).

Lemma create_rust_bindings_error_witness :
  exists pre x post, [test_consecutive; test_repeated; test_non_consecutive] = pre ++ x :: post /\
    Forall analysis_ok pre /\ get_bind_group_data (naga_module x) = Err (DuplicateBinding 2).
Proof.
  apply (test_inst (@create_rust_bindings_error)
           [test_consecutive; test_repeated; test_non_consecutive] test_options).
  vm_compute. reflexivity.
Defined.

Lemma create_rust_bindings_fail_fast_witness :
  test_run ([test_consecutive] ++ test_non_consecutive :: [test_repeated]) =
    test_run ([test_consecutive] ++ [test_non_consecutive]) /\
  (test_run ([test_consecutive] ++ [test_non_consecutive]) = None \/
   test_run ([test_consecutive] ++ [test_non_consecutive]) = Some (Err NonConsecutiveBindGroups)).
Proof.
  apply (test_inst (@create_rust_bindings_fail_fast)).
  - repeat constructor. eexists. vm_compute. reflexivity.
  - vm_compute. reflexivity.
Defined.

Lemma create_rust_bindings_no_error_witness :
  test_run [test_embed; test_consecutive] <> Some (Err NonConsecutiveBindGroups).
Proof.
  apply (test_inst (@create_rust_bindings_no_error)).
  repeat constructor; eexists; vm_compute; reflexivity.
Defined.

Lemma create_rust_bindings_entry_module_witness :
  match test_run [test_embed; test_consecutive],
        get_bind_group_data (naga_module test_consecutive) with
  | Some (Ok out), Ok g =>
      let m := naga_module test_consecutive in
      exists body pre post vsm sm,
        ModItem (mod_name test_consecutive) body ∈ out /\
        vertex_struct_methods m = Some vsm /\ shader_module (fun _ => Some (lit "source"))
          (fun f _ => Some f) (fun _ => None) None test_consecutive test_options = Some sm /\
        body = pre ++ [] ++ vsm ++ compute_module m ++ entry_point_constants m ++
               vertex_states (fun s => s) m ++ create_pipeline_layout g ++ sm ++ post
  | _, _ => False
  end.
Proof.
  destruct (test_run _) as [[out|]|] eqn:E; [|vm_compute in E; discriminate..].
  destruct (get_bind_group_data _) as [g|] eqn:Eg; [|vm_compute in Eg; discriminate].
  apply (test_inst (@create_rust_bindings_entry_module) _ _ _ _ _ E); [|exact Eg].
  set_solver.
Defined.

Lemma create_rust_bindings_prelude_witness :
  match test_run [test_embed] with
  | Some (Ok out) => exists ts, ModItem MOD_REFERENCE_ROOT ([Opaque (lit "prelude")] ++ ts) ∈ out
  | _ => False
  end.
Proof.
  destruct (test_run _) as [[out|]|] eqn:E; [|vm_compute in E; discriminate..].
  apply (test_inst (@create_rust_bindings_prelude) _ _ _ E). discriminate.
Defined.

Lemma create_pipeline_layout_groups_witness :
  match get_bind_group_data (naga_module test_consecutive) with
  | Ok g =>
      create_pipeline_layout g =
        [PipelineLayoutFn (map (indexed_name_to_ident (lit "BindGroup")) (seq 0 (length g)))] /\
      NoDup (map (indexed_name_to_ident (lit "BindGroup")) (seq 0 (length g)))
  | Err _ => False
  end.
Proof.
  destruct (get_bind_group_data _) as [g|] eqn:E; [|vm_compute in E; discriminate].
  exact (create_pipeline_layout_groups _ _ E).
Defined.

Example create_pipeline_layout_consecutive :
  create_pipeline_layout [(0, {| bindings := [] |}); (1, {| bindings := [] |})] =
    [PipelineLayoutFn [lit "BindGroup0"; lit "BindGroup1"]].
Proof. vm_compute. reflexivity. Qed.

End Bindings.
