(* ===== verification/ExampleApp.v ===== *)
(** * ExampleApp: the example renderer of [src/example/src/main.rs]

    The example application uses the generated bindings to draw one
    triangle.  Its [State] keeps the window size and the surface
    configuration next to GPU handles; [resize], [render] and the closure
    given to [EventLoop::run] are its operations.  GPU objects are opaque
    here: what the model keeps is the size and configuration (the only
    data the code updates) and the calls the code makes on the surface,
    the queue, the window and the event loop, as a list of [Effect]s in
    the order the code makes them.  The outcome of
    [surface.get_current_texture()] is an input of the step, chosen by
    the environment; [main] runs [State::new] and then winit's loop,
    which after [target.exit()] still delivers the rest of the current
    iteration (up to its [AboutToWait]) and then [LoopExiting].  Sizes are [u32] in the code and natural numbers
    here: the code only compares them with 0 and copies them. *)

From S2P Require Import Prelude.

Module ExampleApp.

(** [winit::dpi::PhysicalSize<u32>]. *)
Record PhysicalSize := { width : nat; height : nat }.

(** The fields of [wgpu::SurfaceConfiguration] that the code writes. *)
Record SurfaceConfiguration := { cfg_width : nat; cfg_height : nat }.

(** The data fields of [State] (lines 20-30). *)
Record State := { size : PhysicalSize; config : SurfaceConfiguration }.

(** [wgpu::SurfaceError]. *)
Inductive SurfaceError := Timeout | Outdated | Lost | OutOfMemory.

(** The commands recorded into the render pass. *)
Inductive GpuCommand :=
| BeginRenderPassClearBlack
| SetPipeline
| SetBindGroups (* [shader::set_bind_groups(pass, bind_group0, bind_group1)] *)
| SetVertexBuffer (slot : nat)
| Draw (first_vertex vertex_end first_instance instance_end : nat).

(** Calls with an effect outside [State]. *)
Inductive Effect :=
| Configure (c : SurfaceConfiguration)  (* [surface.configure(&device, &config)] *)
| Submit (cmds : list GpuCommand)       (* [queue.submit(encoder.finish())] *)
| Present                               (* [output.present()] *)
| RequestRedraw                         (* [window.request_redraw()] *)
| Exit                                  (* [target.exit()] *)
| LogError (e : SurfaceError).          (* [eprintln!("{e:?}")] *)

Inductive WindowEvent :=
| CloseRequested
| Resized (physical_size : PhysicalSize)
| ScaleFactorChanged
| RedrawRequested
| OtherWindowEvent.

(** [winit::event::Event]: window events, [AboutToWait] (the last event
    of an iteration of the loop), [LoopExiting] (the last event of all)
    and the others. *)
Inductive Event :=
| WindowEventFor (window_id : nat) (event : WindowEvent)
| AboutToWait
| LoopExiting
| OtherEvent.

#[export] Instance PhysicalSize_eq_dec : EqDecision PhysicalSize.
Proof. solve_decision. Defined.
#[export] Instance WindowEvent_eq_dec : EqDecision WindowEvent.
Proof. solve_decision. Defined.
#[export] Instance Event_eq_dec : EqDecision Event.
Proof. solve_decision. Defined.
#[export] Instance SurfaceConfiguration_eq_dec : EqDecision SurfaceConfiguration.
Proof. solve_decision. Defined.
#[export] Instance SurfaceError_eq_dec : EqDecision SurfaceError.
Proof. solve_decision. Defined.
#[export] Instance GpuCommand_eq_dec : EqDecision GpuCommand.
Proof. solve_decision. Defined.
#[export] Instance Effect_eq_dec : EqDecision Effect.
Proof. solve_decision. Defined.

(** [State::new] (33-195), for its data: the surface is configured with
    the window's inner size ([get_default_config(.., size.width,
    size.height)]). *)
Definition state_new (window_size : PhysicalSize) : State * list Effect :=
  let config := {| cfg_width := width window_size; cfg_height := height window_size |} in
  ({| size := window_size; config := config |}, [Configure config]).

(** [State::resize] (197-204). *)
Definition resize (s : State) (new_size : PhysicalSize) : State * list Effect :=
  if (0 <? width new_size) && (0 <? height new_size) then
    let config := {| cfg_width := width new_size; cfg_height := height new_size |} in
    ({| size := new_size; config := config |}, [Configure config])
  else (s, []).

(** [State::render] (206-248): [acquire] is the result of
    [get_current_texture], whose error is returned by [?]. *)
Definition render (acquire : result unit SurfaceError) : result (list Effect) SurfaceError :=
  let! _ := acquire in
  Ok [Submit [BeginRenderPassClearBlack; SetPipeline; SetBindGroups;
              SetVertexBuffer 0; Draw 0 3 0 1];
      Present].

(** The [match state.render()] of a redraw (272-277). *)
Definition redraw_outcome (s : State) (acquire : result unit SurfaceError) : State * list Effect :=
  match render acquire with
  | Ok fx => (s, fx)
  | Err Lost => resize s (size s)
  | Err OutOfMemory => (s, [Exit])
  | Err e => (s, [LogError e])
  end.

(** The closure given to [event_loop.run] (260-285), for the window
    [window_id]. *)
Definition handle_event (window_id : nat) (s : State) (acquire : result unit SurfaceError)
           (ev : Event) : State * list Effect :=
  match ev with
  | WindowEventFor wid event =>
      if decide (wid = window_id) then
        match event with
        | CloseRequested => (s, [Exit])
        | Resized physical_size =>
            let '(s', fx) := resize s physical_size in (s', fx ++ [RequestRedraw])
        | ScaleFactorChanged => (s, [])
        | RedrawRequested =>
            let '(s', fx) := redraw_outcome s acquire in (s', fx ++ [RequestRedraw])
        | OtherWindowEvent => (s, [RequestRedraw])
        end
      else (s, [])
  | _ => (s, [])
  end.

(** A run of the event loop: each event comes with the outcome of the
    texture acquisition a redraw would see. *)
Fixpoint run_events (window_id : nat) (s : State)
         (evs : list (Event * result unit SurfaceError)) : State * list Effect :=
  match evs with
  | [] => (s, [])
  | (ev, acquire) :: rest =>
      let '(s1, fx1) := handle_event window_id s acquire ev in
      let '(s2, fx2) := run_events window_id s1 rest in
      (s2, fx1 ++ fx2)
  end.

(** [EventLoop::run] of winit 0.29 (outside [src/]): the closure is
    called on each event in turn.  [target.exit()] does not stop the
    loop at once: the events of the current iteration are still
    delivered, up to and including its [AboutToWait]; then the closure
    gets [LoopExiting] and the loop returns.  [exiting] records that the
    closure has called [target.exit()]. *)
Fixpoint run_until_exit (window_id : nat) (s : State) (exiting : bool)
         (evs : list (Event * result unit SurfaceError)) : State * list Effect :=
  match evs with
  | [] => (s, [])
  | (ev, acquire) :: rest =>
      let '(s1, fx1) := handle_event window_id s acquire ev in
      let exiting1 := exiting || bool_decide (Exit ∈ fx1) in
      if exiting1 && bool_decide (ev = AboutToWait) then
        let '(s2, fx2) := handle_event window_id s1 acquire LoopExiting in (s2, fx1 ++ fx2)
      else let '(s2, fx2) := run_until_exit window_id s1 exiting1 rest in (s2, fx1 ++ fx2)
  end.

(** [main] (250-287): [State::new] on the window's inner size, then the
    event loop over the window [window_id]. *)
Definition main (window_id : nat) (window_size : PhysicalSize)
           (evs : list (Event * result unit SurfaceError)) : State * list Effect :=
  let '(s0, fx0) := state_new window_size in
  let '(s, fx) := run_until_exit window_id s0 false evs in
  (s, fx0 ++ fx).

(** The states the application can be in, for window [window_id]
    opened at size [window_size]. *)
Inductive reachable (window_id : nat) (window_size : PhysicalSize) : State -> Prop :=
| reachable_new : reachable window_id window_size (state_new window_size).1
| reachable_step s acquire ev :
    reachable window_id window_size s ->
    reachable window_id window_size (handle_event window_id s acquire ev).1.

(** The configuration invariant: the surface is configured at the
    current size. *)
Definition config_matches (s : State) : Prop :=
  cfg_width (config s) = width (size s) /\ cfg_height (config s) = height (size s).

Definition positive_size (sz : PhysicalSize) : Prop := 0 < width sz /\ 0 < height sz.

(** ** Abstract specification of the window handling

    What the example promises about its surface: it is configured at the
    last positive size the window reported; every other event leaves the
    size alone. *)
Definition abstract_step (window_id : nat) (sz : PhysicalSize) (ev : Event) : PhysicalSize :=
  match ev with
  | WindowEventFor wid (Resized new_size) =>
      if bool_decide (wid = window_id) && (0 <? width new_size) && (0 <? height new_size)
      then new_size else sz
  | _ => sz
  end.

Definition abstract_run (window_id : nat) (sz : PhysicalSize)
           (evs : list (Event * result unit SurfaceError)) : PhysicalSize :=
  fold_left (abstract_step window_id) (map fst evs) sz.

(** ** Lemmas on one call *)

Lemma resize_config_matches s sz : config_matches s -> config_matches (resize s sz).1.
Proof. unfold resize. by destruct (_ && _). Qed.

Lemma resize_positive s sz :
  positive_size (size s) -> positive_size (size (resize s sz).1).
Proof.
  unfold resize, positive_size. destruct (_ && _) eqn:E; [|done].
  apply andb_prop in E as [?%Nat.ltb_lt ?%Nat.ltb_lt]. done.
Qed.

Lemma resize_configure s sz c :
  Configure c ∈ (resize s sz).2 -> 0 < cfg_width c /\ 0 < cfg_height c.
Proof.
  unfold resize. destruct (_ && _) eqn:E; cbn; [|by intros ?%elem_of_nil].
  apply andb_prop in E as [?%Nat.ltb_lt ?%Nat.ltb_lt].
  by intros [= ->]%list_elem_of_singleton.
Qed.

Lemma handle_event_cases window_id s acquire ev :
  handle_event window_id s acquire ev = (s, []) \/
  handle_event window_id s acquire ev = (s, [Exit]) \/
  (exists sz, handle_event window_id s acquire ev =
              ((resize s sz).1, (resize s sz).2 ++ [RequestRedraw])) \/
  handle_event window_id s acquire ev =
    ((redraw_outcome s acquire).1, (redraw_outcome s acquire).2 ++ [RequestRedraw]) \/
  handle_event window_id s acquire ev = (s, [RequestRedraw]).
Proof.
  destruct ev as [wid event| | |]; cbn; [|auto..]. case_decide; [|auto].
  destruct event as [| sz | | |]; [auto| |auto| |auto].
  - right; right; left. exists sz. by destruct (resize s sz).
  - right; right; right; left. by destruct (redraw_outcome s acquire).
Qed.

Lemma redraw_outcome_state s acquire :
  (redraw_outcome s acquire).1 = s \/ (redraw_outcome s acquire).1 = (resize s (size s)).1.
Proof. unfold redraw_outcome. destruct acquire as [[]|[]]; cbn; auto. Qed.

Lemma redraw_outcome_configure s acquire c :
  Configure c ∈ (redraw_outcome s acquire).2 -> 0 < cfg_width c /\ 0 < cfg_height c.
Proof.
  unfold redraw_outcome. destruct acquire as [[]|[]]; cbn; try apply resize_configure;
    rewrite ?elem_of_cons, ?elem_of_nil; naive_solver.
Qed.

Lemma handle_event_config_matches window_id s acquire ev :
  config_matches s -> config_matches (handle_event window_id s acquire ev).1.
Proof.
  intros Hs.
  destruct (handle_event_cases window_id s acquire ev) as [E|[E|[[sz E]|[E|E]]]];
    rewrite E; cbn; auto using resize_config_matches.
  destruct (redraw_outcome_state s acquire) as [->| ->]; auto using resize_config_matches.
Qed.

Lemma handle_event_positive window_id s acquire ev :
  positive_size (size s) -> positive_size (size (handle_event window_id s acquire ev).1).
Proof.
  intros Hs.
  destruct (handle_event_cases window_id s acquire ev) as [E|[E|[[sz E]|[E|E]]]];
    rewrite E; cbn; auto using resize_positive.
  destruct (redraw_outcome_state s acquire) as [->| ->]; auto using resize_positive.
Qed.

Lemma run_events_state window_id s evs (P : State -> Prop) :
  (forall s acquire ev, P s -> P (handle_event window_id s acquire ev).1) ->
  P s -> P (run_events window_id s evs).1.
Proof.
  intros Hstep. revert s. induction evs as [|[ev acquire] evs IH]; intros s Hs; cbn; [done|].
  destruct (handle_event _ _ _ _) as [s1 fx1] eqn:E1.
  destruct (run_events _ s1 _) as [s2 fx2] eqn:E2. cbn.
  change s2 with (s2, fx2).1. rewrite <-E2. apply IH.
  change s1 with (s1, fx1).1. rewrite <-E1. by apply Hstep.
Qed.

Lemma run_events_cons window_id s ev acquire evs :
  (run_events window_id s ((ev, acquire) :: evs)).1 =
  (run_events window_id (handle_event window_id s acquire ev).1 evs).1.
Proof.
  change (run_events window_id s ((ev, acquire) :: evs)) with
    (let '(s1, fx1) := handle_event window_id s acquire ev in
     let '(s2, fx2) := run_events window_id s1 evs in (s2, fx1 ++ fx2)).
  destruct (handle_event _ _ _ _) as [s1 fx1]. change ((s1, fx1).1) with s1.
  by destruct (run_events window_id s1 evs).
Qed.

Lemma resize_same_size s : (size (resize s (size s)).1) = size s.
Proof. unfold resize. by destruct (_ && _). Qed.

(** One step of the handler moves the size as the abstract step does. *)
Lemma handle_event_abstract window_id s acquire ev :
  size (handle_event window_id s acquire ev).1 = abstract_step window_id (size s) ev.
Proof.
  destruct ev as [wid event| | |]; [|done..]. unfold handle_event, abstract_step.
  case_decide as Hw.
  - rewrite bool_decide_true by done. destruct event as [|sz| | |]; try done.
    + unfold resize. by destruct (_ && _).
    + destruct (redraw_outcome s acquire) as [s' fx] eqn:E. cbn.
      destruct (redraw_outcome_state s acquire) as [Hs|Hs]; rewrite E in Hs; cbn in Hs;
        [by subst|by rewrite Hs, resize_same_size].
  - rewrite bool_decide_false by done. by destruct event.
Qed.

Lemma handle_event_configure window_id s acquire ev c :
  Configure c ∈ (handle_event window_id s acquire ev).2 -> 0 < cfg_width c /\ 0 < cfg_height c.
Proof.
  intros Hc.
  destruct (handle_event_cases window_id s acquire ev) as [E|[E|[[sz E]|[E|E]]]];
    rewrite E in Hc; cbn in Hc; rewrite ?elem_of_app, ?elem_of_cons, ?elem_of_nil in Hc;
    destruct_or? Hc; try discriminate; eauto using resize_configure, redraw_outcome_configure.
Qed.

Lemma resize_no_exit s sz : Exit ∉ (resize s sz).2.
Proof. unfold resize. destruct (_ && _); cbn; [intros [=]%list_elem_of_singleton|set_solver]. Qed.

(** When the handler calls [target.exit()], that is its last call but
    for the redraw request that ends the closure. *)
Lemma handle_event_exit window_id s acquire ev :
  Exit ∈ (handle_event window_id s acquire ev).2 ->
  exists pre post, (handle_event window_id s acquire ev).2 = pre ++ Exit :: post /\
                   Forall (fun e => e = RequestRedraw) post.
Proof.
  destruct (handle_event_cases window_id s acquire ev) as [E|[E|[[sz E]|[E|E]]]]; rewrite E; cbn.
  - set_solver.
  - intros _. by exists [], [].
  - rewrite elem_of_app, list_elem_of_singleton. intros [H|[=]]. by apply resize_no_exit in H.
  - unfold redraw_outcome. destruct acquire as [[]|[]]; cbn.
    4: rewrite elem_of_app, list_elem_of_singleton; intros [H|[=]]; by apply resize_no_exit in H.
    4: intros _; exists [], [RequestRedraw]; by repeat constructor.
    all: rewrite ?elem_of_cons, ?elem_of_nil; intros H; by destruct_or! H.
  - set_solver.
Qed.

Lemma run_until_exit_cons window_id s exiting ev acquire evs :
  run_until_exit window_id s exiting ((ev, acquire) :: evs) =
  let '(s1, fx1) := handle_event window_id s acquire ev in
  let exiting1 := exiting || bool_decide (Exit ∈ fx1) in
  if exiting1 && bool_decide (ev = AboutToWait) then
    ((handle_event window_id s1 acquire LoopExiting).1, fx1 ++ (handle_event window_id s1 acquire LoopExiting).2)
  else ((run_until_exit window_id s1 exiting1 evs).1, fx1 ++ (run_until_exit window_id s1 exiting1 evs).2).
Proof.
  cbn. destruct (handle_event window_id s acquire ev) as [s1 fx1]. destruct (_ && _).
  - by destruct (handle_event window_id s1 acquire LoopExiting).
  - by destruct (run_until_exit window_id s1 _ evs).
Qed.

Lemma run_until_exit_configure window_id s exiting evs c :
  Configure c ∈ (run_until_exit window_id s exiting evs).2 -> 0 < cfg_width c /\ 0 < cfg_height c.
Proof.
  induction evs as [|[ev acquire] evs IH] in s, exiting |- *; [cbn; set_solver|].
  rewrite run_until_exit_cons.
  pose proof (handle_event_configure window_id s acquire ev c) as Hc.
  destruct (handle_event window_id s acquire ev) as [s1 fx1] eqn:E1. cbn zeta.
  destruct (_ && _); cbn [snd]; rewrite elem_of_app; intros [H|H]; [by apply Hc| |by apply Hc|by apply IH in H].
  pose proof (handle_event_configure window_id s1 acquire LoopExiting c) as Hl. cbn in Hl, H. set_solver.
Qed.


(** ** Invariants of the application *)

(** a window opened at a positive size keeps a positive size: the
    guard of [resize] drops the zero sizes a minimised window reports. *)
Theorem reachable_positive_size window_id window_size s :
  positive_size window_size -> reachable window_id window_size s -> positive_size (size s).
Proof.
  intros Hpos. induction 1; [done|]. by apply handle_event_positive.
Qed.

(** C25: after any sequence of events, whatever the outcomes of the
    texture acquisitions, the surface is configured at the current size
    and the size stays positive when the window was opened at a
    positive size. *)
Theorem run_events_invariant window_id window_size evs :
  let s := (run_events window_id (state_new window_size).1 evs).1 in
  config_matches s /\ (positive_size window_size -> positive_size (size s)).
Proof.
  split.
  - apply run_events_state; [apply handle_event_config_matches|done].
  - intros Hpos. apply (run_events_state _ _ _ (fun s => positive_size (size s)));
      [apply handle_event_positive|done].
Qed.

(** C29: every event of the window other than [CloseRequested] and
    [ScaleFactorChanged] ends with a redraw request, so the example
    renders continuously. *)
Theorem handle_event_requests_redraw window_id s acquire event :
  event <> CloseRequested -> event <> ScaleFactorChanged ->
  exists fx, (handle_event window_id s acquire (WindowEventFor window_id event)).2 =
             fx ++ [RequestRedraw].
Proof.
  intros H1 H2. cbn. rewrite decide_True by done.
  destruct event; try congruence.
  - destruct (resize s physical_size); eauto.
  - destruct (redraw_outcome s acquire); eauto.
  - by exists [].
Qed.

(** a lost surface is reconfigured at the current size, and the
    state, whose configuration already matches, is unchanged. *)
Theorem handle_event_surface_lost window_id s :
  config_matches s -> positive_size (size s) ->
  handle_event window_id s (Err Lost) (WindowEventFor window_id RedrawRequested) =
  (s, [Configure (config s); RequestRedraw]).
Proof.
  destruct s as [[w h] [cw ch]]. unfold config_matches, positive_size. cbn.
  intros [-> ->] [Hw Hh]. destruct w, h; [lia..|]. by rewrite decide_True.
Qed.

(** C27: from a window opened at a positive size, the whole program
    ([State::new] and the event loop) only ever configures the surface
    with a positive width and height. *)
Theorem main_configure_positive window_id window_size evs c :
  positive_size window_size -> Configure c ∈ (main window_id window_size evs).2 ->
  0 < cfg_width c /\ 0 < cfg_height c.
Proof.
  intros [Hw Hh]. unfold main. cbn [state_new].
  destruct (run_until_exit _ _ _) as [s fx] eqn:E. cbn.
  rewrite elem_of_cons. intros [[= ->]|H]; [done|].
  eapply (run_until_exit_configure window_id _ false evs). rewrite E. exact H.
Qed.


(** C26: refinement of the abstract specification: along any sequence of
    events, from a consistent state, the handler keeps the surface
    configured at the size the abstract machine computes, the last
    positive size reported for the window. *)
Theorem run_events_refines window_id s evs :
  config_matches s ->
  let s' := (run_events window_id s evs).1 in
  size s' = abstract_run window_id (size s) evs /\ config_matches s'.
Proof.
  unfold abstract_run. revert s. induction evs as [|[ev acquire] evs IH]; intros s Hs; [done|].
  rewrite run_events_cons. cbn [map fold_left fst].
  rewrite <-(handle_event_abstract window_id s acquire ev).
  apply IH. by apply handle_event_config_matches.
Qed.

(** The first configuration is not guarded: a window created with a
    zero size configures the surface with a zero width and height. *)
Example state_new_zero_size :
  (state_new {| width := 0; height := 0 |}).2 = [Configure {| cfg_width := 0; cfg_height := 0 |}].
Proof. reflexivity. Qed.

Lemma reachable_positive_size_witness :
  positive_size (size (handle_event 1 (state_new {| width := 800; height := 600 |}).1 (Ok tt)
                         (WindowEventFor 1 (Resized {| width := 0; height := 0 |}))).1).
Proof.
  apply (reachable_positive_size 1 {| width := 800; height := 600 |}).
  - unfold positive_size. cbn. lia.
  - by do 2 constructor.
Defined.

Lemma main_configure_positive_witness :
  positive_size {| width := 800; height := 600 |} /\
  0 < cfg_width {| cfg_width := 1024; cfg_height := 768 |} /\
  0 < cfg_height {| cfg_width := 1024; cfg_height := 768 |}.
Proof.
  split; [split; cbn; lia|].
  apply (main_configure_positive 1 {| width := 800; height := 600 |}
           [(WindowEventFor 1 (Resized {| width := 1024; height := 768 |}), Ok tt)]).
  - split; cbn; lia.
  - vm_compute. set_solver.
Defined.

(** After [target.exit()] (an out-of-memory error while rendering) the
    redraw requested in the same iteration is still delivered and
    rendered; the resize after the iteration's [AboutToWait] is not. *)
Example main_render_after_exit :
  (main 1 {| width := 800; height := 600 |}
     [(WindowEventFor 1 RedrawRequested, Err OutOfMemory);
      (WindowEventFor 1 RedrawRequested, Ok tt);
      (AboutToWait, Ok tt);
      (WindowEventFor 1 (Resized {| width := 1024; height := 768 |}), Ok tt)]).2 =
  [Configure {| cfg_width := 800; cfg_height := 600 |}; Exit; RequestRedraw;
   Submit [BeginRenderPassClearBlack; SetPipeline; SetBindGroups; SetVertexBuffer 0; Draw 0 3 0 1];
   Present; RequestRedraw].
Proof. reflexivity. Qed.


Lemma run_events_invariant_witness :
  let s := (run_events 1 (state_new {| width := 800; height := 600 |}).1
              [(WindowEventFor 1 (Resized {| width := 0; height := 0 |}), Ok tt);
               (WindowEventFor 1 RedrawRequested, Err Lost)]).1 in
  config_matches s /\ (positive_size {| width := 800; height := 600 |} -> positive_size (size s)).
Proof. exact (run_events_invariant 1 _ _). Defined.

Lemma run_events_refines_witness :
  let s' := (run_events 1 (state_new {| width := 800; height := 600 |}).1
               [(WindowEventFor 1 (Resized {| width := 1024; height := 0 |}), Ok tt);
                (WindowEventFor 1 (Resized {| width := 640; height := 480 |}), Ok tt);
                (WindowEventFor 1 RedrawRequested, Err Lost)]).1 in
  size s' = {| width := 640; height := 480 |} /\ config_matches s'.
Proof.
  pose proof (run_events_refines 1 (state_new {| width := 800; height := 600 |}).1
                [(WindowEventFor 1 (Resized {| width := 1024; height := 0 |}), Ok tt);
                 (WindowEventFor 1 (Resized {| width := 640; height := 480 |}), Ok tt);
                 (WindowEventFor 1 RedrawRequested, Err Lost)]) as H.
  destruct H as [H1 H2]; [split; reflexivity|]. split; [rewrite H1; reflexivity|exact H2].
Defined.

Lemma handle_event_requests_redraw_witness :
  exists fx, (handle_event 1 (state_new {| width := 800; height := 600 |}).1 (Err Timeout)
                (WindowEventFor 1 RedrawRequested)).2 = fx ++ [RequestRedraw].
Proof. apply handle_event_requests_redraw; discriminate. Defined.

Lemma handle_event_surface_lost_witness :
  handle_event 1 {| size := {| width := 800; height := 600 |};
                    config := {| cfg_width := 800; cfg_height := 600 |} |}
               (Err Lost) (WindowEventFor 1 RedrawRequested) =
  ({| size := {| width := 800; height := 600 |}; config := {| cfg_width := 800; cfg_height := 600 |} |},
   [Configure {| cfg_width := 800; cfg_height := 600 |}; RequestRedraw]).
Proof.
  apply (handle_event_surface_lost 1); unfold config_matches, positive_size; cbn; lia.
Defined.

End ExampleApp.
