(* ===== verification/ExampleResources.v ===== *)
(** * ExampleResources: what [State::new] builds with the generated bindings

    [State::new] (src/example/src/main.rs, 33-195) creates the GPU
    resources of the example: a render pipeline through the generated
    [create_shader_module], [create_pipeline_layout], [vertex_state],
    [vs_main_entry] and [ENTRY_FS_MAIN]; a 4x4 gradient texture with its
    data; a sampler; the [rts] and uniform buffers; the two generated bind
    groups [BindGroup0] and [BindGroup1]; and a vertex buffer of three
    [VertexInput]s.  GPU objects stay opaque: the model keeps the
    descriptors and data the code writes, and the names of the generated
    items it uses.

    The shader the example is generated from is not under [src/]; the
    composition theorem is stated for every shader with the entry points
    and bind groups the example relies on, and its witness uses a shader
    of that shape ([example_shader], from what [main.rs] uses). *)

From S2P Require Import Prelude Naga Emit BindGroup EntryPoints Bindings ExampleApp.

Module ExampleResources.
Import Naga BindGroup EntryPoints Bindings ExampleApp.

(** The [wgpu::TextureFormat]s of the example and of common surfaces,
    with their texel size ([block_copy_size], outside [src/]). *)
Inductive TextureFormat := Rgba8Unorm | Rgba8UnormSrgb | Bgra8Unorm | Bgra8UnormSrgb.

Definition block_copy_size (f : TextureFormat) : nat :=
  match f with Rgba8Unorm | Rgba8UnormSrgb | Bgra8Unorm | Bgra8UnormSrgb => 4 end.

Record Extent3d := { ext_width : nat; ext_height : nat; depth_or_array_layers : nat }.

Record TextureDescriptor := {
  tex_size : Extent3d;
  mip_level_count : nat;
  sample_count : nat;
  tex_format : TextureFormat
}.

(** The gradient texture's descriptor (93-106). *)
Definition gradient_texture : TextureDescriptor :=
  {| tex_size := {| ext_width := 4; ext_height := 4; depth_or_array_layers := 1 |};
     mip_level_count := 1; sample_count := 1; tex_format := Rgba8Unorm |}.

(** Its data (108-128): sixteen RGBA texels, flattened into bytes by
    [.into_iter().flatten().collect::<Vec<u8>>()]. *)
Definition gradient_texels : list (list nat) :=
  [[0; 0; 255; 255]; [64; 0; 255; 255]; [128; 0; 255; 255]; [255; 0; 255; 255];
   [0; 64; 255; 255]; [64; 64; 255; 255]; [128; 64; 255; 255]; [255; 64; 255; 255];
   [0; 128; 255; 255]; [64; 128; 255; 255]; [128; 128; 255; 255]; [255; 128; 255; 255];
   [0; 255; 255; 255]; [64; 255; 255; 255]; [128; 255; 255; 255]; [255; 255; 255; 255]].

Definition gradient_texture_data : list nat := concat gradient_texels.

(** What [create_texture_with_data] (outside [src/]) requires of one mip
    level: one texel of [block_copy_size] bytes per pixel of every layer,
    each byte a [u8]. *)
Definition texture_data_valid (d : TextureDescriptor) (data : list nat) : Prop :=
  length data = ext_width (tex_size d) * ext_height (tex_size d) *
                depth_or_array_layers (tex_size d) * block_copy_size (tex_format d) /\
  Forall (fun b => b < 256) data.

Inductive FilterMode := Nearest | Linear.

(** The sampler (132-136): linear magnification and minification. *)
Record SamplerDescriptor := { mag_filter : FilterMode; min_filter : FilterMode }.

Definition example_sampler : SamplerDescriptor := {| mag_filter := Linear; min_filter := Linear |}.

Inductive BufferUsage := UsageAll | UsageUniform | UsageVertex.

Record BufferInit := { buf_label : str; buf_len : nat; buf_usage : BufferUsage }.

(** The [rts] buffer (137-141): three bytes, every usage. *)
Definition rts_buffer : BufferInit :=
  {| buf_label := lit "rts"; buf_len := length [1; 2; 3]; buf_usage := UsageAll |}.

(** The vertex buffer (168-182): three [VertexInput { position }]s. *)
Definition example_vertices : list (Z * Z * Z) :=
  [((-1)%Z, (-1)%Z, 0%Z); (3%Z, (-1)%Z, 0%Z); ((-1)%Z, 3%Z, 0%Z)].

(** A generated bind group built with [from_bindings] and its layout
    struct's fields (143-164). *)
Record BindGroupInit := { bg_type : str; bg_layout : str; bg_fields : list str }.

Definition example_bind_groups : list BindGroupInit :=
  [{| bg_type := lit "BindGroup0"; bg_layout := lit "BindGroupLayout0";
      bg_fields := [lit "color_texture"; lit "color_sampler"; lit "rts"] |};
   {| bg_type := lit "BindGroup1"; bg_layout := lit "BindGroupLayout1";
      bg_fields := [lit "uniforms"] |}].

Inductive VertexStepMode := StepVertex | StepInstance.

(** The render pipeline (68-88): the generated functions and constants
    it names, the step modes passed to [vs_main_entry], and its one
    color target, in the surface's format. *)
Record RenderPipelineDescriptor := {
  rp_label : str;
  rp_layout_fn : str;
  rp_vertex_entry_fn : str;
  rp_step_modes : list VertexStepMode;
  rp_fragment_entry_const : str;
  rp_target_format : TextureFormat
}.

Definition example_pipeline (surface_format : TextureFormat) : RenderPipelineDescriptor :=
  {| rp_label := lit "Render Pipeline"; rp_layout_fn := lit "create_pipeline_layout";
     rp_vertex_entry_fn := lit "vs_main_entry"; rp_step_modes := [StepVertex];
     rp_fragment_entry_const := lit "ENTRY_FS_MAIN"; rp_target_format := surface_format |}.

(** A shader of the shape the example uses (its source is not under
    [src/]): [VertexInput { @location(0) position: vec3<f32> }],
    [vs_main(in: VertexInput)], [fs_main], the texture, sampler and
    [rts] buffer in group 0 and the uniforms in group 1. *)
Definition example_shader : Module :=
  let at_ (n : string) (sp : AddressSpace) (g b ty : nat) :=
    {| gv_name := Some (lit n); gv_space := sp;
       gv_binding := Some {| group := g; binding := b |}; gv_ty := ty |} in
  {| types := [{| ty_name := None; ty_inner := TVector Tri f32 |};
               {| ty_name := Some (lit "VertexInput");
                  ty_inner := TStruct [ex_field "position" 0 0] 16 |};
               {| ty_name := None; ty_inner := TImage |};
               {| ty_name := None; ty_inner := TSampler false |}];
     global_variables := [at_ "color_texture" Handle 0 0 2; at_ "color_sampler" Handle 0 1 3;
                          at_ "rts" (Storage Load) 0 2 0; at_ "uniforms" Uniform 1 0 0];
     entry_points := [ex_entry "vs_main" Vertex (0, 0, 0) [ex_struct_arg 1];
                      ex_entry "fs_main" Fragment (0, 0, 0) []] |}.

(** ** The setup of [State::new] (33-66)

    Every call on the platform can fail and is unwrapped, so a failure
    is a panic: [None].  What the platform (wgpu, the driver and the
    window system, outside [src/]) answers is an input, adapters being
    numbered. *)
Inductive PowerPreference := PowerNone | LowPower | HighPerformance.

Record InstanceDescriptor := { backends_all : bool }.

Record RequestAdapterOptions := {
  power_preference : PowerPreference;
  compatible_surface : bool;
  force_fallback_adapter : bool
}.

Inductive Feature := TextureCompressionBc.

Record DeviceDescriptor := { required_features : list Feature; default_limits : bool }.

Record Platform := {
  create_surface : InstanceDescriptor -> bool;
  request_adapter : RequestAdapterOptions -> option nat;
  request_device : nat -> DeviceDescriptor -> option unit;
  surface_formats : nat -> list TextureFormat;
  get_default_config : nat -> nat -> nat -> option unit
}.

(** The instance (34-37): every backend. *)
Definition instance_descriptor : InstanceDescriptor := {| backends_all := true |}.

(** The adapter request (39-46): default power preference, compatible
    with the surface, no fallback adapter. *)
Definition adapter_options : RequestAdapterOptions :=
  {| power_preference := PowerNone; compatible_surface := true; force_fallback_adapter := false |}.

(** The device request (48-58): BC texture compression, default limits. *)
Definition device_descriptor : DeviceDescriptor :=
  {| required_features := [TextureCompressionBc]; default_limits := true |}.

Definition unwrap_bool (b : bool) : option unit := if b then Some tt else None.

(** [surface.configure(&device, &config)] (63): wgpu validates the
    configuration and its default error handler panics on an error; a
    zero width or height is [ConfigureSurfaceError::ZeroArea]. *)
Definition configure_valid (c : SurfaceConfiguration) : bool :=
  (0 <? cfg_width c) && (0 <? cfg_height c).

(** [State::new] up to the pipeline descriptor (33-88): the surface,
    adapter and device, [caps.formats[0]] (a panic when the surface
    supports no format), the default configuration, the [configure] call
    of [state_new] (a panic on a zero-area window), and the render
    pipeline targeting the surface format.  The validation of the
    pipeline and the later calls of [State::new] (texture, buffers, bind
    groups) are wgpu's and are not modelled. *)
Definition state_new_setup (p : Platform) (window_size : PhysicalSize)
  : option (State * list Effect * RenderPipelineDescriptor) :=
  _ ← unwrap_bool (create_surface p instance_descriptor);
  adapter ← request_adapter p adapter_options;
  _ ← request_device p adapter device_descriptor;
  surface_format ← head (surface_formats p adapter);
  _ ← get_default_config p adapter (width window_size) (height window_size);
  let '(s, fx) := state_new window_size in
  _ ← unwrap_bool (configure_valid (config s));
  Some (s, fx, example_pipeline surface_format).

(** ** The setup of [State::new] *)

(** A window of zero width or height (a minimised window) makes
    [State::new] panic, whatever the platform answers: the first
    [configure] is not guarded as [resize] is. *)
Lemma state_new_setup_zero_area p window_size :
  width window_size = 0 \/ height window_size = 0 -> state_new_setup p window_size = None.
Proof.
  intros Hz. unfold state_new_setup.
  destruct (unwrap_bool _); cbn; [|done]. destruct (request_adapter _ _); cbn; [|done].
  destruct (request_device _ _ _); cbn; [|done]. destruct (head _); cbn; [|done].
  destruct (get_default_config _ _ _ _); cbn; [|done].
  unfold configure_valid, unwrap_bool. cbn. destruct Hz as [-> | ->]; [done|].
  by rewrite andb_false_r.
Qed.

(** ** The example against the generated bindings *)
(** C30: for every shader with a vertex entry [vs_main] taking one vertex
    input struct, a fragment entry [fs_main] and two bind groups that
    pass the analysis, the generated code defines what [State::new]
    uses: [ENTRY_FS_MAIN] naming [fs_main], a [vs_main_entry] taking one
    step mode per step mode the example passes, and a pipeline layout
    over exactly the example's two bind groups, in order. *)
Theorem example_uses_generated_bindings (ts : str -> str) (m : Module) (g : BindGroupData) f evs efs :
  evs ∈ entry_points m -> ep_name evs = lit "vs_main" -> ep_stage evs = Vertex ->
  efs ∈ entry_points m -> ep_name efs = lit "fs_main" ->
  length (get_vertex_input_structs m) = length (rp_step_modes (example_pipeline f)) ->
  get_bind_group_data m = Ok g -> length g = length example_bind_groups ->
  ConstStr (rp_fragment_entry_const (example_pipeline f)) (lit "fs_main") ∈ entry_point_constants m /\
  (exists ps c bufs,
     VertexEntryFn (rp_vertex_entry_fn (example_pipeline f)) ps (length (rp_step_modes (example_pipeline f)))
                   c bufs ∈ vertex_states ts m /\
     length ps = length (rp_step_modes (example_pipeline f))) /\
  create_pipeline_layout g = [PipelineLayoutFn (map bg_type example_bind_groups)].
Proof.
  intros Hv Hvn Hvs Hf Hfn Hn Hg Hlen. split_and!.
  - apply elem_of_map_iff. exists efs. split; [|done].
    unfold entry_const_name. by rewrite Hfn.
  - pose proof (elem_of_vertex_states ts m evs Hv Hvs) as Hin.
    unfold vertex_entry_fn_ref in Hin. rewrite Hvn, Hn in Hin.
    eexists _, _, _. split; [exact Hin|]. by rewrite length_map.
  - unfold create_pipeline_layout. rewrite (get_bind_group_data_keys _ _ Hg), Hlen.
    vm_compute. reflexivity.
Qed.

Lemma example_uses_generated_bindings_witness :
  match get_bind_group_data example_shader with
  | Ok g =>
      ConstStr (rp_fragment_entry_const (example_pipeline Bgra8UnormSrgb)) (lit "fs_main")
        ∈ entry_point_constants example_shader /\
      (exists ps c bufs,
         VertexEntryFn (rp_vertex_entry_fn (example_pipeline Bgra8UnormSrgb)) ps (length (rp_step_modes (example_pipeline Bgra8UnormSrgb)))
                       c bufs ∈ vertex_states (fun s => s) example_shader /\
         length ps = length (rp_step_modes (example_pipeline Bgra8UnormSrgb))) /\
      create_pipeline_layout g = [PipelineLayoutFn (map bg_type example_bind_groups)]
  | Err _ => False
  end.
Proof.
  destruct (get_bind_group_data example_shader) as [g|] eqn:E; [|vm_compute in E; discriminate].
  apply (example_uses_generated_bindings (fun s => s) example_shader g Bgra8UnormSrgb
           (ex_entry "vs_main" Vertex (0, 0, 0) [ex_struct_arg 1])
           (ex_entry "fs_main" Fragment (0, 0, 0) []));
    [left | reflexivity | reflexivity | right; left | reflexivity | vm_compute; reflexivity
    | exact E | vm_compute in E; injection E as <-; reflexivity].
Defined.

End ExampleResources.
