(* ===== verification/LibTests.v ===== *)
(** * LibTests: the unit tests of [lib.rs] and [utils.rs]

    Each [#[test]] function of [src/wgsl_bindgen/src/lib.rs] (module
    [test], lines 518-1137) and of [src/wgsl_bindgen/src/quote_gen/utils.rs]
    (lines 70-88) is a boolean [Definition] of the same name: the shader
    of the test as the naga front end parses it, the call, and the
    assertion.  [assert_tokens_eq!] compares token streams after
    normalisation; here token streams are data and the comparison is
    equality.  A panic in the call fails the test.

    The tests that run the whole generator ([create_shader_module])
    need the collaborators outside [src/]: they are instantiated by
    stubs (no struct or constant items, an empty bind group module, a
    one-item prelude, a naga writer returning a fixed text), so those
    tests check exactly what the code under [src/] adds.  The theorem
    [lib_tests_pass] evaluates every test. *)

From S2P Require Import Prelude Naga Emit Demangle BindGroup EntryPoints ModBuilder Bindings.

Module LibTests.
Import Naga BindGroup EntryPoints Bindings.

(** [assert_tokens_eq!]. *)
Definition assert_tokens_eq (expected actual : TokenStream) : bool :=
  bool_decide (expected = actual).

(** A call that may panic, then a check of its value. *)
Definition then_check {A} (call : option A) (check : A -> bool) : bool :=
  match call with Some a => check a | None => false end.

(** [CaseExt::to_snake] of the [case] crate (outside [src/]): an
    underscore before a capital that follows a lower-case letter or a
    digit, capitals lowered. *)
Definition lower_char (c : ascii) : ascii :=
  if is_upper c then ascii_of_nat (nat_of_ascii c + 32) else c.

Fixpoint to_snake_go (after_word : bool) (s : str) : str :=
  match s with
  | [] => []
  | c :: s' =>
      if is_upper c then
        (if after_word then ["_"%char; lower_char c] else [lower_char c]) ++ to_snake_go false s'
      else c :: to_snake_go (is_lower c || is_digit c) s'
  end.

Definition to_snake (s : str) : str := to_snake_go false s.

(** ** The shaders of the vertex tests *)

Definition scalar_of (k : ScalarKind) (w : nat) : Scalar := {| kind := k; width := w |}.

(** [struct VertexInput0 { @location(0) a: T; @location(1) b: vec2<T>;
    @location(2) c: vec3<T>; @location(3) d: vec4<T> };
    @vertex fn main(in0: VertexInput0) {}], with the field names given. *)
Definition vertex_input0_module (sc : Scalar) (names : list string) : Module :=
  {| types := [{| ty_name := None; ty_inner := TScalar sc |};
               {| ty_name := None; ty_inner := TVector Bi sc |};
               {| ty_name := None; ty_inner := TVector Tri sc |};
               {| ty_name := None; ty_inner := TVector Quad sc |};
               {| ty_name := Some (lit "VertexInput0");
                  ty_inner := TStruct (zip_with (fun n i => ex_field n i i) names (seq 0 4)) 64 |}];
     global_variables := [];
     entry_points := [ex_entry "main" Vertex (0, 0, 0) [ex_struct_arg 4]] |}.

(** The expected [impl VertexInput0 { VERTEX_ATTRIBUTES .. }]. *)
Definition vertex_input0_impl (formats : list VertexFormat) (names : list string) : TokenStream :=
  [VertexImpl (lit "VertexInput0") 4
     (zip_with (fun '(f, n) i => {| va_format := f; va_struct := lit "VertexInput0";
                                    va_field := lit n; va_location := i |})
               (zip formats names) (seq 0 4))].

Definition vertex_only (name : string) : Module :=
  {| types := []; global_variables := []; entry_points := [ex_entry name Vertex (0, 0, 0) []] |}.

(** ** The tests of [lib.rs] *)

(** The test helper [create_shader_module] (524-540): one entry [test]
    with the parsed module and an empty dependency list, through
    [create_rust_bindings]. *)
Definition test_entry_of (naga_module : Module) : WgslEntryResult :=
  {| mod_name := lit "test"; naga_module := naga_module;
     full_dependencies := []; source_file_path := [] |}.

Definition create_shader_module (naga_module : Module) (options : WgslBindgenOption)
  : option (result TokenStream CreateModuleError) :=
  @create_rust_bindings ModTree.ModTree ModTree.ModTree_builder
    (fun _ _ => []) (fun _ => []) (fun _ _ => [])
    (fun _ => [Opaque (lit "prelude")]) (fun _ => Some (lit "source"))
    (fun f _ => Some f) (fun _ => None) None to_snake
    [test_entry_of naga_module] options.

Definition default_options : WgslBindgenOption :=
  {| shader_source_output_type := FinalShaderString; output_file := None |}.

Definition create_shader_module_embed_source : bool :=
  let source := {| types := []; global_variables := [];
                   entry_points := [ex_entry "fs_main" Fragment (0, 0, 0) []] |} in
  then_check (create_shader_module source default_options) (fun r =>
    match r with
    | Ok actual =>
        assert_tokens_eq
          [ModItem MOD_REFERENCE_ROOT [Opaque (lit "prelude")];
           ModItem (lit "test")
             [ConstStr (lit "ENTRY_FS_MAIN") (lit "fs_main"); PipelineLayoutFn [];
              CreateShaderModuleEmbedded;
              ShaderStringConst (raw_literal_text (lit "source"))]]
          actual
    | Err _ => false
    end).

Definition uniform_at (g b : nat) : GlobalVariable :=
  {| gv_name := None; gv_space := Uniform;
     gv_binding := Some {| group := g; binding := b |}; gv_ty := 0 |}.

Definition create_shader_module_consecutive_bind_groups : bool :=
  let source := {| types := [{| ty_name := Some (lit "A"); ty_inner := TStruct [] 16 |}];
                   global_variables := [uniform_at 0 0; uniform_at 1 0];
                   entry_points := [ex_entry "vs_main" Vertex (0, 0, 0) [];
                                    ex_entry "fs_main" Fragment (0, 0, 0) []] |} in
  then_check (create_shader_module source default_options) (fun r =>
    match r with Ok _ => true | Err _ => false end).

Definition create_shader_module_non_consecutive_bind_groups : bool :=
  let source := {| types := [];
                   global_variables := [uniform_at 0 0; uniform_at 1 0; uniform_at 3 0];
                   entry_points := [ex_entry "main" Fragment (0, 0, 0) []] |} in
  then_check (create_shader_module source default_options) (fun result =>
    match result with Err NonConsecutiveBindGroups => true | _ => false end).

Definition create_shader_module_repeated_bindings : bool :=
  let source := {| types := [{| ty_name := Some (lit "A"); ty_inner := TStruct [] 16 |}];
                   global_variables := [uniform_at 0 2; uniform_at 0 2];
                   entry_points := [ex_entry "main" Fragment (0, 0, 0) []] |} in
  then_check (create_shader_module source default_options) (fun result =>
    match result with Err (DuplicateBinding 2) => true | _ => false end).

Definition write_vertex_module_empty : bool :=
  then_check (vertex_struct_methods (vertex_only "main")) (assert_tokens_eq []).

Definition write_vertex_module_single_input_float32 : bool :=
  then_check (vertex_struct_methods (vertex_input0_module (scalar_of Float 4) ["a"; "b"; "c"; "d"]))
    (assert_tokens_eq (vertex_input0_impl [Float32; Float32x2; Float32x3; Float32x4]
                                          ["a"; "b"; "c"; "d"])).

Definition write_vertex_module_single_input_float64 : bool :=
  then_check (vertex_struct_methods (vertex_input0_module (scalar_of Float 8) ["a"; "b"; "c"; "d"]))
    (assert_tokens_eq (vertex_input0_impl [Float64; Float64x2; Float64x3; Float64x4]
                                          ["a"; "b"; "c"; "d"])).

(** The shader of this test names all four fields [a]. *)
Definition write_vertex_module_single_input_sint32 : bool :=
  then_check (vertex_struct_methods (vertex_input0_module (scalar_of Sint 4) ["a"; "a"; "a"; "a"]))
    (assert_tokens_eq (vertex_input0_impl [Sint32; Sint32x2; Sint32x3; Sint32x4]
                                          ["a"; "a"; "a"; "a"])).

Definition write_vertex_module_single_input_uint32 : bool :=
  then_check (vertex_struct_methods (vertex_input0_module (scalar_of Uint 4) ["a"; "b"; "c"; "d"]))
    (assert_tokens_eq (vertex_input0_impl [Uint32; Uint32x2; Uint32x3; Uint32x4]
                                          ["a"; "b"; "c"; "d"])).

Definition write_compute_module_empty : bool :=
  assert_tokens_eq [] (compute_module (vertex_only "main")).

Definition write_compute_module_multiple_entries : bool :=
  let source := {| types := []; global_variables := [];
                   entry_points := [ex_entry "main1" Compute (1, 2, 3) [];
                                    ex_entry "main2" Compute (256, 1, 1) []] |} in
  assert_tokens_eq
    [ModItem (lit "compute")
       [ConstWorkgroupSize (lit "MAIN1_WORKGROUP_SIZE") (1, 2, 3);
        ComputePipelineFn (lit "create_main1_pipeline") (lit "Compute Pipeline main1") (lit "main1");
        ConstWorkgroupSize (lit "MAIN2_WORKGROUP_SIZE") (256, 1, 1);
        ComputePipelineFn (lit "create_main2_pipeline") (lit "Compute Pipeline main2") (lit "main2")]]
    (compute_module source).

Definition write_entry_constants : bool :=
  let source := {| types := []; global_variables := [];
                   entry_points := [ex_entry "vs_main" Vertex (0, 0, 0) [];
                                    ex_entry "another_vs" Vertex (0, 0, 0) [];
                                    ex_entry "fs_main" Fragment (0, 0, 0) [];
                                    ex_entry "another_fs" Fragment (0, 0, 0) []] |} in
  assert_tokens_eq
    [ConstStr (lit "ENTRY_VS_MAIN") (lit "vs_main");
     ConstStr (lit "ENTRY_ANOTHER_VS") (lit "another_vs");
     ConstStr (lit "ENTRY_FS_MAIN") (lit "fs_main");
     ConstStr (lit "ENTRY_ANOTHER_FS") (lit "another_fs")]
    (entry_point_constants source).

Definition write_vertex_shader_entry_no_buffers : bool :=
  assert_tokens_eq
    [VertexEntryStructDecl; VertexStateFn;
     VertexEntryFn (lit "vs_main_entry") [] 0 (lit "ENTRY_VS_MAIN") []]
    (vertex_states to_snake (vertex_only "vs_main")).

Definition write_vertex_shader_multiple_entries : bool :=
  let source := {| types := [{| ty_name := None; ty_inner := TVector Quad (scalar_of Float 4) |};
                             {| ty_name := Some (lit "VertexInput");
                                ty_inner := TStruct [ex_field "position" 0 0] 16 |}];
                   global_variables := [];
                   entry_points := [ex_entry "vs_main_1" Vertex (0, 0, 0) [ex_struct_arg 1];
                                    ex_entry "vs_main_2" Vertex (0, 0, 0) [ex_struct_arg 1]] |} in
  assert_tokens_eq
    [VertexEntryStructDecl; VertexStateFn;
     VertexEntryFn (lit "vs_main_1_entry") [lit "vertex_input"] 1 (lit "ENTRY_VS_MAIN_1")
                   [(lit "VertexInput", lit "vertex_input")];
     VertexEntryFn (lit "vs_main_2_entry") [lit "vertex_input"] 1 (lit "ENTRY_VS_MAIN_2")
                   [(lit "VertexInput", lit "vertex_input")]]
    (vertex_states to_snake source).

Definition write_vertex_shader_entry_multiple_buffers : bool :=
  let source := {| types := [{| ty_name := None; ty_inner := TVector Quad (scalar_of Float 4) |};
                             {| ty_name := None; ty_inner := TVector Bi (scalar_of Float 4) |};
                             {| ty_name := Some (lit "Input0");
                                ty_inner := TStruct [ex_field "position" 0 0] 16 |};
                             {| ty_name := Some (lit "Input1");
                                ty_inner := TStruct [ex_field "some_data" 1 1] 8 |}];
                   global_variables := [];
                   entry_points := [ex_entry "vs_main" Vertex (0, 0, 0)
                                      [ex_struct_arg 2; ex_struct_arg 3]] |} in
  assert_tokens_eq
    [VertexEntryStructDecl; VertexStateFn;
     VertexEntryFn (lit "vs_main_entry") [lit "input0"; lit "input1"] 2 (lit "ENTRY_VS_MAIN")
                   [(lit "Input0", lit "input0"); (lit "Input1", lit "input1")]]
    (vertex_states to_snake source).

Definition write_vertex_states_no_entries : bool :=
  let source := {| types := [{| ty_name := None; ty_inner := TVector Quad (scalar_of Float 4) |};
                             {| ty_name := Some (lit "Input");
                                ty_inner := TStruct [ex_field "position" 0 0] 16 |}];
                   global_variables := [];
                   entry_points := [ex_entry "main" Fragment (0, 0, 0) [ex_struct_arg 1]] |} in
  assert_tokens_eq [] (vertex_states to_snake source).

(** ** The tests of [utils.rs] *)

Definition should_fully_qualify_mangled_string : bool :=
  bool_decide (demangle_and_qualify (lit "UniformsX_naga_oil_mod_XOR4XAZLTX")
               = Some (lit "_root::types::Uniforms")).

Definition should_not_fully_qualify_non_mangled_string : bool :=
  bool_decide (demangle_and_qualify (lit "MatricesF64") = Some (lit "MatricesF64")).

Definition lib_tests : list bool :=
  [create_shader_module_embed_source; create_shader_module_consecutive_bind_groups;
   create_shader_module_non_consecutive_bind_groups; create_shader_module_repeated_bindings;
   write_vertex_module_empty; write_vertex_module_single_input_float32;
   write_vertex_module_single_input_float64; write_vertex_module_single_input_sint32;
   write_vertex_module_single_input_uint32; write_compute_module_empty;
   write_compute_module_multiple_entries; write_entry_constants;
   write_vertex_shader_entry_no_buffers; write_vertex_shader_multiple_entries;
   write_vertex_shader_entry_multiple_buffers; write_vertex_states_no_entries;
   should_fully_qualify_mangled_string; should_not_fully_qualify_non_mangled_string].

(** Every unit test of [lib.rs] and [utils.rs] passes on the model. *)
Example lib_tests_pass : forallb id lib_tests = true.
Proof. vm_compute. reflexivity. Qed.

End LibTests.
